(** * Area-conservation mesh forces of the HOOMD sinusoidal-channel fork

    A shallow embedding of

    - [hoomd/md/AreaConservationMeshForceCompute.cc]
      (whole-mesh variant, host path),
    - [hoomd/md/TriangleAreaConservationMeshForceCompute.cc]
      (per-triangle variant, host path),
    - [hoomd/md/AreaConservationMeshForceComputeGPU.cc]
      (whole-mesh variant, accelerator controller),

    and the properties of these functions.

    Conventions of the embedding.

    - [Scalar] (a C++ [double] or [float]) is the type [R] of real numbers:
      the arithmetic is exact, rounding is not modelled.  Division by zero
      and the square root of a negative number have the values the Standard
      Library gives them ([/ 0 = 0], [sqrt] of a negative number is [0]),
      where the floating-point code produces an infinity or a NaN: what
      is proved here of a degenerate triangle or of [A0 = 0] is a
      statement of this arithmetic only.
    - A C++ array is a list.  A read [a[i]] is the total lookup [a !!! i]
      (a default value out of range, where C++ is undefined); a write
      [a[i] = v] is [<[i:=v]> a] and an update [a[i] += v] is
      [alter (fun u => u + v) i a] (nothing happens out of range, where C++
      is undefined).
    - The [assert]s of the source are contract checks compiled out of
      release builds; they appear as hypotheses of the theorems that need
      them.
    - A method of a class is a function of the object's fields; a method
      that may [throw] returns a [result]. *)

From Stdlib Require Import Reals Lra Lia ZArith String.
From stdpp Require Import base list.

Local Open Scope R_scope.

(** ** Scalars and small vectors (HOOMDMath.h) *)

Abbreviation Scalar := R.

(** [Scalar3]: the fields [.x .y .z] of the source. *)
Record Scalar3 : Type := make_scalar3 { x3 : Scalar; y3 : Scalar; z3 : Scalar }.

(** [Scalar4]: the fields [.x .y .z .w] of the source. *)
Record Scalar4 : Type :=
  make_scalar4 { x4 : Scalar; y4 : Scalar; z4 : Scalar; w4 : Scalar }.

(** [Scalar2]: the per-type device parameters [(K, A0)]. *)
Record Scalar2 : Type := make_scalar2 { x2 : Scalar; y2 : Scalar }.

Definition zero3 : Scalar3 := make_scalar3 0 0 0.
Definition zero4 : Scalar4 := make_scalar4 0 0 0 0.

#[global] Instance Scalar_inhabited : Inhabited Scalar := populate 0.
#[global] Instance Scalar3_inhabited : Inhabited Scalar3 := populate zero3.
#[global] Instance Scalar4_inhabited : Inhabited Scalar4 := populate zero4.

(** The operators of [Scalar3]: [a + b], [-a], [a / s], [a * s], [s * a]. *)
Definition vadd (a b : Scalar3) : Scalar3 :=
  make_scalar3 (x3 a + x3 b) (y3 a + y3 b) (z3 a + z3 b).
Definition vneg (a : Scalar3) : Scalar3 :=
  make_scalar3 (- x3 a) (- y3 a) (- z3 a).
Definition vdiv (a : Scalar3) (s : Scalar) : Scalar3 :=
  make_scalar3 (x3 a / s) (y3 a / s) (z3 a / s).
Definition vmul (a : Scalar3) (s : Scalar) : Scalar3 :=
  make_scalar3 (x3 a * s) (y3 a * s) (z3 a * s).
Definition smul (s : Scalar) (a : Scalar3) : Scalar3 :=
  make_scalar3 (s * x3 a) (s * y3 a) (s * z3 a).

Declare Scope vec_scope.
Delimit Scope vec_scope with V.
Infix "+v" := vadd (at level 50, left associativity) : vec_scope.
Notation "-v a" := (vneg a) (at level 35, right associativity) : vec_scope.
Infix "/v" := vdiv (at level 40, left associativity) : vec_scope.
Infix "*v" := vmul (at level 40, left associativity) : vec_scope.
Infix "*s" := smul (at level 40, left associativity) : vec_scope.
Local Open Scope vec_scope.

(** ** Results of methods that may throw *)

Inductive result (A : Type) : Type :=
| Ok (a : A)
| Raise (what : string).
Arguments Ok {A} a.
Arguments Raise {A} what.

Definition returns_normally {A : Type} (r : result A) : Prop :=
  match r with Ok _ => True | Raise _ => False end.

Definition raises {A : Type} (r : result A) : Prop :=
  match r with Ok _ => False | Raise _ => True end.

(** ** The collaborators: particle data and mesh definition *)

(** [members_t]: the three particle tags [tag[0]], [tag[1]], [tag[2]] of a
    mesh triangle. *)
Record members_t : Type := make_members { tag0 : nat; tag1 : nat; tag2 : nat }.

(** What the methods read of [m_pdata] and of the execution configuration:
    positions by local index, the tag to local index table, the number of
    owned and of ghost particles, the periodic wrap of the global box, the
    pressure-tensor flag, whether the run is domain decomposed, and the
    effect of the in-place sum-reduction [MPI_Allreduce] on this rank's
    buffer. *)
Record ParticleData : Type := make_pdata {
  h_pos : list Scalar4;
  h_rtag : list nat;
  getN : nat;
  getNGhosts : nat;
  minImage : Scalar3 -> Scalar3;
  compute_virial : bool;
  getDomainDecomposition : bool;
  MPI_Allreduce_SUM : list Scalar -> list Scalar
}.

(** What the methods read of [m_mesh_data]: the triangles, each with the
    type that [getTypeByIndex] returns at its index (the members array and
    the type array of the triangle data are read at the same index [i], so
    they are one list of pairs here), the number of types, the mesh size
    [getSize()] and the per-type sizes [getPerTypeSize()].  The class
    [MeshDefinition] is not among these files: the two sizes are values
    of the environment, of which the methods assume nothing. *)
Record MeshDefinition : Type := make_mesh {
  h_triangles : list (members_t * nat);
  getNTypes : nat;
  getSize : nat;
  h_pts : list nat
}.

(** ** The geometry shared by the three triangle loops

    Every loop computes, from the two wrapped edge vectors [dab] and [dac]
    of a triangle, the edge lengths, the unit vectors, the clamped cosine
    and the sine of the angle between them, with the same statements. *)

Record angle_terms : Type := make_angle {
  rab : Scalar; rac : Scalar;
  nab : Scalar3; nac : Scalar3;
  c_baac : Scalar; s_baac : Scalar
}.

Definition clamp_cos (c : Scalar) : Scalar :=
  let c1 := if Rgt_dec c 1 then 1 else c in
  if Rlt_dec c1 (-1) then -1 else c1.

Definition angle_of (dab dac : Scalar3) : angle_terms :=
  let rsqab := x3 dab * x3 dab + y3 dab * y3 dab + z3 dab * z3 dab in
  let rab := sqrt rsqab in
  let rsqac := x3 dac * x3 dac + y3 dac * y3 dac + z3 dac * z3 dac in
  let rac := sqrt rsqac in
  let nab := dab /v rab in
  let nac := dac /v rac in
  let c := x3 nab * x3 nac + y3 nab * y3 nac + z3 nab * z3 nac in
  let c := clamp_cos c in
  let s := sqrt (1 - c * c) in
  make_angle rab rac nab nac c s.

(** [h_pos.data[i] - h_pos.data[j]], component by component. *)
Definition pos_diff (pd : ParticleData) (i j : nat) : Scalar3 :=
  make_scalar3 (x4 (h_pos pd !!! i) - x4 (h_pos pd !!! j))
               (y4 (h_pos pd !!! i) - y4 (h_pos pd !!! j))
               (z4 (h_pos pd !!! i) - z4 (h_pos pd !!! j)).

(** The local indices of the three vertices of a triangle. *)
Definition idx_a (pd : ParticleData) (t : members_t) : nat := h_rtag pd !!! tag0 t.
Definition idx_b (pd : ParticleData) (t : members_t) : nat := h_rtag pd !!! tag1 t.
Definition idx_c (pd : ParticleData) (t : members_t) : nat := h_rtag pd !!! tag2 t.

(** The edge vectors of the two force loops: [dab = r_a - r_b],
    [dac = r_a - r_c], wrapped. *)
Definition force_dab (pd : ParticleData) (t : members_t) : Scalar3 :=
  minImage pd (pos_diff pd (idx_a pd t) (idx_b pd t)).
Definition force_dac (pd : ParticleData) (t : members_t) : Scalar3 :=
  minImage pd (pos_diff pd (idx_a pd t) (idx_c pd t)).

(** The edge vectors of the area loop of [precomputeParameter]:
    [dab = r_b - r_a], [dac = r_c - r_a], wrapped. *)
Definition area_dab (pd : ParticleData) (t : members_t) : Scalar3 :=
  minImage pd (pos_diff pd (idx_b pd t) (idx_a pd t)).
Definition area_dac (pd : ParticleData) (t : members_t) : Scalar3 :=
  minImage pd (pos_diff pd (idx_c pd t) (idx_a pd t)).

(** The derivative vectors of the two force loops. *)
Definition inv_s_baac (g : angle_terms) : Scalar := 1 / s_baac g.
Definition dc_drab (g : angle_terms) : Scalar3 :=
  (-v nac g) /v rab g +v (c_baac g / rab g) *s nab g.
Definition dc_drac (g : angle_terms) : Scalar3 :=
  (-v nab g) /v rac g +v (c_baac g / rac g) *s nac g.
Definition ds_drab (g : angle_terms) : Scalar3 :=
  (- c_baac g * inv_s_baac g) *s dc_drab g.
Definition ds_drac (g : angle_terms) : Scalar3 :=
  (- c_baac g * inv_s_baac g) *s dc_drac g.

(** [pre * (-nab * rac * s_baac + ds_drab * rab * rac)] and the same for
    the edge [ac]: the two nodal forces, up to the variant's prefactor. *)
Definition Fab_of (pre : Scalar) (g : angle_terms) : Scalar3 :=
  pre *s ((-v nab g) *v rac g *v s_baac g +v ds_drab g *v rab g *v rac g).
Definition Fac_of (pre : Scalar) (g : angle_terms) : Scalar3 :=
  pre *s ((-v nac g) *v rab g *v s_baac g +v ds_drac g *v rab g *v rac g).

(** The three assignments of the six-component virial scratch array. *)
Definition virial_a (dab dac Fab Fac : Scalar3) : list Scalar :=
  [ (1 / 2) * (x3 dab * x3 Fab + x3 dac * x3 Fac);
    (1 / 2) * (y3 dab * x3 Fab + y3 dac * x3 Fac);
    (1 / 2) * (z3 dab * x3 Fab + z3 dac * x3 Fac);
    (1 / 2) * (y3 dab * y3 Fab + y3 dac * y3 Fac);
    (1 / 2) * (z3 dab * y3 Fab + z3 dac * y3 Fac);
    (1 / 2) * (z3 dab * z3 Fab + z3 dac * z3 Fac) ].
Definition virial_edge (d F : Scalar3) : list Scalar :=
  [ (1 / 2) * x3 d * x3 F;
    (1 / 2) * y3 d * x3 F;
    (1 / 2) * z3 d * x3 F;
    (1 / 2) * y3 d * y3 F;
    (1 / 2) * z3 d * y3 F;
    (1 / 2) * z3 d * z3 F ].

(** ** The force and virial buffers *)

(** [h_force.data[idx].x += f.x; .y += f.y; .z += f.z; .w += e]. *)
Definition force_add (idx : nat) (f : Scalar3) (e : Scalar)
    (h_force : list Scalar4) : list Scalar4 :=
  alter (fun F => make_scalar4 (x4 F + x3 f) (y4 F + y3 f) (z4 F + z3 f) (w4 F + e))
        idx h_force.

(** [h_force.data[idx].x -= f.x; .y -= f.y; .z -= f.z; .w += e]. *)
Definition force_sub (idx : nat) (f : Scalar3) (e : Scalar)
    (h_force : list Scalar4) : list Scalar4 :=
  alter (fun F => make_scalar4 (x4 F - x3 f) (y4 F - y3 f) (z4 F - z3 f) (w4 F + e))
        idx h_force.

(** [for (j = 0; j < 6; j++) h_virial.data[j * virial_pitch + idx] += v[j]]. *)
Definition virial_add (virial_pitch idx : nat) (v : list Scalar)
    (h_virial : list Scalar) : list Scalar :=
  foldl (fun hv j => alter (fun u => u + v !!! j) (j * virial_pitch + idx)%nat hv)
        h_virial (seq 0 6).

(** [memset(..., 0, ...)] over a whole buffer. *)
Definition memset0 {A : Type} (zero : A) (buf : list A) : list A :=
  replicate (length buf) zero.

(** ** Whole-mesh variant, host path
    ([AreaConservationMeshForceCompute.cc]) *)

Module AreaConservationMeshForceCompute.

(** The fields of the object: the three per-type arrays, the
    single-type-collapse flag, the force and virial buffers of the base
    class with the pitch of the virial buffer, and the warnings sent to
    the messenger so far (latest first). *)
Record t : Type := make {
  m_K : list Scalar;
  m_A0 : list Scalar;
  m_area : list Scalar;
  m_ignore_type : bool;
  m_force : list Scalar4;
  m_virial : list Scalar;
  virial_pitch : nat;
  warnings : list string
}.

(** The constructor allocates the three arrays with [getNTypes()]
    entries, or with one entry when [ignore_type] is set; it does not
    initialise them. *)
Definition n_alloc (md : MeshDefinition) (ignore_type : bool) : nat :=
  if ignore_type then 1%nat else getNTypes md.

Definition constructed (md : MeshDefinition) (o : t) : Prop :=
  length (m_K o) = n_alloc md (m_ignore_type o)
  /\ length (m_A0 o) = n_alloc md (m_ignore_type o)
  /\ length (m_area o) = n_alloc md (m_ignore_type o).

Definition set_K_A0 (o : t) (type : nat) (K A0 : Scalar) : t :=
  make (<[type := K]> (m_K o)) (<[type := A0]> (m_A0 o)) (m_area o)
       (m_ignore_type o) (m_force o) (m_virial o) (virial_pitch o) (warnings o).

Definition warning (o : t) (text : string) : t :=
  make (m_K o) (m_A0 o) (m_area o) (m_ignore_type o) (m_force o) (m_virial o)
       (virial_pitch o) (text :: warnings o).

(** [setParams(type, K, A0)]. *)
Definition setParams (o : t) (type : nat) (K A0 : Scalar) : result t :=
  if negb (m_ignore_type o) || (type =? 0)%nat then
    let o := set_K_A0 o type K A0 in
    let o := if Rle_dec K 0 then warning o "area: specified K <= 0" else o in
    let o := if Rle_dec A0 0 then warning o "area: specified A0 <= 0" else o in
    Ok o
  else Ok o.

(** [getParams(type)], from the type id that [getTypeByName] resolves
    the name to; the pair stands for the dictionary with keys [k] and
    [A0].  (The source compares the id with the type count of the bond
    data of the mesh, which is the type count of the mesh.) *)
Definition getParams (md : MeshDefinition) (o : t) (typ : nat)
    : result (Scalar * Scalar) :=
  if (getNTypes md <=? typ)%nat then
    Raise "Error setting parameters in AreaConservationMeshForceCompute"
  else
    let typ := if m_ignore_type o then 0%nat else typ in
    Ok (m_K o !!! typ, m_A0 o !!! typ).

(** The type under which a triangle is looked up in the per-type arrays. *)
Definition triangle_type (ignore_type : bool) (tri : members_t * nat) : nat :=
  if ignore_type then 0%nat else tri.2.

(** The area of one triangle, as the loop of [precomputeParameter]
    computes it. *)
Definition area_tri (pd : ParticleData) (t : members_t) : Scalar :=
  let g := angle_of (area_dab pd t) (area_dac pd t) in
  rab g * rac g * s_baac g / 2.

(** One iteration of the loop of [precomputeParameter] over the
    triangles. *)
Definition area_step (pd : ParticleData) (ignore_type : bool)
    (global_area : list Scalar) (tri : members_t * nat) : list Scalar :=
  let area_tri := area_tri pd tri.1 in
  let triangle_type := triangle_type ignore_type tri in
  if getDomainDecomposition pd then
    let area_tri := area_tri / 3 in
    let global_area :=
      if (idx_a pd tri.1 <? getN pd)%nat
      then alter (fun u => u + area_tri) triangle_type global_area
      else global_area in
    let global_area :=
      if (idx_b pd tri.1 <? getN pd)%nat
      then alter (fun u => u + area_tri) triangle_type global_area
      else global_area in
    let global_area :=
      if (idx_c pd tri.1 <? getN pd)%nat
      then alter (fun u => u + area_tri) triangle_type global_area
      else global_area in
    global_area
  else alter (fun u => u + area_tri) triangle_type global_area.

(** [global_area] at the end of the loop, before the reduction. *)
Definition local_area (pd : ParticleData) (md : MeshDefinition)
    (ignore_type : bool) : list Scalar :=
  foldl (area_step pd ignore_type) (replicate (getNTypes md) 0) (h_triangles md).

(** [global_area] after the reduction, which only a domain-decomposed
    run performs. *)
Definition reduced_area (pd : ParticleData) (md : MeshDefinition)
    (ignore_type : bool) : list Scalar :=
  if getDomainDecomposition pd
  then MPI_Allreduce_SUM pd (local_area pd md ignore_type)
  else local_area pd md ignore_type.

(** [for (i = 0; i < n_types; i++) m_area[i] = global_area[i]]. *)
Definition copy_area (n_types : nat) (global_area m_area : list Scalar)
    : list Scalar :=
  foldl (fun ma i => <[i := global_area !!! i]> ma) m_area (seq 0 n_types).

Definition set_area (o : t) (area : list Scalar) : t :=
  make (m_K o) (m_A0 o) area (m_ignore_type o) (m_force o) (m_virial o)
       (virial_pitch o) (warnings o).

(** [precomputeParameter()]. *)
Definition precomputeParameter (pd : ParticleData) (md : MeshDefinition)
    (o : t) : t :=
  set_area o (copy_area (getNTypes md)
                        (reduced_area pd md (m_ignore_type o)) (m_area o)).

(** The variables that the triangle loop of [computeForces] carries from
    one iteration to the next. *)
Record loop_state : Type := make_loop {
  h_force : list Scalar4;
  h_virial : list Scalar;
  area_virial : list Scalar;
  triN : nat
}.

(** The value of [triN] that an iteration uses. *)
Definition triN_of (md : MeshDefinition) (o : t) (ls : loop_state)
    (tri : members_t * nat) : nat :=
  if m_ignore_type o then triN ls else h_pts md !!! tri.2.

(** The local variable [energy] of an iteration. *)
Definition energy_of (md : MeshDefinition) (o : t) (ls : loop_state)
    (tri : members_t * nat) : Scalar :=
  let ty := triangle_type (m_ignore_type o) tri in
  let AreaDiff := m_area o !!! ty - m_A0 o !!! ty in
  m_K o !!! ty * AreaDiff * AreaDiff / (6 * m_A0 o !!! ty * INR (triN_of md o ls tri)).

(** The second value of the local variable [AreaDiff]: the prefactor of
    the forces. *)
Definition prefactor_of (o : t) (tri : members_t * nat) : Scalar :=
  let ty := triangle_type (m_ignore_type o) tri in
  let AreaDiff := m_area o !!! ty - m_A0 o !!! ty in
  m_K o !!! ty / m_A0 o !!! ty * AreaDiff / 2.

Definition Fab (pd : ParticleData) (o : t) (tri : members_t * nat) : Scalar3 :=
  Fab_of (prefactor_of o tri) (angle_of (force_dab pd tri.1) (force_dac pd tri.1)).
Definition Fac (pd : ParticleData) (o : t) (tri : members_t * nat) : Scalar3 :=
  Fac_of (prefactor_of o tri) (angle_of (force_dab pd tri.1) (force_dac pd tri.1)).

(** One iteration of the triangle loop of [computeForces]. *)
Definition force_step (pd : ParticleData) (md : MeshDefinition) (o : t)
    (ls : loop_state) (tri : members_t * nat) : loop_state :=
  let idx_a := idx_a pd tri.1 in
  let idx_b := idx_b pd tri.1 in
  let idx_c := idx_c pd tri.1 in
  let dab := force_dab pd tri.1 in
  let dac := force_dac pd tri.1 in
  let triN := triN_of md o ls tri in
  let energy := energy_of md o ls tri in
  let Fab := Fab pd o tri in
  let Fac := Fac pd o tri in
  let hf := h_force ls in
  let hv := h_virial ls in
  let av := area_virial ls in
  let av := if compute_virial pd then virial_a dab dac Fab Fac else av in
  let '(hf, hv) :=
    if (idx_a <? getN pd)%nat
    then (force_add idx_a (Fab +v Fac) energy hf,
          virial_add (virial_pitch o) idx_a av hv)
    else (hf, hv) in
  let av := if compute_virial pd then virial_edge dab Fab else av in
  let '(hf, hv) :=
    if (idx_b <? getN pd)%nat
    then (force_sub idx_b Fab energy hf, virial_add (virial_pitch o) idx_b av hv)
    else (hf, hv) in
  let av := if compute_virial pd then virial_edge dac Fac else av in
  let '(hf, hv) :=
    if (idx_c <? getN pd)%nat
    then (force_sub idx_c Fac energy hf, virial_add (virial_pitch o) idx_c av hv)
    else (hf, hv) in
  make_loop hf hv av triN.

(** The loop state before the first triangle: zeroed buffers, a zeroed
    scratch array, and [triN = m_mesh_data->getSize()]. *)
Definition loop_init (md : MeshDefinition) (o : t) : loop_state :=
  make_loop (memset0 zero4 (m_force o)) (memset0 0 (m_virial o))
            (replicate 6 0) (getSize md).

(** The loop state after the triangles [tris]. *)
Definition loop_over (pd : ParticleData) (md : MeshDefinition) (o : t)
    (tris : list (members_t * nat)) : loop_state :=
  foldl (force_step pd md o) (loop_init md o) tris.

Definition set_buffers (o : t) (ls : loop_state) : t :=
  make (m_K o) (m_A0 o) (m_area o) (m_ignore_type o) (h_force ls) (h_virial ls)
       (virial_pitch o) (warnings o).

(** [computeForces(timestep)]: the areas are recomputed first, then the
    loop runs with them. *)
Definition computeForces (pd : ParticleData) (md : MeshDefinition) (o : t) : t :=
  let o := precomputeParameter pd md o in
  set_buffers o (loop_over pd md o (h_triangles md)).

(** [getArea(type)] returns [m_area[type]]. *)
Definition getArea (o : t) (type : nat) : Scalar := m_area o !!! type.

End AreaConservationMeshForceCompute.

(** ** Per-triangle variant, host path
    ([TriangleAreaConservationMeshForceCompute.cc]) *)

Module TriangleAreaConservationMeshForceCompute.

Record t : Type := make {
  m_K : list Scalar;
  m_A0 : list Scalar;
  m_area : list Scalar;
  m_force : list Scalar4;
  m_virial : list Scalar;
  virial_pitch : nat;
  warnings : list string
}.

(** The constructor allocates the three arrays with [getNTypes()]
    entries. *)
Definition constructed (md : MeshDefinition) (o : t) : Prop :=
  length (m_K o) = getNTypes md
  /\ length (m_A0 o) = getNTypes md
  /\ length (m_area o) = getNTypes md.

Definition set_K_A0 (o : t) (type : nat) (K A0 : Scalar) : t :=
  make (<[type := K]> (m_K o)) (<[type := A0]> (m_A0 o)) (m_area o)
       (m_force o) (m_virial o) (virial_pitch o) (warnings o).

Definition warning (o : t) (text : string) : t :=
  make (m_K o) (m_A0 o) (m_area o) (m_force o) (m_virial o)
       (virial_pitch o) (text :: warnings o).

(** [setParams(type, K, A0)]. *)
Definition setParams (o : t) (type : nat) (K A0 : Scalar) : result t :=
  let o := set_K_A0 o type K A0 in
  let o := if Rle_dec K 0
           then warning o "TriangleAreaConservation: specified K <= 0" else o in
  let o := if Rle_dec A0 0
           then warning o "TriangleAreaConservation: specified A0 <= 0" else o in
  Ok o.

(** [getParams(type)], from the type id that [getTypeByName] resolves
    the name to. *)
Definition getParams (md : MeshDefinition) (o : t) (typ : nat)
    : result (Scalar * Scalar) :=
  if (getNTypes md <=? typ)%nat then
    Raise "Error setting parameters in TriangleAreaConservationMeshForceCompute"
  else Ok (m_K o !!! typ, m_A0 o !!! typ).

Record loop_state : Type := make_loop {
  h_force : list Scalar4;
  h_virial : list Scalar;
  triangle_area_conservation_virial : list Scalar;
  global_area : list Scalar
}.

(** The local variables [tri_area] (a third of the triangle's area),
    [Ut], [prefactor] and the energy that each guarded block adds. *)
Definition tri_area (pd : ParticleData) (tri : members_t * nat) : Scalar :=
  let g := angle_of (force_dab pd tri.1) (force_dac pd tri.1) in
  rab g * rac g * s_baac g / 6.
Definition Ut (pd : ParticleData) (o : t) (tri : members_t * nat) : Scalar :=
  3 * tri_area pd tri - m_A0 o !!! tri.2.
Definition prefactor_of (pd : ParticleData) (o : t) (tri : members_t * nat)
    : Scalar :=
  m_K o !!! tri.2 / (2 * m_A0 o !!! tri.2) * Ut pd o tri.
Definition energy_of (pd : ParticleData) (o : t) (tri : members_t * nat)
    : Scalar :=
  m_K o !!! tri.2 / (6 * m_A0 o !!! tri.2) * Ut pd o tri * Ut pd o tri.

Definition Fab (pd : ParticleData) (o : t) (tri : members_t * nat) : Scalar3 :=
  Fab_of (prefactor_of pd o tri)
         (angle_of (force_dab pd tri.1) (force_dac pd tri.1)).
Definition Fac (pd : ParticleData) (o : t) (tri : members_t * nat) : Scalar3 :=
  Fac_of (prefactor_of pd o tri)
         (angle_of (force_dab pd tri.1) (force_dac pd tri.1)).

(** One iteration of the triangle loop of [computeForces]. *)
Definition force_step (pd : ParticleData) (o : t)
    (ls : loop_state) (tri : members_t * nat) : loop_state :=
  let idx_a := idx_a pd tri.1 in
  let idx_b := idx_b pd tri.1 in
  let idx_c := idx_c pd tri.1 in
  let dab := force_dab pd tri.1 in
  let dac := force_dac pd tri.1 in
  let triangle_type := tri.2 in
  let tri_area := tri_area pd tri in
  let energy := energy_of pd o tri in
  let Fab := Fab pd o tri in
  let Fac := Fac pd o tri in
  let hf := h_force ls in
  let hv := h_virial ls in
  let ga := global_area ls in
  let av := triangle_area_conservation_virial ls in
  let av := if compute_virial pd then virial_a dab dac Fab Fac else av in
  let '(ga, hf, hv) :=
    if (idx_a <? getN pd)%nat
    then (alter (fun u => u + tri_area) triangle_type ga,
          force_add idx_a (Fab +v Fac) energy hf,
          virial_add (virial_pitch o) idx_a av hv)
    else (ga, hf, hv) in
  let av := if compute_virial pd then virial_edge dab Fab else av in
  let '(ga, hf, hv) :=
    if (idx_b <? getN pd)%nat
    then (alter (fun u => u + tri_area) triangle_type ga,
          force_sub idx_b Fab energy hf,
          virial_add (virial_pitch o) idx_b av hv)
    else (ga, hf, hv) in
  let av := if compute_virial pd then virial_edge dac Fac else av in
  let '(ga, hf, hv) :=
    if (idx_c <? getN pd)%nat
    then (alter (fun u => u + tri_area) triangle_type ga,
          force_sub idx_c Fac energy hf,
          virial_add (virial_pitch o) idx_c av hv)
    else (ga, hf, hv) in
  make_loop hf hv av ga.

Definition loop_init (md : MeshDefinition) (o : t) : loop_state :=
  make_loop (memset0 zero4 (m_force o)) (memset0 0 (m_virial o))
            (replicate 6 0) (replicate (getNTypes md) 0).

Definition loop_over (pd : ParticleData) (md : MeshDefinition) (o : t)
    (tris : list (members_t * nat)) : loop_state :=
  foldl (force_step pd o) (loop_init md o) tris.

(** [global_area] after the reduction of a domain-decomposed run. *)
Definition reduced_area (pd : ParticleData) (global_area : list Scalar)
    : list Scalar :=
  if getDomainDecomposition pd then MPI_Allreduce_SUM pd global_area
  else global_area.

(** [for (i = 0; i < n_types; i++) m_area[i] = global_area[i]]. *)
Definition copy_area (n_types : nat) (global_area m_area : list Scalar)
    : list Scalar :=
  foldl (fun ma i => <[i := global_area !!! i]> ma) m_area (seq 0 n_types).

(** [computeForces(timestep)]. *)
Definition computeForces (pd : ParticleData) (md : MeshDefinition) (o : t) : t :=
  let ls := loop_over pd md o (h_triangles md) in
  make (m_K o) (m_A0 o)
       (copy_area (getNTypes md) (reduced_area pd (global_area ls)) (m_area o))
       (h_force ls) (h_virial ls) (virial_pitch o) (warnings o).

(** [getArea(type)] returns [m_area[type]]. *)
Definition getArea (o : t) (type : nat) : Scalar := m_area o !!! type.

End TriangleAreaConservationMeshForceCompute.

(** ** Whole-mesh variant, accelerator controller
    ([AreaConservationMeshForceComputeGPU.cc]) *)

Module AreaConservationMeshForceComputeGPU.

(** What [computeForces] does that the rest of the program can observe,
    in order. *)
Inductive event : Type :=
| prof_push
| tuner_begin
| kernel_launch (block_size : nat)
| check_cuda_error
| flags_read_back (word : Z)
| error_message (word : Z)
| tuner_end
| prof_pop.

(** The device buffers that the kernel writes. *)
Record device_buffers : Type := make_buffers {
  d_force : list Scalar4;
  d_virial : list Scalar;
  d_flags : list Z
}.

(** The execution configuration and the device code, which are not part
    of these files: whether error checking is enabled, what the macro
    [CHECK_CUDA_ERROR()] finds (it throws on a device error), and the
    kernel driver [kernel::gpu_compute_AreaConservation_force]. *)
Record ExecutionConfiguration : Type := make_exec {
  isCUDAErrorCheckingEnabled : bool;
  CHECK_CUDA_ERROR : result unit;
  gpu_compute_AreaConservation_force :
    ParticleData -> MeshDefinition -> list Scalar2 -> nat ->
    device_buffers -> device_buffers
}.

(** The fields of the object: those of the host class, the device copy
    of the parameters, the one-word flags array, whether a profiler is
    attached, the launch parameter of the autotuner, and the events so
    far (latest first). *)
Record t : Type := make {
  base : AreaConservationMeshForceCompute.t;
  m_params : list Scalar2;
  m_flags : list Z;
  m_prof : bool;
  tuner_param : nat;
  trace : list event
}.

Definition log (e : event) (o : t) : t :=
  make (base o) (m_params o) (m_flags o) (m_prof o) (tuner_param o)
       (e :: trace o).

(** [setParams(type, K, A0)]: the host method, then the device copy. *)
Definition setParams (o : t) (type : nat) (K A0 : Scalar) : result t :=
  match AreaConservationMeshForceCompute.setParams (base o) type K A0 with
  | Raise what => Raise what
  | Ok b =>
      Ok (make b (<[type := make_scalar2 K A0]> (m_params o)) (m_flags o)
               (m_prof o) (tuner_param o) (trace o))
  end.

(** The launch of the kernel on the buffers of the object. *)
Definition launch (ec : ExecutionConfiguration) (pd : ParticleData)
    (md : MeshDefinition) (o : t) : t :=
  let b := base o in
  let out :=
    gpu_compute_AreaConservation_force ec pd md (m_params o) (tuner_param o)
      (make_buffers (AreaConservationMeshForceCompute.m_force b)
                    (AreaConservationMeshForceCompute.m_virial b)
                    (m_flags o)) in
  make (AreaConservationMeshForceCompute.make
          (AreaConservationMeshForceCompute.m_K b)
          (AreaConservationMeshForceCompute.m_A0 b)
          (AreaConservationMeshForceCompute.m_area b)
          (AreaConservationMeshForceCompute.m_ignore_type b)
          (d_force out) (d_virial out)
          (AreaConservationMeshForceCompute.virial_pitch b)
          (AreaConservationMeshForceCompute.warnings b))
       (m_params o) (d_flags out) (m_prof o) (tuner_param o)
       (kernel_launch (tuner_param o) :: trace o).

(** [computeForces(timestep)]: the object after the call, and whether the
    call returned or threw. *)
Definition computeForces (ec : ExecutionConfiguration) (pd : ParticleData)
    (md : MeshDefinition) (o : t) : t * result unit :=
  let o := if m_prof o then log prof_push o else o in
  let o := log tuner_begin o in
  let o := launch ec pd md o in
  let finish (o : t) : t * result unit :=
    let o := log tuner_end o in
    let o := if m_prof o then log prof_pop o else o in
    (o, Ok tt) in
  if isCUDAErrorCheckingEnabled ec then
    let o := log check_cuda_error o in
    match CHECK_CUDA_ERROR ec with
    | Raise what => (o, Raise what)
    | Ok _ =>
        let word := m_flags o !!! 0%nat in
        let o := log (flags_read_back word) o in
        if negb (Z.land word 1 =? 0)%Z then
          (log (error_message word) o, Raise "Error in meshtriangle calculation")
        else finish o
    end
  else finish o.

End AreaConservationMeshForceComputeGPU.

(** ** A domain-decomposed run of the area aggregation

    Each rank has its own particle data (its own local indices, owned
    count and ghosts) and its own list of triangles.  [MPI_Allreduce] with
    [MPI_SUM] over [n_types] entries leaves in every rank's buffer the
    entry-wise sum of the buffers of all ranks. *)

Definition sum_R (l : list Scalar) : Scalar := foldr Rplus 0 l.

Definition allreduce_sum (n_types : nat) (bufs : list (list Scalar))
    : list Scalar :=
  map (fun i => sum_R (map (fun buf => buf !!! i) bufs)) (seq 0 n_types).

(** The aggregate areas that the reduction leaves on every rank. *)
Definition world_area (n_types : nat) (ignore_type : bool)
    (ranks : list (ParticleData * MeshDefinition)) : list Scalar :=
  allreduce_sum n_types
    (map (fun r => AreaConservationMeshForceCompute.local_area r.1 r.2 ignore_type)
         ranks).

(** A particle tag is owned by a rank when its local index there is below
    the owned count. *)
Definition owns_tag (pd : ParticleData) (tag : nat) : bool :=
  (h_rtag pd !!! tag <? getN pd)%nat.

Definition owns_vertex_of (pd : ParticleData) (t : members_t) : bool :=
  owns_tag pd (tag0 t) || owns_tag pd (tag1 t) || owns_tag pd (tag2 t).

Definition owners (ranks : list (ParticleData * MeshDefinition)) (tag : nat)
    : list (ParticleData * MeshDefinition) :=
  filter (fun r => owns_tag r.1 tag = true) ranks.

(** Every vertex of every triangle of the mesh has exactly one owner. *)
Definition vertex_partition (mesh : list (members_t * nat))
    (ranks : list (ParticleData * MeshDefinition)) : Prop :=
  forall tri, tri ∈ mesh ->
    length (owners ranks (tag0 tri.1)) = 1%nat
    /\ length (owners ranks (tag1 tri.1)) = 1%nat
    /\ length (owners ranks (tag2 tri.1)) = 1%nat.

(** A rank's view of the mesh of a single-rank run [(pd0, md0)]: the rank
    is domain decomposed, it has the same type count, its triangles are
    those of the mesh that it keeps, in the same order, it keeps every
    triangle of which it owns a vertex, and for such a triangle its
    particle positions give the area that the single-rank run computes. *)
Definition rank_view (pd0 : ParticleData) (md0 : MeshDefinition)
    (r : ParticleData * MeshDefinition) : Prop :=
  getDomainDecomposition r.1 = true
  /\ getNTypes r.2 = getNTypes md0
  /\ (exists keep : members_t * nat -> bool,
        h_triangles r.2 = filter (fun tri => keep tri = true) (h_triangles md0)
        /\ forall tri, tri ∈ h_triangles md0 ->
             owns_vertex_of r.1 tri.1 = true -> keep tri = true)
  /\ (forall tri, tri ∈ h_triangles md0 ->
        owns_vertex_of r.1 tri.1 = true ->
        AreaConservationMeshForceCompute.area_tri r.1 tri.1
        = AreaConservationMeshForceCompute.area_tri pd0 tri.1).

(** ** Concrete inputs

    A right triangle with legs of length 1 in the XY-plane, and the unit
    square cut into two such triangles.  Unless said otherwise every
    particle is owned, the box does not wrap and the run is on a single
    rank. *)

Definition particle (px py pz : Scalar) : Scalar4 := make_scalar4 px py pz 0.

Definition no_wrap (d : Scalar3) : Scalar3 := d.

Definition no_reduction (buf : list Scalar) : list Scalar := buf.

Definition triangle_pd : ParticleData :=
  make_pdata [particle 0 0 0; particle 1 0 0; particle 0 1 0]
             [0; 1; 2]%nat 3 0 no_wrap true false no_reduction.

Definition triangle_md : MeshDefinition :=
  make_mesh [(make_members 0 1 2, 0%nat)] 1 1 [1%nat].

Definition square_pd : ParticleData :=
  make_pdata [particle 0 0 0; particle 1 0 0; particle 0 1 0; particle 1 1 0]
             [0; 1; 2; 3]%nat 4 0 no_wrap true false no_reduction.

Definition square_md : MeshDefinition :=
  make_mesh [(make_members 0 1 2, 0%nat); (make_members 3 2 1, 0%nat)] 1 2 [2%nat].

(** The unit square with the first triangle of type 0 and the second of
    type 1. *)
Definition two_type_md : MeshDefinition :=
  make_mesh [(make_members 0 1 2, 0%nat); (make_members 3 2 1, 1%nat)] 2 2
            [1%nat; 1%nat].

(** A whole-mesh object for one type with [K = 12] and [A0 = 2], with
    single-type collapse. *)
Definition collapsed_12_2 (n_particles : nat) : AreaConservationMeshForceCompute.t :=
  AreaConservationMeshForceCompute.make [12] [2] [0] true
    (replicate n_particles zero4) (replicate (6 * n_particles) 0) n_particles [].

(** A whole-mesh object for one type with [K = 10] and [A0 = 1/2], types
    distinguished. *)
Definition whole_10_half (n_particles : nat) : AreaConservationMeshForceCompute.t :=
  AreaConservationMeshForceCompute.make [10] [1 / 2] [0] false
    (replicate n_particles zero4) (replicate (6 * n_particles) 0) n_particles [].

(** A per-triangle object for one type with [K = 10] and [A0 = 2/5]. *)
Definition per_triangle_10_04 (n_particles : nat)
    : TriangleAreaConservationMeshForceCompute.t :=
  TriangleAreaConservationMeshForceCompute.make [10] [2 / 5] [0]
    (replicate n_particles zero4) (replicate (6 * n_particles) 0) n_particles [].

(** The right triangle with its third particle a ghost. *)
Definition ghost_pd : ParticleData :=
  make_pdata [particle 0 0 0; particle 1 0 0; particle 0 1 0]
             [0; 1; 2]%nat 2 1 no_wrap true false no_reduction.

(** Objects for a mesh with two types, every [K] and [A0] equal to 1. *)
Definition whole_two_types : AreaConservationMeshForceCompute.t :=
  AreaConservationMeshForceCompute.make [1; 1] [1; 1] [0; 0] false
    (replicate 4 zero4) (replicate 24 0) 4 [].

Definition per_triangle_two_types : TriangleAreaConservationMeshForceCompute.t :=
  TriangleAreaConservationMeshForceCompute.make [1; 1] [1; 1] [0; 0]
    (replicate 4 zero4) (replicate 24 0) 4 [].

(** The right triangle on two ranks: rank A owns the particles with tags 0
    and 1 and has tag 2 as a ghost; rank B owns tag 2, at local index 0,
    and has tags 0 and 1 as ghosts.  The reduction on a rank adds to its
    buffer the buffer of the other rank. *)
Definition rank_A_local : ParticleData :=
  make_pdata [particle 0 0 0; particle 1 0 0; particle 0 1 0]
             [0; 1; 2]%nat 2 1 no_wrap true true no_reduction.

Definition rank_B_local : ParticleData :=
  make_pdata [particle 0 1 0; particle 0 0 0; particle 1 0 0]
             [1; 2; 0]%nat 1 2 no_wrap true true no_reduction.

Definition rank_A : ParticleData :=
  make_pdata (h_pos rank_A_local) (h_rtag rank_A_local) 2 1 no_wrap true true
    (fun buf => allreduce_sum 1
       [buf; AreaConservationMeshForceCompute.local_area rank_B_local triangle_md false]).

Definition rank_B : ParticleData :=
  make_pdata (h_pos rank_B_local) (h_rtag rank_B_local) 1 2 no_wrap true true
    (fun buf => allreduce_sum 1
       [AreaConservationMeshForceCompute.local_area rank_A_local triangle_md false; buf]).

Definition two_ranks : list (ParticleData * MeshDefinition) :=
  [(rank_A, triangle_md); (rank_B, triangle_md)].

(** An execution configuration with error checking enabled, no device
    error, and a kernel that reports a triangle out of bounds. *)
Definition failing_kernel (pd : ParticleData) (md : MeshDefinition)
    (params : list Scalar2) (block_size : nat)
    (b : AreaConservationMeshForceComputeGPU.device_buffers)
    : AreaConservationMeshForceComputeGPU.device_buffers :=
  AreaConservationMeshForceComputeGPU.make_buffers
    (AreaConservationMeshForceComputeGPU.d_force b)
    (AreaConservationMeshForceComputeGPU.d_virial b) [1%Z].

Definition checking_ec : AreaConservationMeshForceComputeGPU.ExecutionConfiguration :=
  AreaConservationMeshForceComputeGPU.make_exec true (Ok tt) failing_kernel.

(** An execution configuration with error checking enabled whose check
    of the device error state fails, with a kernel that reports
    nothing: it leaves the buffers and the flags word as they are. *)
Definition silent_kernel (pd : ParticleData) (md : MeshDefinition)
    (params : list Scalar2) (block_size : nat)
    (b : AreaConservationMeshForceComputeGPU.device_buffers)
    : AreaConservationMeshForceComputeGPU.device_buffers := b.

Definition device_fault_ec
    : AreaConservationMeshForceComputeGPU.ExecutionConfiguration :=
  AreaConservationMeshForceComputeGPU.make_exec true (Raise "CUDA error")
    silent_kernel.

Definition gpu_object : AreaConservationMeshForceComputeGPU.t :=
  AreaConservationMeshForceComputeGPU.make (whole_10_half 3)
    [make_scalar2 10 (1 / 2)] [0%Z] false 32 [].

(** * Definitions for the statements *)

(** ** The force buffer *)

(** The force buffer after the three guarded blocks of one iteration. *)
Definition three_writes (N ia ib ic : nat) (Fab Fac : Scalar3) (e : Scalar)
    (hf : list Scalar4) : list Scalar4 :=
  let hf := if (ia <? N)%nat then force_add ia (Fab +v Fac) e hf else hf in
  let hf := if (ib <? N)%nat then force_sub ib Fab e hf else hf in
  if (ic <? N)%nat then force_sub ic Fac e hf else hf.

(** A guarded block for the vertex with local index [i] writes the slot
    [v]: the index is [v] and it is owned. *)
Definition hits (N i v : nat) : bool := (i =? v)%nat && (i <? N)%nat.

(** How often the slot [v] is written in the iteration of a triangle. *)
Definition owned_occurrences (pd : ParticleData) (t : members_t) (v : nat) : nat :=
  (if hits (getN pd) (idx_a pd t) v then 1 else 0)
  + (if hits (getN pd) (idx_b pd t) v then 1 else 0)
  + (if hits (getN pd) (idx_c pd t) v then 1 else 0).

(** The force part of a slot. *)
Definition force_of (F : Scalar4) : Scalar3 := make_scalar3 (x4 F) (y4 F) (z4 F).

(** The sum of the energies of a force buffer. *)
Definition total_energy (hf : list Scalar4) : Scalar := sum_R (map w4 hf).

(** No slot of a force buffer holds anything but zero. *)
Definition all_zero (hf : list Scalar4) : Prop :=
  forall i F, hf !! i = Some F -> F = zero4.

Definition ghost_force_zero (N : nat) (hf : list Scalar4) : Prop :=
  forall i F, hf !! i = Some F -> (N <= i)%nat -> F = zero4.

Definition ghost_virial_zero (N pitch : nat) (hv : list Scalar) : Prop :=
  forall k v, hv !! k = Some v -> (N <= k mod pitch)%nat -> v = 0.

(** A triangle has a vertex with local index [v]. *)
Definition touches (pd : ParticleData) (t : members_t) (v : nat) : Prop :=
  idx_a pd t = v \/ idx_b pd t = v \/ idx_c pd t = v.

Definition isolated (pd : ParticleData) (tri : members_t * nat)
    (others : list (members_t * nat)) : Prop :=
  forall tri', tri' ∈ others -> forall v, touches pd tri.1 v -> ~ touches pd tri'.1 v.

(** All three vertices of every triangle of the mesh are owned. *)
Definition all_owned (pd : ParticleData) (md : MeshDefinition) : Prop :=
  forall tri, tri ∈ h_triangles md ->
    (idx_a pd tri.1 < getN pd)%nat /\ (idx_b pd tri.1 < getN pd)%nat
    /\ (idx_c pd tri.1 < getN pd)%nat.

(** ** Areas and energies *)

(** The area of a triangle from the edge vectors of the force loops. *)
Definition force_area (pd : ParticleData) (t : members_t) : Scalar :=
  let g := angle_of (force_dab pd t) (force_dac pd t) in
  rab g * rac g * s_baac g / 2.

(** The number of triangles by which the whole-mesh variant divides the
    energy of a type: the per-type size of the mesh when the types are
    distinguished, the size of the mesh under single-type collapse. *)
Definition N_active (md : MeshDefinition) (ignore_type : bool)
    (tri : members_t * nat) : nat :=
  if ignore_type then getSize md else h_pts md !!! tri.2.

(** The energy that the whole-mesh variant gives to a vertex of a
    triangle, with the aggregate area [m_area] of the object. *)
Definition whole_mesh_vertex_energy (md : MeshDefinition)
    (o : AreaConservationMeshForceCompute.t) (tri : members_t * nat) : Scalar :=
  let ty := AreaConservationMeshForceCompute.triangle_type
              (AreaConservationMeshForceCompute.m_ignore_type o) tri in
  AreaConservationMeshForceCompute.m_K o !!! ty
  * (AreaConservationMeshForceCompute.m_area o !!! ty
     - AreaConservationMeshForceCompute.m_A0 o !!! ty) ^ 2
  / (6 * AreaConservationMeshForceCompute.m_A0 o !!! ty
     * INR (N_active md (AreaConservationMeshForceCompute.m_ignore_type o) tri)).

(** The same energy with the divisor that the specification names: one
    under single-type collapse. *)
Definition specified_N_active (md : MeshDefinition) (ignore_type : bool)
    (tri : members_t * nat) : nat :=
  if ignore_type then 1%nat else h_pts md !!! tri.2.

Definition specified_whole_mesh_vertex_energy (md : MeshDefinition)
    (o : AreaConservationMeshForceCompute.t) (tri : members_t * nat) : Scalar :=
  let ty := AreaConservationMeshForceCompute.triangle_type
              (AreaConservationMeshForceCompute.m_ignore_type o) tri in
  AreaConservationMeshForceCompute.m_K o !!! ty
  * (AreaConservationMeshForceCompute.m_area o !!! ty
     - AreaConservationMeshForceCompute.m_A0 o !!! ty) ^ 2
  / (6 * AreaConservationMeshForceCompute.m_A0 o !!! ty
     * INR (specified_N_active md (AreaConservationMeshForceCompute.m_ignore_type o) tri)).

(** The energy of one triangle in the whole-mesh variant: its share of
    the energy [K (area - A0)^2 / (2 A0)] of its type. *)
Definition whole_mesh_triangle_energy (md : MeshDefinition)
    (o : AreaConservationMeshForceCompute.t) (tri : members_t * nat) : Scalar :=
  let ty := AreaConservationMeshForceCompute.triangle_type
              (AreaConservationMeshForceCompute.m_ignore_type o) tri in
  AreaConservationMeshForceCompute.m_K o !!! ty
  * (AreaConservationMeshForceCompute.m_area o !!! ty
     - AreaConservationMeshForceCompute.m_A0 o !!! ty) ^ 2
  / (2 * AreaConservationMeshForceCompute.m_A0 o !!! ty
     * INR (N_active md (AreaConservationMeshForceCompute.m_ignore_type o) tri)).

(** The energy of a vertex and of the whole triangle in the per-triangle
    variant. *)
Definition per_triangle_vertex_energy (pd : ParticleData)
    (o : TriangleAreaConservationMeshForceCompute.t) (tri : members_t * nat)
    : Scalar :=
  TriangleAreaConservationMeshForceCompute.m_K o !!! tri.2
  / (6 * TriangleAreaConservationMeshForceCompute.m_A0 o !!! tri.2)
  * (force_area pd tri.1 - TriangleAreaConservationMeshForceCompute.m_A0 o !!! tri.2) ^ 2.

Definition per_triangle_energy (pd : ParticleData)
    (o : TriangleAreaConservationMeshForceCompute.t) (tri : members_t * nat)
    : Scalar :=
  TriangleAreaConservationMeshForceCompute.m_K o !!! tri.2
  / (2 * TriangleAreaConservationMeshForceCompute.m_A0 o !!! tri.2)
  * (force_area pd tri.1 - TriangleAreaConservationMeshForceCompute.m_A0 o !!! tri.2) ^ 2.

(** The per-type sums after the guarded additions of a third of a
    triangle's area for each owned vertex: the body of the area loop of a
    domain-decomposed run, and what the per-triangle force loop does to
    [global_area]. *)
Definition add_thirds (N ia ib ic : nat) (third : Scalar) (ty : nat)
    (g : list Scalar) : list Scalar :=
  let g := if (ia <? N)%nat then alter (fun u => u + third) ty g else g in
  let g := if (ib <? N)%nat then alter (fun u => u + third) ty g else g in
  if (ic <? N)%nat then alter (fun u => u + third) ty g else g.

(** The number of owned vertices of a triangle. *)
Definition owned_count (pd : ParticleData) (t : members_t) : nat :=
  (if (idx_a pd t <? getN pd)%nat then 1 else 0)
  + (if (idx_b pd t <? getN pd)%nat then 1 else 0)
  + (if (idx_c pd t <? getN pd)%nat then 1 else 0).

(** The sum of [f] over the triangles whose type, as [key] gives it, is
    [ty]. *)
Definition type_sum (key : members_t * nat -> nat) (f : members_t * nat -> Scalar)
    (ty : nat) (tris : list (members_t * nat)) : Scalar :=
  sum_R (map (fun tri => if decide (key tri = ty) then f tri else 0) tris).

(** ** Parameters and the accelerator path *)

(** The warnings that [setParams] sends for [K] and [A0], latest first. *)
Definition new_warnings (about_K about_A0 : string) (K A0 : Scalar) : list string :=
  (if Rle_dec A0 0 then [about_A0] else []) ++ (if Rle_dec K 0 then [about_K] else []).

Definition whole_stores_given_values (md : MeshDefinition)
    (o : AreaConservationMeshForceCompute.t) (type : nat) (K A0 : Scalar) : Prop :=
  exists o', AreaConservationMeshForceCompute.setParams o type K A0 = Ok o'
    /\ AreaConservationMeshForceCompute.getParams md o' type = Ok (K, A0).

(** The call that leads from [before] to [after] read the flags word back
    on the host: a [flags_read_back] is among the events that the call put
    before those of [before]. *)
Definition reads_flags_back
    (before after : AreaConservationMeshForceComputeGPU.t) : Prop :=
  exists (evs : list AreaConservationMeshForceComputeGPU.event) (word : Z),
    AreaConservationMeshForceComputeGPU.trace after
    = evs ++ AreaConservationMeshForceComputeGPU.trace before
    /\ AreaConservationMeshForceComputeGPU.flags_read_back word ∈ evs.

(** ** Sums of forces, and shifted positions *)

(** The sum of the forces of a force buffer. *)
Definition total_force (hf : list Scalar4) : Scalar3 :=
  make_scalar3 (sum_R (map x4 hf)) (sum_R (map y4 hf)) (sum_R (map z4 hf)).

(** The particle data with every position moved by the vector [d]; the
    fourth component of a position (the type) stays. *)
Definition translate (d : Scalar3) (pd : ParticleData) : ParticleData :=
  make_pdata
    (map (fun p => make_scalar4 (x4 p + x3 d) (y4 p + y3 d) (z4 p + z3 d) (w4 p))
         (h_pos pd))
    (h_rtag pd) (getN pd) (getNGhosts pd) (minImage pd) (compute_virial pd)
    (getDomainDecomposition pd) (MPI_Allreduce_SUM pd).

(** The contract that the [assert]s of the triangle loops check: the
    local index of every vertex of every triangle is that of a particle
    of the position array. *)
Definition vertices_in_range (pd : ParticleData) (md : MeshDefinition) : Prop :=
  forall tri, tri ∈ h_triangles md ->
    (idx_a pd tri.1 < length (h_pos pd))%nat
    /\ (idx_b pd tri.1 < length (h_pos pd))%nat
    /\ (idx_c pd tri.1 < length (h_pos pd))%nat.

(** No slot of a virial buffer holds anything but zero. *)
Definition virial_zero (hv : list Scalar) : Prop :=
  forall k v, hv !! k = Some v -> v = 0.

(** Every energy of a force buffer is non-negative. *)
Definition energies_nonneg (hf : list Scalar4) : Prop :=
  forall i F, hf !! i = Some F -> 0 <= w4 F.

(** A particle is a vertex of no triangle of the mesh. *)
Definition outside_mesh (pd : ParticleData) (md : MeshDefinition) (v : nat) : Prop :=
  forall tri, tri ∈ h_triangles md -> ~ touches pd tri.1 v.

(** The device copy of the parameters holds, for every type, the host
    parameters. *)
Definition params_in_sync (o : AreaConservationMeshForceComputeGPU.t) : Prop :=
  forall ty,
    (ty < length (AreaConservationMeshForceComputeGPU.m_params o))%nat ->
    AreaConservationMeshForceComputeGPU.m_params o !! ty
    = Some (make_scalar2
              (AreaConservationMeshForceCompute.m_K
                 (AreaConservationMeshForceComputeGPU.base o) !!! ty)
              (AreaConservationMeshForceCompute.m_A0
                 (AreaConservationMeshForceComputeGPU.base o) !!! ty)).

(** The events that a call put before those of [before], when the events
    of [after] end with those of [before]. *)
Definition events_of_call (before after : AreaConservationMeshForceComputeGPU.t)
    : list AreaConservationMeshForceComputeGPU.event :=
  take (length (AreaConservationMeshForceComputeGPU.trace after)
        - length (AreaConservationMeshForceComputeGPU.trace before))
       (AreaConservationMeshForceComputeGPU.trace after).

Definition is_kernel_launch (e : AreaConservationMeshForceComputeGPU.event) : bool :=
  match e with
  | AreaConservationMeshForceComputeGPU.kernel_launch _ => true
  | _ => false
  end.

(** The right triangle without the pressure-tensor flag. *)
Definition triangle_pd_no_virial : ParticleData :=
  make_pdata [particle 0 0 0; particle 1 0 0; particle 0 1 0]
             [0; 1; 2]%nat 3 0 no_wrap false false no_reduction.

(** The unit square with a fifth particle that is a vertex of no
    triangle. *)
Definition square_and_one_pd : ParticleData :=
  make_pdata [particle 0 0 0; particle 1 0 0; particle 0 1 0; particle 1 1 0;
              particle 5 5 5]
             [0; 1; 2; 3; 4]%nat 5 0 no_wrap true false no_reduction.

(** A device-side object for a mesh with two types, the device copy in
    sync with the host parameters. *)
Definition gpu_two_types : AreaConservationMeshForceComputeGPU.t :=
  AreaConservationMeshForceComputeGPU.make whole_two_types
    [make_scalar2 1 1; make_scalar2 1 1] [0%Z] true 64 [].

(** An execution configuration with error checking enabled whose check of
    the device error state fails. *)
Definition device_error_ec
    : AreaConservationMeshForceComputeGPU.ExecutionConfiguration :=
  AreaConservationMeshForceComputeGPU.make_exec true (Raise "CUDA error")
    failing_kernel.

(** ** Products of vectors (VectorMath.h) *)

(** [dot(a, b)] and [cross(a, b)]. *)
Definition dot (a b : Scalar3) : Scalar :=
  x3 a * x3 b + y3 a * y3 b + z3 a * z3 b.
Definition cross (a b : Scalar3) : Scalar3 :=
  make_scalar3 (y3 a * z3 b - z3 a * y3 b)
               (z3 a * x3 b - x3 a * z3 b)
               (x3 a * y3 b - y3 a * x3 b).

(** * The patch envelope of the anisotropic pair potential (SingleEnvelope.h)

    The class [SingleEnvelope] modulates an isotropic pair potential by the
    angles between the separation vector of a pair and the patch
    directions of its two particles.  Its members are the fields of the
    record [SingleEnvelope.t]; the constructor fills them, and [evaluate]
    writes its four output parameters, here a record.  [ShortReal] and
    [Scalar] are both exact reals here, and [vec3<Scalar>] and [Scalar3]
    are one type.  The members [qi], [qj], [ei] and [ej] are declared and
    never written nor read; they are not fields of the record. *)

(** [a - b] of [vec3]. *)
Definition vsub (a b : Scalar3) : Scalar3 :=
  make_scalar3 (x3 a - x3 b) (y3 a - y3 b) (z3 a - z3 b).
Infix "-v" := vsub (at level 50, left associativity) : vec_scope.

(** [fast::rsqrt]. *)
Definition rsqrt (x : Scalar) : Scalar := / sqrt x.

(** [rotmat3]: the three rows of the matrix, and the product [A * b] of a
    matrix and a vector (VectorMath.h). *)
Record rotmat3 : Type :=
  make_rotmat3 { row0 : Scalar3; row1 : Scalar3; row2 : Scalar3 }.
Definition rotate (A : rotmat3) (b : Scalar3) : Scalar3 :=
  make_scalar3 (dot (row0 A) b) (dot (row1 A) b) (dot (row2 A) b).

Module SingleEnvelope.

(** [param_type]. *)
Record param_type : Type := make_param_type { cosalpha : Scalar; omega : Scalar }.

(** [param_type(pybind11::dict params)], from the values of the
    dictionary under the keys [alpha] and [omega]. *)
Definition param_type_of_dict (alpha omega : Scalar) : param_type :=
  make_param_type (cos alpha) omega.

(** [param_type::toPython()]: the values under the keys [alpha] and
    [omega] of the dictionary that it returns. *)
Definition param_toPython (p : param_type) : Scalar * Scalar :=
  (acos (cosalpha p), omega p).

(** [shape_type]. *)
Record shape_type : Type := make_shape_type { m_n : Scalar3 }.

(** [shape_type(pybind11::object patch_location)], from the elements of
    the tuple. *)
Definition shape_type_of_tuple (patch_location : list Scalar) : result shape_type :=
  if negb (length patch_location =? 3)%nat then
    Raise "Each patch position must have 3 elements"
  else
    let n := make_scalar3 (patch_location !!! 0%nat) (patch_location !!! 1%nat)
                          (patch_location !!! 2%nat) in
    let n := n *v rsqrt (dot n n) in
    Ok (make_shape_type n).

(** [shape_type::toPython()]: the elements of the tuple. *)
Definition shape_toPython (s : shape_type) : list Scalar :=
  [x3 (m_n s); y3 (m_n s); z3 (m_n s)].

(** The members of the class. *)
Record t : Type := make {
  dr : Scalar3;
  R_i : rotmat3;
  R_j : rotmat3;
  ni_world : Scalar3;
  nj_world : Scalar3;
  params : param_type;
  n_i : Scalar3;
  n_j : Scalar3;
  a1 : Scalar3; a2 : Scalar3; a3 : Scalar3;
  b1 : Scalar3; b2 : Scalar3; b3 : Scalar3;
  drsq : Scalar;
  magdr : Scalar;
  rhat : Scalar3;
  exp_negOmega_times_CosThetaI_minus_CosAlpha : Scalar;
  exp_negOmega_times_CosThetaJ_minus_CosAlpha : Scalar
}.

(** The constructor.  The conversion of an orientation quaternion to a
    rotation matrix, [rotmat3<ShortReal>((quat<ShortReal>)q)], belongs to
    VectorMath.h, which is not among these files: it is the argument
    [to_rotmat3], of which the constructor assumes nothing.  [_rcutsq]
    is not read. *)
Definition construct (to_rotmat3 : Scalar4 -> rotmat3)
    (_dr : Scalar3) (_quat_i _quat_j : Scalar4) (_rcutsq : Scalar)
    (_params : param_type) (shape_i shape_j : shape_type) : t :=
  let R_i := to_rotmat3 _quat_i in
  let R_j := to_rotmat3 _quat_j in
  let n_i := m_n shape_i in
  let n_j := m_n shape_j in
  let ex := make_scalar3 1 0 0 in
  let ey := make_scalar3 0 1 0 in
  let ez := make_scalar3 0 0 1 in
  let a1 := rotate R_i ex in
  let a2 := rotate R_i ey in
  let a3 := rotate R_i ez in
  let ni_world := rotate R_i n_i in
  let b1 := rotate R_j ex in
  let b2 := rotate R_j ey in
  let b3 := rotate R_j ez in
  let nj_world := rotate R_j n_j in
  let drsq := dot _dr _dr in
  let magdr := sqrt drsq in
  let rhat := _dr /v magdr in
  let costhetai := - dot rhat ni_world in
  let costhetaj := dot rhat nj_world in
  make _dr R_i R_j ni_world nj_world _params n_i n_j a1 a2 a3 b1 b2 b3
       drsq magdr rhat
       (exp (- omega _params * (costhetai - cosalpha _params)))
       (exp (- omega _params * (costhetaj - cosalpha _params))).

(** [fi()] and [fj()]. *)
Definition fi (e : t) : Scalar :=
  1 / (1 + exp_negOmega_times_CosThetaI_minus_CosAlpha e).
Definition fj (e : t) : Scalar :=
  1 / (1 + exp_negOmega_times_CosThetaJ_minus_CosAlpha e).

(** [dfi_du(fi)] and [dfj_du(fj)]. *)
Definition dfi_du (e : t) (fi : Scalar) : Scalar :=
  - omega (params e) * exp_negOmega_times_CosThetaI_minus_CosAlpha e * fi * fi.
Definition dfj_du (e : t) (fj : Scalar) : Scalar :=
  omega (params e) * exp_negOmega_times_CosThetaJ_minus_CosAlpha e * fj * fj.

(** [ModulatorPrimei()] and [ModulatorPrimej()]. *)
Definition ModulatorPrimei (e : t) : Scalar :=
  let fact := fi e in
  omega (params e) * exp_negOmega_times_CosThetaI_minus_CosAlpha e * fact * fact.
Definition ModulatorPrimej (e : t) : Scalar :=
  let fact := fj e in
  omega (params e) * exp_negOmega_times_CosThetaJ_minus_CosAlpha e * fact * fact.

(** The four output parameters of [evaluate]. *)
Record evaluation : Type := make_evaluation {
  force : Scalar3;
  envelope : Scalar;
  torque_div_energy_i : Scalar3;
  torque_div_energy_j : Scalar3
}.

(** [evaluate(force, envelope, torque_div_energy_i, torque_div_energy_j)]:
    the value that it returns and what it leaves in its output
    parameters. *)
Definition evaluate (e : t) : bool * evaluation :=
  let modi := fi e in
  let modj := fj e in
  let envelope := (modi + modj) * 0.5 in
  let dfi_dni := dfi_du e modi *s rhat e in
  let torque_div_energy_i :=
    x3 (n_i e) *s cross (a1 e) dfi_dni
    +v y3 (n_i e) *s cross (a2 e) dfi_dni
    +v z3 (n_i e) *s cross (a3 e) dfi_dni in
  let torque_div_energy_i := torque_div_energy_i *v -0.5 in
  let dfj_dnj := dfj_du e modj *s rhat e in
  let torque_div_energy_j :=
    x3 (n_j e) *s cross (b1 e) dfj_dnj
    +v y3 (n_j e) *s cross (b2 e) dfj_dnj
    +v z3 (n_j e) *s cross (b3 e) dfj_dnj in
  let torque_div_energy_j := torque_div_energy_j *v -0.5 in
  let lo := magdr e in
  let dlo := rhat e in
  let dfi_dui := - dfi_du e modi in
  let hi := - dot (dr e) (ni_world e) in
  let dhi := -v ni_world e in
  let dui_dr := (lo *s dhi -v hi *s dlo) /v (lo * lo) in
  let dfj_duj := dfj_du e modj in
  let hi := dot (dr e) (nj_world e) in
  let dhi := nj_world e in
  let duj_dr := (lo *s dhi -v hi *s dlo) /v (lo * lo) in
  let force := -0.5 *s (dfj_duj *s duj_dr +v dfi_dui *s dui_dr) in
  (true, make_evaluation force envelope torque_div_energy_i torque_div_energy_j).

End SingleEnvelope.

(** ** Definitions for the statements about the envelope *)

(** The cosines of the angles between the separation and the two patch
    directions, as the constructor computes them. *)
Definition costhetai (e : SingleEnvelope.t) : Scalar :=
  - dot (SingleEnvelope.rhat e) (SingleEnvelope.ni_world e).
Definition costhetaj (e : SingleEnvelope.t) : Scalar :=
  dot (SingleEnvelope.rhat e) (SingleEnvelope.nj_world e).

(** The object [e] with the exponential of particle [i], or of particle
    [j], as the constructor computes it from the cosine [u]. *)
Definition at_costhetai (e : SingleEnvelope.t) (u : Scalar) : SingleEnvelope.t :=
  let p := SingleEnvelope.params e in
  SingleEnvelope.make
    (SingleEnvelope.dr e) (SingleEnvelope.R_i e) (SingleEnvelope.R_j e)
    (SingleEnvelope.ni_world e) (SingleEnvelope.nj_world e) p
    (SingleEnvelope.n_i e) (SingleEnvelope.n_j e)
    (SingleEnvelope.a1 e) (SingleEnvelope.a2 e) (SingleEnvelope.a3 e)
    (SingleEnvelope.b1 e) (SingleEnvelope.b2 e) (SingleEnvelope.b3 e)
    (SingleEnvelope.drsq e) (SingleEnvelope.magdr e) (SingleEnvelope.rhat e)
    (exp (- SingleEnvelope.omega p * (u - SingleEnvelope.cosalpha p)))
    (SingleEnvelope.exp_negOmega_times_CosThetaJ_minus_CosAlpha e).
Definition at_costhetaj (e : SingleEnvelope.t) (u : Scalar) : SingleEnvelope.t :=
  let p := SingleEnvelope.params e in
  SingleEnvelope.make
    (SingleEnvelope.dr e) (SingleEnvelope.R_i e) (SingleEnvelope.R_j e)
    (SingleEnvelope.ni_world e) (SingleEnvelope.nj_world e) p
    (SingleEnvelope.n_i e) (SingleEnvelope.n_j e)
    (SingleEnvelope.a1 e) (SingleEnvelope.a2 e) (SingleEnvelope.a3 e)
    (SingleEnvelope.b1 e) (SingleEnvelope.b2 e) (SingleEnvelope.b3 e)
    (SingleEnvelope.drsq e) (SingleEnvelope.magdr e) (SingleEnvelope.rhat e)
    (SingleEnvelope.exp_negOmega_times_CosThetaI_minus_CosAlpha e)
    (exp (- SingleEnvelope.omega p * (u - SingleEnvelope.cosalpha p))).

(** The force of [evaluate] as a function of the separation [d], the two
    patch directions, the length [m] of the separation and the two slopes
    [ci] and [cj]. *)
Definition envelope_force (d ni nj : Scalar3) (m ci cj : R) : Scalar3 :=
  -0.5 *s (cj *s ((m *s nj -v dot d nj *s (d /v m)) /v (m * m))
           +v ci *s ((m *s (-v ni) -v (- dot d ni) *s (d /v m)) /v (m * m))).

(** Concrete inputs: the identity matrix for every quaternion, a pair at
    distance 2 along [x], patches along [x] and [y]. *)
Definition identity_rotmat3 (q : Scalar4) : rotmat3 :=
  make_rotmat3 (make_scalar3 1 0 0) (make_scalar3 0 1 0) (make_scalar3 0 0 1).
Definition janus_pair : SingleEnvelope.t :=
  SingleEnvelope.construct identity_rotmat3 (make_scalar3 2 0 0)
    (make_scalar4 1 0 0 0) (make_scalar4 1 0 0 0) 9
    (SingleEnvelope.make_param_type 0 1)
    (SingleEnvelope.make_shape_type (make_scalar3 1 0 0))
    (SingleEnvelope.make_shape_type (make_scalar3 0 1 0)).

(** * The Python tuner (PythonTuner.cc)

    The class keeps the Python object [tuner] and the particle data flags
    that the object asks for.  [PDataFlags] is a [std::bitset] whose size
    is set in ParticleData.h, which is not among these files: the size is
    the argument [N] of the methods.  A bit set is an integer whose bit
    [i] is flag [i]. *)

Module PythonTuner.

(** What the methods read of the Python object: the elements of its
    attribute [flags], Python integers. *)
Record py_object : Type := make_py_object { flags : list Z }.

(** [flag.cast<size_t>()]: a Python integer that is no [size_t] raises
    pybind11's cast error. *)
Definition cast_size_t (flag : Z) : result Z :=
  if ((0 <=? flag) && (flag <? 2 ^ 64))%Z then Ok flag
  else Raise "pybind11::cast_error".

(** [std::bitset<N>::set(pos)]. *)
Definition bitset_set (N : Z) (bits : Z) (pos : Z) : result Z :=
  if (pos <? N)%Z then Ok (Z.setbit bits pos) else Raise "std::out_of_range".

(** The members of the class. *)
Record t : Type := make { m_tuner : py_object; m_flags : Z }.

(** One iteration of the loop of [setTuner] over the flags of the
    object; an exception ends the loop. *)
Definition set_flag (N : Z) (acc : result Z) (flag : Z) : result Z :=
  match acc with
  | Raise what => Raise what
  | Ok bits =>
      match cast_size_t flag with
      | Raise what => Raise what
      | Ok pos => bitset_set N bits pos
      end
  end.

(** [setTuner(tuner)]: the object after the call and the outcome of the
    call.  The member [m_tuner] is assigned before the loop, [m_flags]
    after it. *)
Definition setTuner (N : Z) (o : t) (tuner : py_object) : t * result unit :=
  let o := make tuner (m_flags o) in
  match foldl (set_flag N) (Ok 0%Z) (flags tuner) with
  | Raise what => (o, Raise what)
  | Ok flags => (make (m_tuner o) flags, Ok tt)
  end.

(** [getRequestedPDataFlags()]. *)
Definition getRequestedPDataFlags (o : t) : Z := m_flags o.

End PythonTuner.

(** A flag that [setTuner] can set in a bit set of size [N]. *)
Definition flag_in_range (N : Z) (flag : Z) : Prop := (0 <= flag < N)%Z.

(** A tuner object that asks for the flags 1 and 3, one of them twice. *)
Definition tuner_1_3 : PythonTuner.py_object :=
  PythonTuner.make_py_object [3; 1; 3]%Z.

(** A tuner object with a flag beyond a bit set of size 32. *)
Definition tuner_40 : PythonTuner.py_object :=
  PythonTuner.make_py_object [2; 40; 5]%Z.

(** * The virtual particle filler of the cosine channel
      (mpcd/CosineChannelFiller.cc)

    [drawParticles] places [m_N_fill] virtual particles in the last slots
    of the arrays of the MPCD particle data: one half below the lower
    wall of the channel, the other above the upper wall.  The random
    number generator and its distributions (RandomNumbers.h), the bit
    cast [__int_as_scalar] and the constant [NO_CELL] are not among these
    files: they are the fields of [FillerEnvironment], of which the
    method assumes nothing.  [unsigned int] arithmetic wraps at [2^32]. *)

Module CosineChannelFiller.

(** [unsigned int] from an integer. *)
Definition u32 (z : Z) : nat := Z.to_nat (z mod 2 ^ 32).

Record FillerEnvironment : Type := make_environment {
  (** the state of a [hoomd::RandomGenerator] *)
  RandomGenerator : Type;
  (** [RandomGenerator(RNGIdentifier::CosineChannelFiller, seed, tag, timestep)] *)
  seed_generator : nat -> nat -> nat -> RandomGenerator;
  (** [UniformDistribution<Scalar>(a, b)(rng)]: the value and the
      generator after the draw *)
  UniformDistribution : Scalar -> Scalar -> RandomGenerator -> Scalar * RandomGenerator;
  (** [NormalDistribution<Scalar> gen(sigma, mu)]: [gen(x, y, rng)] and
      [gen(rng)] *)
  NormalDistribution_two :
    Scalar -> Scalar -> RandomGenerator -> Scalar * Scalar * RandomGenerator;
  NormalDistribution_one : Scalar -> Scalar -> RandomGenerator -> Scalar * RandomGenerator;
  (** [__int_as_scalar] *)
  int_as_scalar : Z -> Scalar;
  (** [mpcd::detail::NO_CELL] *)
  NO_CELL : Z;
  (** [m_pdata->getBox()]: [getLo()] and [getHi()] *)
  getLo : Scalar3;
  getHi : Scalar3
}.

(** What the method reads and writes of [m_mpcd_pdata]. *)
Record ParticleData : Type := make_pdata {
  getPositions : list Scalar4;
  getVelocities : list Scalar4;
  getTags : list nat;
  getN : nat;
  getNVirtual : nat;
  getMass : Scalar
}.

(** The members of the filler that the method reads; [m_T] is the
    temperature variant, read by [getValue(timestep)]. *)
Record t : Type := make {
  m_thickness : Scalar;
  m_Amplitude : Scalar;
  m_pi_period_div_L : Scalar;
  m_H_narrow : Scalar;
  m_N_fill : nat;
  m_first_tag : nat;
  m_type : nat;
  m_seed : nat;
  m_T : nat -> Scalar
}.

(** What one iteration of the loop computes for the particle [i]: its
    tag, its position and its velocity. *)
Definition draw (env : FillerEnvironment) (o : t) (pd : ParticleData)
    (timestep : nat) (i : nat) : nat * Scalar4 * Scalar4 :=
  let lo := getLo env in
  let hi := getHi env in
  let N_half := (m_N_fill o / 2)%nat in
  let vel_factor := sqrt (m_T o timestep / getMass pd) in
  let tag := u32 (Z.of_nat (m_first_tag o) + Z.of_nat i) in
  let rng := seed_generator env (m_seed o) tag timestep in
  let sign : Z :=
    (Z.b2z (N_half <=? i)%nat - Z.b2z (i <? N_half)%nat)%Z in
  let (x, rng) := UniformDistribution env (x3 lo) (x3 hi) rng in
  let (y, rng) := UniformDistribution env (y3 lo) (y3 hi) rng in
  let (z, rng) := UniformDistribution env 0 (IZR sign * m_thickness o) rng in
  let z := z + (m_Amplitude o * cos (x * m_pi_period_div_L o)
                + IZR sign * m_H_narrow o) in
  let pos := make_scalar4 x y z (int_as_scalar env (Z.of_nat (m_type o))) in
  let '(vel_x, vel_y, rng) := NormalDistribution_two env vel_factor 0 rng in
  let (vel_z, rng) := NormalDistribution_one env vel_factor 0 rng in
  let vel := make_scalar4 vel_x vel_y vel_z (int_as_scalar env (NO_CELL env)) in
  (tag, pos, vel).

(** The index from which the method fills. *)
Definition first_idx (o : t) (pd : ParticleData) : nat :=
  u32 (Z.of_nat (getN pd) + Z.of_nat (getNVirtual pd) - Z.of_nat (m_N_fill o)).

(** One iteration of the loop: the three stores at [pidx].  (A store
    beyond the end of an array, undefined in the source, stores
    nothing.) *)
Definition draw_step (env : FillerEnvironment) (o : t) (pd0 : ParticleData)
    (timestep : nat) (pd : ParticleData) (i : nat) : ParticleData :=
  let '(tag, pos, vel) := draw env o pd0 timestep i in
  let pidx := u32 (Z.of_nat (first_idx o pd0) + Z.of_nat i) in
  make_pdata (<[pidx := pos]> (getPositions pd))
             (<[pidx := vel]> (getVelocities pd))
             (<[pidx := tag]> (getTags pd))
             (getN pd) (getNVirtual pd) (getMass pd).

(** [drawParticles(timestep)]. *)
Definition drawParticles (env : FillerEnvironment) (o : t) (pd : ParticleData)
    (timestep : nat) : ParticleData :=
  foldl (draw_step env o pd timestep) pd (seq 0 (m_N_fill o)).

End CosineChannelFiller.

(** ** Definitions for the statements about the filler *)

(** A uniform draw lies between the two bounds of its distribution. *)
Definition uniform_between_bounds (env : CosineChannelFiller.FillerEnvironment)
    : Prop :=
  forall a b g,
    Rmin a b <= (CosineChannelFiller.UniformDistribution env a b g).1 <= Rmax a b.

(** The arrays hold the owned and the virtual particles, the particles to
    fill are among the virtual ones, and no index or tag wraps. *)
Definition room_to_fill (o : CosineChannelFiller.t)
    (pd : CosineChannelFiller.ParticleData) : Prop :=
  let n := (CosineChannelFiller.getN pd + CosineChannelFiller.getNVirtual pd)%nat in
  (CosineChannelFiller.m_N_fill o <= CosineChannelFiller.getNVirtual pd)%nat
  /\ (n <= length (CosineChannelFiller.getPositions pd))%nat
  /\ (n <= length (CosineChannelFiller.getVelocities pd))%nat
  /\ (n <= length (CosineChannelFiller.getTags pd))%nat
  /\ (Z.of_nat n < 2 ^ 32)%Z
  /\ (Z.of_nat (CosineChannelFiller.m_first_tag o)
      + Z.of_nat (CosineChannelFiller.m_N_fill o) <= 2 ^ 32)%Z.

(** The height of a position above the centre line of the channel at its
    [x]: [z - A cos(x 2 pi p / L)]. *)
Definition height_in_channel (o : CosineChannelFiller.t) (p : Scalar4) : Scalar :=
  z4 p - CosineChannelFiller.m_Amplitude o
         * cos (x4 p * CosineChannelFiller.m_pi_period_div_L o).

(** Concrete inputs: distributions that return the mean of their bounds,
    a box of side 10, and a filler for three particles behind two owned
    ones. *)
Definition midpoint_environment : CosineChannelFiller.FillerEnvironment :=
  CosineChannelFiller.make_environment unit (fun _ _ _ => tt)
    (fun a b g => ((a + b) / 2, g)) (fun s m g => (m, m, g)) (fun s m g => (m, g))
    IZR 4294967295%Z (make_scalar3 (-5) (-5) (-5)) (make_scalar3 5 5 5).
Definition filler_of_three : CosineChannelFiller.t :=
  CosineChannelFiller.make 2 1 1 3 3 100 0 7 (fun _ => 1).
Definition mpcd_two_and_three : CosineChannelFiller.ParticleData :=
  CosineChannelFiller.make_pdata
    (replicate 5 zero4) (replicate 5 zero4) [0; 1; 0; 0; 0]%nat 2 3 1.

(** * Properties *)

(** ** Zeroed buffers and guarded writes *)

Lemma length_memset0 {A : Type} (zero : A) (buf : list A) :
  length (memset0 zero buf) = length buf.
Proof. apply length_replicate. Qed.

Lemma memset0_lookup {A : Type} (zero : A) (buf : list A) (i : nat) (a : A) :
  memset0 zero buf !! i = Some a -> a = zero.
Proof.
  unfold memset0. intros H. apply lookup_replicate in H. tauto.
Qed.

Lemma memset0_lookup_total (buf : list Scalar4) (v : nat) :
  memset0 zero4 buf !!! v = zero4.
Proof.
  unfold memset0. destruct (decide (v < length buf)%nat) as [Hv|Hv].
  - apply list_lookup_total_correct, lookup_replicate_2, Hv.
  - rewrite list_lookup_total_alt, lookup_ge_None_2;
      [reflexivity | rewrite length_replicate; lia].
Qed.

Lemma lookup_zero_slot {A : Type} (zero : A) (l : list A) (i : nat) :
  (i < length l)%nat -> (forall a, l !! i = Some a -> a = zero) -> l !! i = Some zero.
Proof.
  intros Hi Hz. destruct (lookup_lt_is_Some_2 l i Hi) as [a Ha].
  rewrite Ha. f_equal. apply Hz, Ha.
Qed.

Lemma length_three_writes N ia ib ic Fab Fac e hf :
  length (three_writes N ia ib ic Fab Fac e hf) = length hf.
Proof.
  unfold three_writes, force_add, force_sub.
  destruct (ia <? N)%nat, (ib <? N)%nat, (ic <? N)%nat;
    rewrite ?length_alter; reflexivity.
Qed.

Lemma hits_alter (N i v : nat) (f : Scalar4 -> Scalar4) (hf : list Scalar4) :
  (v < length hf)%nat ->
  (if (i <? N)%nat then alter f i hf else hf) !!! v
  = if hits N i v then f (hf !!! v) else hf !!! v.
Proof.
  intros Hv. unfold hits.
  destruct (Nat.ltb_spec i N); destruct (Nat.eqb_spec i v); simpl;
    try reflexivity; try (rewrite andb_false_r; reflexivity).
  - subst i. rewrite list_lookup_total_alter_eq by lia. reflexivity.
  - rewrite list_lookup_total_alter_ne by assumption. reflexivity.
Qed.

Lemma hits_self (N i : nat) : (i < N)%nat -> hits N i i = true.
Proof.
  intros Hi. unfold hits. rewrite Nat.eqb_refl.
  destruct (Nat.ltb_spec i N); [reflexivity | lia].
Qed.

Lemma hits_other (N i v : nat) : i <> v -> hits N i v = false.
Proof.
  intros Hi. unfold hits. destruct (Nat.eqb_spec i v); [contradiction | reflexivity].
Qed.

Lemma three_writes_lookup N ia ib ic Fab Fac e hf v :
  (v < length hf)%nat ->
  three_writes N ia ib ic Fab Fac e hf !!! v
  = let F := hf !!! v in
    let F := if hits N ia v
             then make_scalar4 (x4 F + x3 (Fab +v Fac)) (y4 F + y3 (Fab +v Fac))
                               (z4 F + z3 (Fab +v Fac)) (w4 F + e)
             else F in
    let F := if hits N ib v
             then make_scalar4 (x4 F - x3 Fab) (y4 F - y3 Fab) (z4 F - z3 Fab) (w4 F + e)
             else F in
    if hits N ic v
    then make_scalar4 (x4 F - x3 Fac) (y4 F - y3 Fac) (z4 F - z3 Fac) (w4 F + e)
    else F.
Proof.
  intros Hv. unfold three_writes, force_add, force_sub. cbv zeta.
  rewrite hits_alter.
  2:{ destruct (ib <? N)%nat, (ia <? N)%nat; rewrite ?length_alter; exact Hv. }
  rewrite hits_alter.
  2:{ destruct (ia <? N)%nat; rewrite ?length_alter; exact Hv. }
  rewrite hits_alter by exact Hv. reflexivity.
Qed.

Lemma three_writes_energy N ia ib ic Fab Fac e hf v :
  (v < length hf)%nat ->
  w4 (three_writes N ia ib ic Fab Fac e hf !!! v)
  = w4 (hf !!! v)
    + INR ((if hits N ia v then 1 else 0) + (if hits N ib v then 1 else 0)
           + (if hits N ic v then 1 else 0)) * e.
Proof.
  intros Hv. rewrite three_writes_lookup by exact Hv. cbv zeta.
  destruct (hits N ia v), (hits N ib v), (hits N ic v); simpl; lra.
Qed.

Lemma three_writes_frame N ia ib ic Fab Fac e hf v :
  ia <> v -> ib <> v -> ic <> v ->
  three_writes N ia ib ic Fab Fac e hf !!! v = hf !!! v.
Proof.
  intros Ha Hb Hc. unfold three_writes, force_add, force_sub.
  destruct (ia <? N)%nat, (ib <? N)%nat, (ic <? N)%nat;
    rewrite ?list_lookup_total_alter_ne by assumption; reflexivity.
Qed.

Lemma sum_R_alter_w (f : Scalar4 -> Scalar4) (d : Scalar) (hf : list Scalar4) (i : nat) :
  (i < length hf)%nat -> (forall F, w4 (f F) = w4 F + d) ->
  total_energy (alter f i hf) = total_energy hf + d.
Proof.
  unfold total_energy. intros Hi Hf. revert i Hi.
  induction hf as [|F hf IH]; intros i Hi; simpl in Hi; [lia|].
  destruct i as [|i]; simpl.
  - rewrite Hf. lra.
  - change (list_alter f i hf) with (alter f i hf).
    rewrite IH by lia. lra.
Qed.

Lemma three_writes_total_energy N ia ib ic Fab Fac e hf :
  (N <= length hf)%nat ->
  total_energy (three_writes N ia ib ic Fab Fac e hf)
  = total_energy hf
    + INR ((if (ia <? N)%nat then 1 else 0) + (if (ib <? N)%nat then 1 else 0)
           + (if (ic <? N)%nat then 1 else 0)) * e.
Proof.
  intros HN. unfold three_writes, force_add, force_sub.
  destruct (Nat.ltb_spec ia N), (Nat.ltb_spec ib N), (Nat.ltb_spec ic N);
    repeat (rewrite (sum_R_alter_w _ e);
            [| rewrite ?length_alter; lia | intros F; reflexivity]);
    simpl; lra.
Qed.

(** The three slots of a triangle with three distinct owned vertices,
    written on a zeroed buffer. *)
Lemma three_writes_on_zero N ia ib ic Fab Fac e hf :
  (ia < N)%nat -> (ib < N)%nat -> (ic < N)%nat ->
  ia <> ib -> ia <> ic -> ib <> ic ->
  (N <= length hf)%nat ->
  hf !!! ia = zero4 -> hf !!! ib = zero4 -> hf !!! ic = zero4 ->
  let hf' := three_writes N ia ib ic Fab Fac e hf in
  force_of (hf' !!! ia) = Fab +v Fac
  /\ force_of (hf' !!! ib) = -v Fab
  /\ force_of (hf' !!! ic) = -v Fac
  /\ w4 (hf' !!! ia) = e /\ w4 (hf' !!! ib) = e /\ w4 (hf' !!! ic) = e.
Proof.
  intros Ha Hb Hc Hab Hac Hbc HN Za Zb Zc hf'. subst hf'.
  rewrite !three_writes_lookup by lia. cbv zeta.
  rewrite Za, Zb, Zc, !hits_self by assumption.
  rewrite (hits_other N ib ia), (hits_other N ic ia), (hits_other N ia ib),
    (hits_other N ic ib), (hits_other N ia ic), (hits_other N ib ic) by auto.
  unfold force_of, vadd, vneg. cbn.
  repeat split; try (f_equal; lra); lra.
Qed.

Lemma length_virial_add pitch idx v hv :
  length (virial_add pitch idx v hv) = length hv.
Proof.
  unfold virial_add. generalize (seq 0 6). intros js. revert hv.
  induction js as [|j js IH]; intros hv; simpl; [reflexivity|].
  rewrite IH. apply length_alter.
Qed.

(** ** The force buffer after an iteration and after the loop *)

Lemma whole_step_force pd md o ls tri :
  AreaConservationMeshForceCompute.h_force
    (AreaConservationMeshForceCompute.force_step pd md o ls tri)
  = three_writes (getN pd) (idx_a pd tri.1) (idx_b pd tri.1) (idx_c pd tri.1)
      (AreaConservationMeshForceCompute.Fab pd o tri)
      (AreaConservationMeshForceCompute.Fac pd o tri)
      (AreaConservationMeshForceCompute.energy_of md o ls tri)
      (AreaConservationMeshForceCompute.h_force ls).
Proof.
  unfold AreaConservationMeshForceCompute.force_step, three_writes.
  destruct (idx_a pd tri.1 <? getN pd)%nat, (idx_b pd tri.1 <? getN pd)%nat,
    (idx_c pd tri.1 <? getN pd)%nat; reflexivity.
Qed.

Lemma per_triangle_step_force pd o ls tri :
  TriangleAreaConservationMeshForceCompute.h_force
    (TriangleAreaConservationMeshForceCompute.force_step pd o ls tri)
  = three_writes (getN pd) (idx_a pd tri.1) (idx_b pd tri.1) (idx_c pd tri.1)
      (TriangleAreaConservationMeshForceCompute.Fab pd o tri)
      (TriangleAreaConservationMeshForceCompute.Fac pd o tri)
      (TriangleAreaConservationMeshForceCompute.energy_of pd o tri)
      (TriangleAreaConservationMeshForceCompute.h_force ls).
Proof.
  unfold TriangleAreaConservationMeshForceCompute.force_step, three_writes.
  destruct (idx_a pd tri.1 <? getN pd)%nat, (idx_b pd tri.1 <? getN pd)%nat,
    (idx_c pd tri.1 <? getN pd)%nat; reflexivity.
Qed.

Lemma whole_loop_length pd md o tris ls :
  length (AreaConservationMeshForceCompute.h_force
            (foldl (AreaConservationMeshForceCompute.force_step pd md o) ls tris))
  = length (AreaConservationMeshForceCompute.h_force ls).
Proof.
  revert ls. induction tris as [|tri tris IH]; intros ls; simpl; [reflexivity|].
  rewrite IH, whole_step_force. apply length_three_writes.
Qed.

Lemma per_triangle_loop_length pd o tris ls :
  length (TriangleAreaConservationMeshForceCompute.h_force
            (foldl (TriangleAreaConservationMeshForceCompute.force_step pd o) ls tris))
  = length (TriangleAreaConservationMeshForceCompute.h_force ls).
Proof.
  revert ls. induction tris as [|tri tris IH]; intros ls; simpl; [reflexivity|].
  rewrite IH, per_triangle_step_force. apply length_three_writes.
Qed.

Lemma whole_loop_over_length pd md o tris :
  length (AreaConservationMeshForceCompute.h_force
            (AreaConservationMeshForceCompute.loop_over pd md o tris))
  = length (AreaConservationMeshForceCompute.m_force o).
Proof.
  unfold AreaConservationMeshForceCompute.loop_over.
  rewrite whole_loop_length. apply length_memset0.
Qed.

Lemma per_triangle_loop_over_length pd md o tris :
  length (TriangleAreaConservationMeshForceCompute.h_force
            (TriangleAreaConservationMeshForceCompute.loop_over pd md o tris))
  = length (TriangleAreaConservationMeshForceCompute.m_force o).
Proof.
  unfold TriangleAreaConservationMeshForceCompute.loop_over.
  rewrite per_triangle_loop_length. apply length_memset0.
Qed.

Lemma whole_loop_virial_length pd md o tris ls :
  length (AreaConservationMeshForceCompute.h_virial
            (foldl (AreaConservationMeshForceCompute.force_step pd md o) ls tris))
  = length (AreaConservationMeshForceCompute.h_virial ls).
Proof.
  revert ls. induction tris as [|tri tris IH]; intros ls; simpl; [reflexivity|].
  rewrite IH. unfold AreaConservationMeshForceCompute.force_step.
  destruct (idx_a pd tri.1 <? getN pd)%nat, (idx_b pd tri.1 <? getN pd)%nat,
    (idx_c pd tri.1 <? getN pd)%nat;
    cbn [AreaConservationMeshForceCompute.h_virial];
    rewrite ?length_virial_add; reflexivity.
Qed.

Lemma per_triangle_loop_virial_length pd o tris ls :
  length (TriangleAreaConservationMeshForceCompute.h_virial
            (foldl (TriangleAreaConservationMeshForceCompute.force_step pd o) ls tris))
  = length (TriangleAreaConservationMeshForceCompute.h_virial ls).
Proof.
  revert ls. induction tris as [|tri tris IH]; intros ls; simpl; [reflexivity|].
  rewrite IH. unfold TriangleAreaConservationMeshForceCompute.force_step.
  destruct (idx_a pd tri.1 <? getN pd)%nat, (idx_b pd tri.1 <? getN pd)%nat,
    (idx_c pd tri.1 <? getN pd)%nat;
    cbn [TriangleAreaConservationMeshForceCompute.h_virial];
    rewrite ?length_virial_add; reflexivity.
Qed.

Lemma whole_loop_frame pd md o tris ls v :
  (forall tri', tri' ∈ tris -> ~ touches pd tri'.1 v) ->
  AreaConservationMeshForceCompute.h_force
    (foldl (AreaConservationMeshForceCompute.force_step pd md o) ls tris) !!! v
  = AreaConservationMeshForceCompute.h_force ls !!! v.
Proof.
  revert ls. induction tris as [|tri tris IH]; intros ls Hno; simpl; [reflexivity|].
  rewrite IH by (intros tri' Hin; apply Hno; right; exact Hin).
  rewrite whole_step_force.
  assert (Ht : ~ touches pd tri.1 v) by (apply Hno; left).
  unfold touches in Ht. apply three_writes_frame; tauto.
Qed.

Lemma per_triangle_loop_frame pd o tris ls v :
  (forall tri', tri' ∈ tris -> ~ touches pd tri'.1 v) ->
  TriangleAreaConservationMeshForceCompute.h_force
    (foldl (TriangleAreaConservationMeshForceCompute.force_step pd o) ls tris) !!! v
  = TriangleAreaConservationMeshForceCompute.h_force ls !!! v.
Proof.
  revert ls. induction tris as [|tri tris IH]; intros ls Hno; simpl; [reflexivity|].
  rewrite IH by (intros tri' Hin; apply Hno; right; exact Hin).
  rewrite per_triangle_step_force.
  assert (Ht : ~ touches pd tri.1 v) by (apply Hno; left).
  unfold touches in Ht. apply three_writes_frame; tauto.
Qed.

(** ** Ghost slots *)

Lemma ghost_force_zero_memset (N : nat) (buf : list Scalar4) :
  ghost_force_zero N (memset0 zero4 buf).
Proof. intros i F H _. exact (memset0_lookup _ _ _ _ H). Qed.

Lemma ghost_virial_zero_memset (N pitch : nat) (buf : list Scalar) :
  ghost_virial_zero N pitch (memset0 0 buf).
Proof. intros k v H _. exact (memset0_lookup _ _ _ _ H). Qed.

Lemma ghost_force_zero_alter (N idx : nat) (f : Scalar4 -> Scalar4) hf :
  (idx < N)%nat -> ghost_force_zero N hf -> ghost_force_zero N (alter f idx hf).
Proof.
  intros Hidx Hz i F Hi HN.
  rewrite list_lookup_alter_ne in Hi by lia. eauto.
Qed.

Lemma slot_mod (pitch j idx : nat) : ((j * pitch + idx) mod pitch <= idx)%nat.
Proof.
  destruct pitch as [|p].
  - rewrite Nat.mul_0_r. simpl. lia.
  - rewrite Nat.add_comm, Nat.Div0.mod_add. apply Nat.Div0.mod_le.
Qed.

Lemma ghost_virial_zero_add (N pitch idx : nat) (v : list Scalar) hv :
  (idx < N)%nat -> ghost_virial_zero N pitch hv ->
  ghost_virial_zero N pitch (virial_add pitch idx v hv).
Proof.
  intros Hidx. unfold virial_add. generalize (seq 0 6). intros js. revert hv.
  induction js as [|j js IH]; intros hv Hz; simpl; [exact Hz|].
  apply IH. intros k u Hk HN.
  rewrite list_lookup_alter_ne in Hk; [eauto|].
  intros E; subst k. pose proof (slot_mod pitch j idx). lia.
Qed.

Lemma whole_step_ghost pd md o ls tri :
  ghost_force_zero (getN pd) (AreaConservationMeshForceCompute.h_force ls) ->
  ghost_virial_zero (getN pd) (AreaConservationMeshForceCompute.virial_pitch o) (AreaConservationMeshForceCompute.h_virial ls) ->
  ghost_force_zero (getN pd) (AreaConservationMeshForceCompute.h_force (AreaConservationMeshForceCompute.force_step pd md o ls tri))
  /\ ghost_virial_zero (getN pd) (AreaConservationMeshForceCompute.virial_pitch o)
       (AreaConservationMeshForceCompute.h_virial (AreaConservationMeshForceCompute.force_step pd md o ls tri)).
Proof.
  intros Hf Hv. unfold AreaConservationMeshForceCompute.force_step.
  destruct (Nat.ltb_spec (idx_a pd tri.1) (getN pd));
  destruct (Nat.ltb_spec (idx_b pd tri.1) (getN pd));
  destruct (Nat.ltb_spec (idx_c pd tri.1) (getN pd)); cbn [AreaConservationMeshForceCompute.h_force AreaConservationMeshForceCompute.h_virial];
  unfold force_add, force_sub; split;
  repeat first [ apply ghost_force_zero_alter | apply ghost_virial_zero_add ];
  assumption.
Qed.

Lemma whole_loop_ghost pd md o tris ls :
  ghost_force_zero (getN pd) (AreaConservationMeshForceCompute.h_force ls) ->
  ghost_virial_zero (getN pd) (AreaConservationMeshForceCompute.virial_pitch o) (AreaConservationMeshForceCompute.h_virial ls) ->
  ghost_force_zero (getN pd) (AreaConservationMeshForceCompute.h_force (foldl (AreaConservationMeshForceCompute.force_step pd md o) ls tris))
  /\ ghost_virial_zero (getN pd) (AreaConservationMeshForceCompute.virial_pitch o)
       (AreaConservationMeshForceCompute.h_virial (foldl (AreaConservationMeshForceCompute.force_step pd md o) ls tris)).
Proof.
  revert ls. induction tris as [|tri tris IH]; intros ls Hf Hv; simpl; [tauto|].
  destruct (whole_step_ghost pd md o ls tri Hf Hv). apply IH; assumption.
Qed.

Lemma per_triangle_step_ghost pd o ls tri :
  ghost_force_zero (getN pd) (TriangleAreaConservationMeshForceCompute.h_force ls) ->
  ghost_virial_zero (getN pd) (TriangleAreaConservationMeshForceCompute.virial_pitch o) (TriangleAreaConservationMeshForceCompute.h_virial ls) ->
  ghost_force_zero (getN pd) (TriangleAreaConservationMeshForceCompute.h_force (TriangleAreaConservationMeshForceCompute.force_step pd o ls tri))
  /\ ghost_virial_zero (getN pd) (TriangleAreaConservationMeshForceCompute.virial_pitch o)
       (TriangleAreaConservationMeshForceCompute.h_virial (TriangleAreaConservationMeshForceCompute.force_step pd o ls tri)).
Proof.
  intros Hf Hv. unfold TriangleAreaConservationMeshForceCompute.force_step.
  destruct (Nat.ltb_spec (idx_a pd tri.1) (getN pd));
  destruct (Nat.ltb_spec (idx_b pd tri.1) (getN pd));
  destruct (Nat.ltb_spec (idx_c pd tri.1) (getN pd)); cbn [TriangleAreaConservationMeshForceCompute.h_force TriangleAreaConservationMeshForceCompute.h_virial];
  unfold force_add, force_sub; split;
  repeat first [ apply ghost_force_zero_alter | apply ghost_virial_zero_add ];
  assumption.
Qed.

Lemma per_triangle_loop_ghost pd o tris ls :
  ghost_force_zero (getN pd) (TriangleAreaConservationMeshForceCompute.h_force ls) ->
  ghost_virial_zero (getN pd) (TriangleAreaConservationMeshForceCompute.virial_pitch o) (TriangleAreaConservationMeshForceCompute.h_virial ls) ->
  ghost_force_zero (getN pd) (TriangleAreaConservationMeshForceCompute.h_force (foldl (TriangleAreaConservationMeshForceCompute.force_step pd o) ls tris))
  /\ ghost_virial_zero (getN pd) (TriangleAreaConservationMeshForceCompute.virial_pitch o)
       (TriangleAreaConservationMeshForceCompute.h_virial (foldl (TriangleAreaConservationMeshForceCompute.force_step pd o) ls tris)).
Proof.
  revert ls. induction tris as [|tri tris IH]; intros ls Hf Hv; simpl; [tauto|].
  destruct (per_triangle_step_ghost pd o ls tri Hf Hv). apply IH; assumption.
Qed.

(** C5.  After [computeForces], in the whole-mesh and in the per-triangle
    variant, every slot of the force and energy buffer whose local index
    [i] is at least the owned count holds zero in all four components,
    and so does every virial slot [j * virial_pitch + i] of such a
    particle: the buffers are zeroed first and every later write is to
    the slot of an owned index. *)
Theorem ghost_slots_stay_zero (pd : ParticleData) (md : MeshDefinition) (i j : nat) :
  (getN pd <= i)%nat ->
  (forall o : AreaConservationMeshForceCompute.t,
      let o' := AreaConservationMeshForceCompute.computeForces pd md o in
      ((i < length (AreaConservationMeshForceCompute.m_force o))%nat ->
       AreaConservationMeshForceCompute.m_force o' !! i = Some zero4)
      /\ ((i < AreaConservationMeshForceCompute.virial_pitch o)%nat ->
          (j * AreaConservationMeshForceCompute.virial_pitch o + i
           < length (AreaConservationMeshForceCompute.m_virial o))%nat ->
          AreaConservationMeshForceCompute.m_virial o'
            !! (j * AreaConservationMeshForceCompute.virial_pitch o + i)%nat = Some 0))
  /\ (forall o : TriangleAreaConservationMeshForceCompute.t,
      let o' := TriangleAreaConservationMeshForceCompute.computeForces pd md o in
      ((i < length (TriangleAreaConservationMeshForceCompute.m_force o))%nat ->
       TriangleAreaConservationMeshForceCompute.m_force o' !! i = Some zero4)
      /\ ((i < TriangleAreaConservationMeshForceCompute.virial_pitch o)%nat ->
          (j * TriangleAreaConservationMeshForceCompute.virial_pitch o + i
           < length (TriangleAreaConservationMeshForceCompute.m_virial o))%nat ->
          TriangleAreaConservationMeshForceCompute.m_virial o'
            !! (j * TriangleAreaConservationMeshForceCompute.virial_pitch o + i)%nat
          = Some 0)).
Proof.
  intros Hi. split; intros o o'.
  - destruct (whole_loop_ghost pd md
                (AreaConservationMeshForceCompute.precomputeParameter pd md o)
                (h_triangles md)
                (AreaConservationMeshForceCompute.loop_init md
                   (AreaConservationMeshForceCompute.precomputeParameter pd md o)))
      as [Hf Hv]; [apply ghost_force_zero_memset | apply ghost_virial_zero_memset |].
    split.
    + intros Hlen. apply lookup_zero_slot.
      * subst o'. unfold AreaConservationMeshForceCompute.computeForces.
        cbn [AreaConservationMeshForceCompute.set_buffers
             AreaConservationMeshForceCompute.m_force].
        rewrite whole_loop_over_length. exact Hlen.
      * intros F HF. exact (Hf i F HF Hi).
    + intros Hp Hlen. apply lookup_zero_slot.
      * subst o'. unfold AreaConservationMeshForceCompute.computeForces,
          AreaConservationMeshForceCompute.loop_over.
        cbn [AreaConservationMeshForceCompute.set_buffers
             AreaConservationMeshForceCompute.m_virial].
        rewrite whole_loop_virial_length.
        cbn [AreaConservationMeshForceCompute.loop_init
             AreaConservationMeshForceCompute.h_virial].
        rewrite length_memset0. exact Hlen.
      * intros v Hv'. apply (Hv _ _ Hv').
        cbn [AreaConservationMeshForceCompute.precomputeParameter
             AreaConservationMeshForceCompute.set_area
             AreaConservationMeshForceCompute.virial_pitch].
        rewrite Nat.add_comm, Nat.Div0.mod_add, Nat.mod_small by lia. lia.
  - destruct (per_triangle_loop_ghost pd o (h_triangles md)
                (TriangleAreaConservationMeshForceCompute.loop_init md o))
      as [Hf Hv]; [apply ghost_force_zero_memset | apply ghost_virial_zero_memset |].
    split.
    + intros Hlen. apply lookup_zero_slot.
      * subst o'. unfold TriangleAreaConservationMeshForceCompute.computeForces.
        cbn [TriangleAreaConservationMeshForceCompute.m_force].
        rewrite per_triangle_loop_over_length. exact Hlen.
      * intros F HF. exact (Hf i F HF Hi).
    + intros Hp Hlen. apply lookup_zero_slot.
      * subst o'. unfold TriangleAreaConservationMeshForceCompute.computeForces,
          TriangleAreaConservationMeshForceCompute.loop_over.
        cbn [TriangleAreaConservationMeshForceCompute.m_virial].
        rewrite per_triangle_loop_virial_length.
        cbn [TriangleAreaConservationMeshForceCompute.loop_init
             TriangleAreaConservationMeshForceCompute.h_virial].
        rewrite length_memset0. exact Hlen.
      * intros v Hv'. apply (Hv _ _ Hv').
        rewrite Nat.add_comm, Nat.Div0.mod_add, Nat.mod_small by lia. lia.
Qed.

Lemma ghost_slots_stay_zero_witness :
  (AreaConservationMeshForceCompute.m_force
     (AreaConservationMeshForceCompute.computeForces ghost_pd triangle_md
        (whole_10_half 3)) !! 2%nat = Some zero4
   /\ AreaConservationMeshForceCompute.m_virial
        (AreaConservationMeshForceCompute.computeForces ghost_pd triangle_md
           (whole_10_half 3)) !! (5 * 3 + 2)%nat = Some 0)
  /\ (TriangleAreaConservationMeshForceCompute.m_force
        (TriangleAreaConservationMeshForceCompute.computeForces ghost_pd triangle_md
           (per_triangle_10_04 3)) !! 2%nat = Some zero4
      /\ TriangleAreaConservationMeshForceCompute.m_virial
           (TriangleAreaConservationMeshForceCompute.computeForces ghost_pd triangle_md
              (per_triangle_10_04 3)) !! (5 * 3 + 2)%nat = Some 0).
Proof.
  assert (HN : (getN ghost_pd <= 2)%nat) by (simpl; lia).
  destruct (ghost_slots_stay_zero ghost_pd triangle_md 2 5 HN) as [Hw Ht].
  split.
  - destruct (Hw (whole_10_half 3)) as [Hf Hv].
    split; [apply Hf | apply Hv]; simpl; lia.
  - destruct (Ht (per_triangle_10_04 3)) as [Hf Hv].
    split; [apply Hf | apply Hv]; simpl; lia.
Defined.

(** ** The energy of a vertex *)

(** Under single-type collapse [triN] keeps the value it has before the
    loop. *)
Lemma whole_loop_triN pd md o tris ls :
  AreaConservationMeshForceCompute.m_ignore_type o = true ->
  AreaConservationMeshForceCompute.triN
    (foldl (AreaConservationMeshForceCompute.force_step pd md o) ls tris)
  = AreaConservationMeshForceCompute.triN ls.
Proof.
  intros Hig. revert ls. induction tris as [|tri tris IH]; intros ls; simpl;
    [reflexivity|].
  rewrite IH. unfold AreaConservationMeshForceCompute.force_step.
  destruct (idx_a pd tri.1 <? getN pd)%nat, (idx_b pd tri.1 <? getN pd)%nat,
    (idx_c pd tri.1 <? getN pd)%nat;
    cbn [AreaConservationMeshForceCompute.triN];
    unfold AreaConservationMeshForceCompute.triN_of; rewrite Hig; reflexivity.
Qed.

Lemma whole_triN_of pd md o tris tri :
  AreaConservationMeshForceCompute.triN_of md o
    (AreaConservationMeshForceCompute.loop_over pd md o tris) tri
  = N_active md (AreaConservationMeshForceCompute.m_ignore_type o) tri.
Proof.
  unfold AreaConservationMeshForceCompute.triN_of, N_active,
    AreaConservationMeshForceCompute.loop_over.
  destruct (AreaConservationMeshForceCompute.m_ignore_type o) eqn:Hig; [|reflexivity].
  rewrite whole_loop_triN by exact Hig. reflexivity.
Qed.

Lemma whole_energy_of pd md o tris tri :
  AreaConservationMeshForceCompute.energy_of md o
    (AreaConservationMeshForceCompute.loop_over pd md o tris) tri
  = whole_mesh_vertex_energy md o tri.
Proof.
  unfold AreaConservationMeshForceCompute.energy_of, whole_mesh_vertex_energy.
  cbv zeta. rewrite whole_triN_of. unfold Rdiv. ring.
Qed.

Lemma three_tri_area pd tri :
  3 * TriangleAreaConservationMeshForceCompute.tri_area pd tri = force_area pd tri.1.
Proof.
  unfold TriangleAreaConservationMeshForceCompute.tri_area, force_area. cbv zeta. lra.
Qed.

Lemma per_triangle_energy_of pd o tri :
  TriangleAreaConservationMeshForceCompute.energy_of pd o tri
  = per_triangle_vertex_energy pd o tri.
Proof.
  unfold TriangleAreaConservationMeshForceCompute.energy_of,
    per_triangle_vertex_energy, TriangleAreaConservationMeshForceCompute.Ut.
  rewrite three_tri_area. unfold Rdiv. ring.
Qed.

Lemma three_vertex_energies (K A0 d : Scalar) :
  INR 3 * (K / (6 * A0) * d ^ 2) = K / (2 * A0) * d ^ 2.
Proof.
  unfold Rdiv. rewrite !Rinv_mult. simpl INR.
  generalize (/ A0). intros iA. field.
Qed.

Lemma three_whole_vertex_energies (K A0 d n : Scalar) :
  INR 3 * (K * d ^ 2 / (6 * A0 * n)) = K * d ^ 2 / (2 * A0 * n).
Proof.
  unfold Rdiv. rewrite !Rinv_mult. simpl INR.
  generalize (/ A0), (/ n). intros iA iN. field.
Qed.

Lemma per_triangle_energy_split pd o tri :
  INR 3 * per_triangle_vertex_energy pd o tri = per_triangle_energy pd o tri.
Proof. apply three_vertex_energies. Qed.

Lemma whole_mesh_energy_split md o tri :
  INR 3 * whole_mesh_vertex_energy md o tri = whole_mesh_triangle_energy md o tri.
Proof. apply three_whole_vertex_energies. Qed.

Lemma all_owned_count (N ia ib ic : nat) :
  (ia < N)%nat -> (ib < N)%nat -> (ic < N)%nat ->
  ((if (ia <? N)%nat then 1 else 0) + (if (ib <? N)%nat then 1 else 0)
   + (if (ic <? N)%nat then 1 else 0) = 3)%nat.
Proof.
  intros Ha Hb Hc.
  destruct (Nat.ltb_spec ia N), (Nat.ltb_spec ib N), (Nat.ltb_spec ic N); lia.
Qed.

Lemma whole_step_energy pd md o pre tri v :
  (v < length (AreaConservationMeshForceCompute.m_force o))%nat ->
  let before := AreaConservationMeshForceCompute.loop_over pd md o pre in
  let after := AreaConservationMeshForceCompute.force_step pd md o before tri in
  w4 (AreaConservationMeshForceCompute.h_force after !!! v)
  = w4 (AreaConservationMeshForceCompute.h_force before !!! v)
    + INR (owned_occurrences pd tri.1 v) * whole_mesh_vertex_energy md o tri.
Proof.
  intros Hv before after. subst after. rewrite whole_step_force.
  rewrite three_writes_energy.
  - subst before. rewrite whole_energy_of. reflexivity.
  - subst before. unfold AreaConservationMeshForceCompute.loop_over.
    rewrite whole_loop_length. cbn. rewrite length_memset0. exact Hv.
Qed.

(** ** The areas of the concrete inputs *)

Lemma clamp_cos_id (c : R) : -1 <= c <= 1 -> clamp_cos c = c.
Proof.
  intros Hc. unfold clamp_cos.
  destruct (Rgt_dec c 1); [lra|]. destruct (Rlt_dec c (-1)); [lra|]. reflexivity.
Qed.

Lemma angle_of_orthonormal (dab dac : Scalar3) :
  x3 dab * x3 dab + y3 dab * y3 dab + z3 dab * z3 dab = 1 ->
  x3 dac * x3 dac + y3 dac * y3 dac + z3 dac * z3 dac = 1 ->
  x3 dab * x3 dac + y3 dab * y3 dac + z3 dab * z3 dac = 0 ->
  rab (angle_of dab dac) = 1 /\ rac (angle_of dab dac) = 1
  /\ s_baac (angle_of dab dac) = 1.
Proof.
  intros Hab Hac Hdot. unfold angle_of. cbn [rab rac s_baac].
  rewrite Hab, Hac, sqrt_1. cbn [vdiv x3 y3 z3].
  replace (x3 dab / 1 * (x3 dac / 1) + y3 dab / 1 * (y3 dac / 1)
           + z3 dab / 1 * (z3 dac / 1)) with 0 by (rewrite <- Hdot; field).
  rewrite clamp_cos_id by lra.
  replace (1 - 0 * 0) with 1 by lra. rewrite sqrt_1. auto.
Qed.

Lemma square_area_tri (t : members_t) :
  t = make_members 0 1 2 \/ t = make_members 3 2 1 ->
  AreaConservationMeshForceCompute.area_tri square_pd t = 1 / 2.
Proof.
  intros Ht. unfold AreaConservationMeshForceCompute.area_tri.
  destruct (angle_of_orthonormal (area_dab square_pd t) (area_dac square_pd t))
    as (-> & -> & ->); [| | | lra]; destruct Ht as [-> | ->]; cbn; lra.
Qed.

Lemma square_collapsed_area :
  AreaConservationMeshForceCompute.m_area
    (AreaConservationMeshForceCompute.precomputeParameter square_pd square_md
       (collapsed_12_2 4)) = [1].
Proof.
  cbn -[AreaConservationMeshForceCompute.area_tri].
  rewrite !square_area_tri by auto. f_equal. lra.
Qed.

Lemma triangle_area_tri :
  AreaConservationMeshForceCompute.area_tri triangle_pd (make_members 0 1 2) = 1 / 2.
Proof.
  unfold AreaConservationMeshForceCompute.area_tri.
  destruct (angle_of_orthonormal (area_dab triangle_pd (make_members 0 1 2))
              (area_dac triangle_pd (make_members 0 1 2)))
    as (-> & -> & ->); [| | | lra]; cbn; lra.
Qed.

(** C1, amended.  In the whole-mesh variant the iteration of
    [computeForces] for a triangle [tri] of the mesh adds to the energy
    of the slot [v], once for every owned vertex of the triangle with
    local index [v], the energy
    [K[t] * (area[t] - A0[t])^2 / (6 * A0[t] * N_active)], where [area]
    is the aggregate area that the call has just recomputed; when the
    types are distinguished [t] is the type of the triangle and
    [N_active] the per-type size [getPerTypeSize()[t]] of the mesh; under
    single-type collapse [t] is 0 and [N_active] is the size [getSize()]
    of the mesh. *)
Theorem whole_mesh_vertex_energy_written
    (pd : ParticleData) (md : MeshDefinition)
    (o : AreaConservationMeshForceCompute.t)
    (pre post : list (members_t * nat)) (tri : members_t * nat) (v : nat) :
  h_triangles md = pre ++ tri :: post ->
  (v < length (AreaConservationMeshForceCompute.m_force o))%nat ->
  let o1 := AreaConservationMeshForceCompute.precomputeParameter pd md o in
  let before := AreaConservationMeshForceCompute.loop_over pd md o1 pre in
  let after := AreaConservationMeshForceCompute.force_step pd md o1 before tri in
  AreaConservationMeshForceCompute.computeForces pd md o
  = AreaConservationMeshForceCompute.set_buffers o1
      (foldl (AreaConservationMeshForceCompute.force_step pd md o1) after post)
  /\ w4 (AreaConservationMeshForceCompute.h_force after !!! v)
     = w4 (AreaConservationMeshForceCompute.h_force before !!! v)
       + INR (owned_occurrences pd tri.1 v) * whole_mesh_vertex_energy md o1 tri.
Proof.
  intros Hmesh Hv o1 before after. split.
  - unfold AreaConservationMeshForceCompute.computeForces,
      AreaConservationMeshForceCompute.loop_over.
    fold o1. rewrite Hmesh, foldl_app. reflexivity.
  - apply whole_step_energy. exact Hv.
Qed.

Lemma whole_mesh_vertex_energy_written_witness :
  let o1 := AreaConservationMeshForceCompute.precomputeParameter square_pd square_md
              (collapsed_12_2 4) in
  let before := AreaConservationMeshForceCompute.loop_over square_pd square_md o1 [] in
  let after := AreaConservationMeshForceCompute.force_step square_pd square_md o1
                 before (make_members 0 1 2, 0%nat) in
  AreaConservationMeshForceCompute.computeForces square_pd square_md (collapsed_12_2 4)
  = AreaConservationMeshForceCompute.set_buffers o1
      (foldl (AreaConservationMeshForceCompute.force_step square_pd square_md o1)
             after [(make_members 3 2 1, 0%nat)])
  /\ w4 (AreaConservationMeshForceCompute.h_force after !!! 0%nat)
     = w4 (AreaConservationMeshForceCompute.h_force before !!! 0%nat)
       + INR (owned_occurrences square_pd (make_members 0 1 2) 0)
         * whole_mesh_vertex_energy square_md o1 (make_members 0 1 2, 0%nat).
Proof.
  apply (whole_mesh_vertex_energy_written square_pd square_md (collapsed_12_2 4)
           [] [(make_members 3 2 1, 0%nat)] (make_members 0 1 2, 0%nat) 0).
  - reflexivity.
  - simpl. lia.
Defined.

(** C1 as stated fails.  The unit square of two triangles, single-type
    collapse, [K = 12], [A0 = 2]: the aggregate area is 1 and the mesh
    size is 2, so the first triangle gives its vertex 0 the energy
    [12 * (1 - 2)^2 / (6 * 2 * 2) = 1/2], which is also the energy of that
    slot after [computeForces]; with [N_active = 1] the stated formula
    gives 1. *)
Lemma whole_mesh_vertex_energy_counterexample :
  let tri := (make_members 0 1 2, 0%nat) in
  let o1 := AreaConservationMeshForceCompute.precomputeParameter square_pd square_md
              (collapsed_12_2 4) in
  let before := AreaConservationMeshForceCompute.loop_over square_pd square_md o1 [] in
  let after := AreaConservationMeshForceCompute.force_step square_pd square_md o1
                 before tri in
  AreaConservationMeshForceCompute.m_ignore_type o1 = true
  /\ w4 (AreaConservationMeshForceCompute.h_force before !!! 0%nat) = 0
  /\ w4 (AreaConservationMeshForceCompute.h_force after !!! 0%nat) = 1 / 2
  /\ w4 (AreaConservationMeshForceCompute.m_force
           (AreaConservationMeshForceCompute.computeForces square_pd square_md
              (collapsed_12_2 4)) !!! 0%nat) = 1 / 2
  /\ specified_whole_mesh_vertex_energy square_md o1 tri = 1
  /\ w4 (AreaConservationMeshForceCompute.h_force after !!! 0%nat)
     - w4 (AreaConservationMeshForceCompute.h_force before !!! 0%nat)
     <> specified_whole_mesh_vertex_energy square_md o1 tri.
Proof.
  intros tri o1 before after.
  assert (Harea : AreaConservationMeshForceCompute.m_area o1 = [1])
    by apply square_collapsed_area.
  assert (HE : whole_mesh_vertex_energy square_md o1 tri = 1 / 2).
  { unfold whole_mesh_vertex_energy. rewrite Harea. cbn. lra. }
  assert (Hafter : w4 (AreaConservationMeshForceCompute.h_force after !!! 0%nat) = 1 / 2).
  { subst after before. rewrite whole_step_energy by (simpl; lia).
    rewrite HE. cbn. lra. }
  split; [reflexivity|]. split; [reflexivity|]. split; [exact Hafter|]. split.
  - unfold AreaConservationMeshForceCompute.computeForces.
    cbn [AreaConservationMeshForceCompute.set_buffers
         AreaConservationMeshForceCompute.m_force].
    change (w4 (AreaConservationMeshForceCompute.h_force
                  (AreaConservationMeshForceCompute.force_step square_pd square_md o1
                     after (make_members 3 2 1, 0%nat)) !!! 0%nat) = 1 / 2).
    rewrite whole_step_force, three_writes_frame by (cbn; lia).
    exact Hafter.
  - assert (HS : specified_whole_mesh_vertex_energy square_md o1 tri = 1).
    { unfold specified_whole_mesh_vertex_energy. rewrite Harea. cbn. lra. }
    split; [exact HS|]. rewrite Hafter, HS.
    change (w4 (AreaConservationMeshForceCompute.h_force before !!! 0%nat)) with 0.
    lra.
Qed.

(** ** The energies of the three vertices *)



Lemma total_energy_memset0 (buf : list Scalar4) : total_energy (memset0 zero4 buf) = 0.
Proof.
  unfold total_energy, memset0, sum_R.
  induction (length buf) as [|n IH]; simpl; [reflexivity|]. rewrite IH. lra.
Qed.

Lemma sum_R_snoc (l : list R) (e : R) : sum_R (l ++ [e]) = sum_R l + e.
Proof. unfold sum_R. induction l as [|u l IH]; simpl; [lra | rewrite IH; lra]. Qed.

(** The energy in the force buffer after the whole-mesh loop over
    triangles with owned vertices is the sum of the energies of the
    triangles. *)
Lemma whole_loop_total_energy pd md o tris :
  (getN pd <= length (AreaConservationMeshForceCompute.m_force o))%nat ->
  (forall tri, tri ∈ tris ->
     (idx_a pd tri.1 < getN pd)%nat /\ (idx_b pd tri.1 < getN pd)%nat
     /\ (idx_c pd tri.1 < getN pd)%nat) ->
  total_energy (AreaConservationMeshForceCompute.h_force
                  (AreaConservationMeshForceCompute.loop_over pd md o tris))
  = sum_R (map (whole_mesh_triangle_energy md o) tris).
Proof.
  intros HN. induction tris as [|tri tris IH] using rev_ind; intros Hown.
  - apply total_energy_memset0.
  - unfold AreaConservationMeshForceCompute.loop_over. rewrite foldl_snoc.
    fold (AreaConservationMeshForceCompute.loop_over pd md o tris).
    rewrite whole_step_force, three_writes_total_energy
      by (rewrite whole_loop_over_length; exact HN).
    destruct (Hown tri) as (Ha & Hb & Hc); [apply elem_of_app; right; apply list_elem_of_here|].
    rewrite all_owned_count by assumption.
    rewrite IH by (intros t Hin; apply Hown, elem_of_app; left; exact Hin).
    rewrite whole_energy_of, whole_mesh_energy_split.
    rewrite map_app. simpl map. rewrite sum_R_snoc. reflexivity.
Qed.

Lemma per_triangle_loop_total_energy pd md o tris :
  (getN pd <= length (TriangleAreaConservationMeshForceCompute.m_force o))%nat ->
  (forall tri, tri ∈ tris ->
     (idx_a pd tri.1 < getN pd)%nat /\ (idx_b pd tri.1 < getN pd)%nat
     /\ (idx_c pd tri.1 < getN pd)%nat) ->
  total_energy (TriangleAreaConservationMeshForceCompute.h_force
                  (TriangleAreaConservationMeshForceCompute.loop_over pd md o tris))
  = sum_R (map (per_triangle_energy pd o) tris).
Proof.
  intros HN. induction tris as [|tri tris IH] using rev_ind; intros Hown.
  - apply total_energy_memset0.
  - unfold TriangleAreaConservationMeshForceCompute.loop_over. rewrite foldl_snoc.
    fold (TriangleAreaConservationMeshForceCompute.loop_over pd md o tris).
    rewrite per_triangle_step_force, three_writes_total_energy
      by (rewrite per_triangle_loop_over_length; exact HN).
    destruct (Hown tri) as (Ha & Hb & Hc); [apply elem_of_app; right; apply list_elem_of_here|].
    rewrite all_owned_count by assumption.
    rewrite IH by (intros t Hin; apply Hown, elem_of_app; left; exact Hin).
    rewrite per_triangle_energy_of, per_triangle_energy_split.
    rewrite map_app. simpl map. rewrite sum_R_snoc. reflexivity.
Qed.

(** ** Newton's third law *)

Lemma nodal_forces_cancel (Fab Fac : Scalar3) :
  (Fab +v Fac) +v (-v Fab) +v (-v Fac) = zero3.
Proof. unfold vadd, vneg, zero3. cbn. f_equal; lra. Qed.

Lemma isolated_nil pd tri : isolated pd tri [].
Proof. intros tri' Hin. apply elem_of_nil in Hin. contradiction. Qed.

(** C3.  For a triangle of the mesh with three distinct owned vertices
    that shares no vertex with another triangle, after [computeForces],
    in the whole-mesh and in the per-triangle variant, vertex [a] holds
    the force [Fab + Fac], vertex [b] holds [-Fab], vertex [c] holds
    [-Fac], and the three forces sum to the zero vector. *)
Theorem isolated_triangle_forces_sum_to_zero
    (pd : ParticleData) (md : MeshDefinition)
    (pre post : list (members_t * nat)) (tri : members_t * nat) :
  let ia := idx_a pd tri.1 in
  let ib := idx_b pd tri.1 in
  let ic := idx_c pd tri.1 in
  h_triangles md = pre ++ tri :: post ->
  isolated pd tri (pre ++ post) ->
  (ia < getN pd)%nat -> (ib < getN pd)%nat -> (ic < getN pd)%nat ->
  ia <> ib -> ia <> ic -> ib <> ic ->
  (forall o : AreaConservationMeshForceCompute.t,
      (getN pd <= length (AreaConservationMeshForceCompute.m_force o))%nat ->
      let o' := AreaConservationMeshForceCompute.computeForces pd md o in
      let Fab := AreaConservationMeshForceCompute.Fab pd o' tri in
      let Fac := AreaConservationMeshForceCompute.Fac pd o' tri in
      let F := AreaConservationMeshForceCompute.m_force o' in
      force_of (F !!! ia) = Fab +v Fac
      /\ force_of (F !!! ib) = -v Fab
      /\ force_of (F !!! ic) = -v Fac
      /\ force_of (F !!! ia) +v force_of (F !!! ib) +v force_of (F !!! ic) = zero3)
  /\ (forall o : TriangleAreaConservationMeshForceCompute.t,
      (getN pd <= length (TriangleAreaConservationMeshForceCompute.m_force o))%nat ->
      let o' := TriangleAreaConservationMeshForceCompute.computeForces pd md o in
      let Fab := TriangleAreaConservationMeshForceCompute.Fab pd o' tri in
      let Fac := TriangleAreaConservationMeshForceCompute.Fac pd o' tri in
      let F := TriangleAreaConservationMeshForceCompute.m_force o' in
      force_of (F !!! ia) = Fab +v Fac
      /\ force_of (F !!! ib) = -v Fab
      /\ force_of (F !!! ic) = -v Fac
      /\ force_of (F !!! ia) +v force_of (F !!! ib) +v force_of (F !!! ic) = zero3).
Proof.
  intros ia ib ic Hmesh Hiso Ha Hb Hc Hab Hac Hbc.
  assert (Hpre : forall v, touches pd tri.1 v ->
                   forall tri', tri' ∈ pre -> ~ touches pd tri'.1 v).
  { intros v Hv tri' Hin. apply (Hiso tri'); [|exact Hv].
    apply elem_of_app. left. exact Hin. }
  assert (Hpost : forall v, touches pd tri.1 v ->
                    forall tri', tri' ∈ post -> ~ touches pd tri'.1 v).
  { intros v Hv tri' Hin. apply (Hiso tri'); [|exact Hv].
    apply elem_of_app. right. exact Hin. }
  assert (Ta : touches pd tri.1 ia) by (left; reflexivity).
  assert (Tb : touches pd tri.1 ib) by (right; left; reflexivity).
  assert (Tc : touches pd tri.1 ic) by (right; right; reflexivity).
  split; intros o HN o' Fab Fac F.
  - set (o1 := AreaConservationMeshForceCompute.precomputeParameter pd md o).
    set (before := AreaConservationMeshForceCompute.loop_over pd md o1 pre).
    destruct (three_writes_on_zero (getN pd) ia ib ic Fab Fac
                (AreaConservationMeshForceCompute.energy_of md o1 before tri)
                (AreaConservationMeshForceCompute.h_force before))
      as (Ea & Eb & Ec & _); try assumption.
    { subst before. rewrite whole_loop_over_length. exact HN. }
    1-3: subst before; unfold AreaConservationMeshForceCompute.loop_over;
      rewrite whole_loop_frame by auto; apply memset0_lookup_total.
    assert (HF : forall v, touches pd tri.1 v ->
              F !!! v = three_writes (getN pd) ia ib ic Fab Fac
                          (AreaConservationMeshForceCompute.energy_of md o1 before tri)
                          (AreaConservationMeshForceCompute.h_force before) !!! v).
    { intros v Hv. subst F o'.
      unfold AreaConservationMeshForceCompute.computeForces,
        AreaConservationMeshForceCompute.loop_over.
      cbn [AreaConservationMeshForceCompute.set_buffers
           AreaConservationMeshForceCompute.m_force].
      rewrite Hmesh, foldl_app. simpl foldl.
      rewrite whole_loop_frame by auto.
      rewrite whole_step_force. reflexivity. }
    rewrite !HF by assumption. rewrite Ea, Eb, Ec.
    repeat split; try reflexivity. apply nodal_forces_cancel.
  - set (before := TriangleAreaConservationMeshForceCompute.loop_over pd md o pre).
    destruct (three_writes_on_zero (getN pd) ia ib ic Fab Fac
                (TriangleAreaConservationMeshForceCompute.energy_of pd o tri)
                (TriangleAreaConservationMeshForceCompute.h_force before))
      as (Ea & Eb & Ec & _); try assumption.
    { subst before. rewrite per_triangle_loop_over_length. exact HN. }
    1-3: subst before; unfold TriangleAreaConservationMeshForceCompute.loop_over;
      rewrite per_triangle_loop_frame by auto; apply memset0_lookup_total.
    assert (HF : forall v, touches pd tri.1 v ->
              F !!! v = three_writes (getN pd) ia ib ic Fab Fac
                          (TriangleAreaConservationMeshForceCompute.energy_of pd o tri)
                          (TriangleAreaConservationMeshForceCompute.h_force before) !!! v).
    { intros v Hv. subst F o'.
      unfold TriangleAreaConservationMeshForceCompute.computeForces,
        TriangleAreaConservationMeshForceCompute.loop_over.
      cbn [TriangleAreaConservationMeshForceCompute.m_force].
      rewrite Hmesh, foldl_app. simpl foldl.
      rewrite per_triangle_loop_frame by auto.
      rewrite per_triangle_step_force. reflexivity. }
    rewrite !HF by assumption. rewrite Ea, Eb, Ec.
    repeat split; try reflexivity. apply nodal_forces_cancel.
Qed.

Lemma isolated_triangle_forces_sum_to_zero_witness :
  let tri := (make_members 0 1 2, 0%nat) in
  (let o' := AreaConservationMeshForceCompute.computeForces triangle_pd triangle_md
               (whole_10_half 3) in
   let F := AreaConservationMeshForceCompute.m_force o' in
   force_of (F !!! 0%nat) +v force_of (F !!! 1%nat) +v force_of (F !!! 2%nat) = zero3)
  /\ (let o' := TriangleAreaConservationMeshForceCompute.computeForces triangle_pd
                  triangle_md (per_triangle_10_04 3) in
      let F := TriangleAreaConservationMeshForceCompute.m_force o' in
      force_of (F !!! 0%nat) +v force_of (F !!! 1%nat) +v force_of (F !!! 2%nat)
      = zero3).
Proof.
  intros tri.
  destruct (isolated_triangle_forces_sum_to_zero triangle_pd triangle_md [] [] tri)
    as [Hw Ht]; try reflexivity; try (cbn; lia).
  - apply isolated_nil.
  - split.
    + apply (Hw (whole_10_half 3)). cbn. lia.
    + apply (Ht (per_triangle_10_04 3)). cbn. lia.
Defined.

(** ** A triangle at its target area *)

Lemma Fab_of_zero g : Fab_of 0 g = zero3.
Proof. unfold Fab_of, smul, zero3. f_equal; ring. Qed.

Lemma Fac_of_zero g : Fac_of 0 g = zero3.
Proof. unfold Fac_of, smul, zero3. f_equal; ring. Qed.

Lemma all_zero_memset buf : all_zero (memset0 zero4 buf).
Proof. intros i F H. exact (memset0_lookup _ _ _ _ H). Qed.

Lemma all_zero_alter (f : Scalar4 -> Scalar4) (i : nat) (hf : list Scalar4) :
  f zero4 = zero4 -> all_zero hf -> all_zero (alter f i hf).
Proof.
  intros Hf Hz j F Hj. rewrite list_lookup_alter in Hj.
  destruct (decide (i = j)) as [->|_]; [|eauto].
  destruct (hf !! j) as [G|] eqn:HG; [|discriminate].
  injection Hj as <-. rewrite (Hz j G HG). exact Hf.
Qed.

Lemma all_zero_lookup_total (hf : list Scalar4) (v : nat) :
  all_zero hf -> hf !!! v = zero4.
Proof.
  intros Hz. rewrite list_lookup_total_alt.
  destruct (hf !! v) as [F|] eqn:HF; [exact (Hz v F HF) | reflexivity].
Qed.

Lemma three_writes_zero N ia ib ic hf :
  all_zero hf -> all_zero (three_writes N ia ib ic zero3 zero3 0 hf).
Proof.
  intros Hz. unfold three_writes, force_add, force_sub.
  destruct (ia <? N)%nat, (ib <? N)%nat, (ic <? N)%nat;
    repeat (apply all_zero_alter; [unfold zero4; cbn; f_equal; lra|]);
    exact Hz.
Qed.

Lemma whole_at_target_area md o ls tri :
  let ty := AreaConservationMeshForceCompute.triangle_type
              (AreaConservationMeshForceCompute.m_ignore_type o) tri in
  AreaConservationMeshForceCompute.m_area o !!! ty
  = AreaConservationMeshForceCompute.m_A0 o !!! ty ->
  AreaConservationMeshForceCompute.prefactor_of o tri = 0
  /\ AreaConservationMeshForceCompute.energy_of md o ls tri = 0.
Proof.
  intros ty Heq.
  unfold AreaConservationMeshForceCompute.prefactor_of,
    AreaConservationMeshForceCompute.energy_of. cbv zeta. fold ty.
  rewrite Heq. unfold Rdiv. split; ring.
Qed.

(** C8.  For a mesh of a single triangle whose aggregate area, as
    [computeForces] recomputes it, equals the target area [A0] of its
    type, the whole-mesh [computeForces] leaves zero force components and
    zero energy in the slots of the three vertices (and in every other
    slot). *)
Theorem single_triangle_at_target_area
    (pd : ParticleData) (md : MeshDefinition)
    (o : AreaConservationMeshForceCompute.t) (tri : members_t * nat) :
  h_triangles md = [tri] ->
  let o' := AreaConservationMeshForceCompute.computeForces pd md o in
  let ty := AreaConservationMeshForceCompute.triangle_type
              (AreaConservationMeshForceCompute.m_ignore_type o') tri in
  AreaConservationMeshForceCompute.getArea o' ty
  = AreaConservationMeshForceCompute.m_A0 o' !!! ty ->
  AreaConservationMeshForceCompute.m_force o' !!! idx_a pd tri.1 = zero4
  /\ AreaConservationMeshForceCompute.m_force o' !!! idx_b pd tri.1 = zero4
  /\ AreaConservationMeshForceCompute.m_force o' !!! idx_c pd tri.1 = zero4
  /\ all_zero (AreaConservationMeshForceCompute.m_force o').
Proof.
  intros Hmesh o' ty Harea.
  assert (Hz : all_zero (AreaConservationMeshForceCompute.m_force o')).
  { subst o'. unfold AreaConservationMeshForceCompute.computeForces,
      AreaConservationMeshForceCompute.loop_over.
    cbn [AreaConservationMeshForceCompute.set_buffers
         AreaConservationMeshForceCompute.m_force].
    rewrite Hmesh. simpl foldl. rewrite whole_step_force.
    set (o1 := AreaConservationMeshForceCompute.precomputeParameter pd md o).
    destruct (whole_at_target_area md o1
                (AreaConservationMeshForceCompute.loop_init md o1) tri Harea)
      as [Hpre He].
    unfold AreaConservationMeshForceCompute.Fab, AreaConservationMeshForceCompute.Fac.
    rewrite Hpre, He, Fab_of_zero, Fac_of_zero.
    apply three_writes_zero, all_zero_memset. }
  repeat split; try apply all_zero_lookup_total; exact Hz.
Qed.

Lemma single_triangle_at_target_area_witness :
  let o' := AreaConservationMeshForceCompute.computeForces triangle_pd triangle_md
              (whole_10_half 3) in
  AreaConservationMeshForceCompute.m_force o' !!! 0%nat = zero4
  /\ AreaConservationMeshForceCompute.m_force o' !!! 1%nat = zero4
  /\ AreaConservationMeshForceCompute.m_force o' !!! 2%nat = zero4
  /\ all_zero (AreaConservationMeshForceCompute.m_force o').
Proof.
  apply (single_triangle_at_target_area triangle_pd triangle_md (whole_10_half 3)
           (make_members 0 1 2, 0%nat)).
  - reflexivity.
  - cbn -[AreaConservationMeshForceCompute.area_tri].
    rewrite triangle_area_tri. lra.
Defined.

(** ** Per-type accumulation *)

Lemma length_add_thirds N ia ib ic third ty g :
  length (add_thirds N ia ib ic third ty g) = length g.
Proof.
  unfold add_thirds.
  destruct (ia <? N)%nat, (ib <? N)%nat, (ic <? N)%nat;
    rewrite ?length_alter; reflexivity.
Qed.

Lemma alter_add_lookup (d : R) (k ty : nat) (g : list R) :
  (ty < length g)%nat ->
  alter (fun u => u + d) k g !!! ty
  = g !!! ty + (if decide (k = ty) then d else 0).
Proof.
  intros Hty. destruct (decide (k = ty)) as [->|Hne].
  - rewrite list_lookup_total_alter_eq by exact Hty. reflexivity.
  - rewrite list_lookup_total_alter_ne by exact Hne. lra.
Qed.

Lemma add_thirds_lookup N ia ib ic third k g ty :
  (ty < length g)%nat ->
  add_thirds N ia ib ic third k g !!! ty
  = g !!! ty
    + (if decide (k = ty)
       then INR ((if (ia <? N)%nat then 1 else 0) + (if (ib <? N)%nat then 1 else 0)
                 + (if (ic <? N)%nat then 1 else 0)) * third
       else 0).
Proof.
  intros Hty. unfold add_thirds.
  destruct (ia <? N)%nat, (ib <? N)%nat, (ic <? N)%nat;
    repeat (rewrite alter_add_lookup by (rewrite ?length_alter; exact Hty));
    destruct (decide (k = ty)); simpl; lra.
Qed.

Lemma foldl_accumulate (step : list R -> members_t * nat -> list R)
    (key : members_t * nat -> nat) (f : members_t * nat -> R)
    (tris : list (members_t * nat)) :
  (forall g tri, tri ∈ tris -> length (step g tri) = length g) ->
  (forall g tri ty, tri ∈ tris -> (ty < length g)%nat ->
     step g tri !!! ty = g !!! ty + (if decide (key tri = ty) then f tri else 0)) ->
  forall g ty, (ty < length g)%nat ->
    length (foldl step g tris) = length g
    /\ foldl step g tris !!! ty = g !!! ty + type_sum key f ty tris.
Proof.
  unfold type_sum.
  induction tris as [|tri tris IH]; intros Hlen Hstep g ty Hty; simpl.
  - split; [reflexivity | lra].
  - destruct (IH (fun g t Hin => Hlen g t (list_elem_of_further _ _ _ Hin))
                 (fun g t y Hin => Hstep g t y (list_elem_of_further _ _ _ Hin))
                 (step g tri) ty) as [IHl IHs].
    { rewrite Hlen by apply list_elem_of_here. exact Hty. }
    split.
    + rewrite IHl. apply Hlen, list_elem_of_here.
    + rewrite IHs, Hstep by (apply list_elem_of_here || exact Hty). lra.
Qed.

Lemma type_sum_ext key f f' ty tris :
  (forall tri, tri ∈ tris -> key tri = ty -> f tri = f' tri) ->
  type_sum key f ty tris = type_sum key f' ty tris.
Proof.
  unfold type_sum. induction tris as [|tri tris IH]; intros Hext; simpl; [reflexivity|].
  rewrite IH by (intros t Hin; apply Hext, list_elem_of_further, Hin).
  destruct (decide (key tri = ty)) as [Hk|_]; [|reflexivity].
  rewrite (Hext tri) by (apply list_elem_of_here || exact Hk). reflexivity.
Qed.

Lemma type_sum_filter_key key f ty tris :
  type_sum key f ty tris = sum_R (map f (filter (fun tri => key tri = ty) tris)).
Proof.
  unfold type_sum. induction tris as [|tri tris IH]; simpl; [reflexivity|].
  rewrite filter_cons. destruct (decide (key tri = ty)); simpl; rewrite IH; lra.
Qed.

Lemma type_sum_filter key f (keep : members_t * nat -> bool) ty tris :
  type_sum key f ty (filter (fun tri => keep tri = true) tris)
  = type_sum key (fun tri => if keep tri then f tri else 0) ty tris.
Proof.
  unfold type_sum. induction tris as [|tri tris IH]; simpl; [reflexivity|].
  rewrite filter_cons. destruct (decide (keep tri = true)) as [Hk|Hk].
  - simpl. rewrite IH, Hk. reflexivity.
  - rewrite IH. destruct (keep tri); [congruence|].
    destruct (decide (key tri = ty)); lra.
Qed.

Lemma lookup_total_zeros (n ty : nat) : replicate n 0 !!! ty = 0.
Proof.
  destruct (decide (ty < n)%nat) as [H|H].
  - apply list_lookup_total_correct, lookup_replicate_2, H.
  - rewrite list_lookup_total_alt, lookup_ge_None_2;
      [reflexivity | rewrite length_replicate; lia].
Qed.

Lemma copy_area_spec (n : nat) (ga ma : list R) :
  length (AreaConservationMeshForceCompute.copy_area n ga ma) = length ma
  /\ forall ty, (ty < length ma)%nat ->
       AreaConservationMeshForceCompute.copy_area n ga ma !!! ty
       = if decide (ty < n)%nat then ga !!! ty else ma !!! ty.
Proof.
  unfold AreaConservationMeshForceCompute.copy_area.
  induction n as [|n [IHl IHs]].
  - split; [reflexivity|]. intros ty _. reflexivity.
  - rewrite seq_S, foldl_snoc. simpl. split.
    + rewrite length_insert. exact IHl.
    + intros ty Hty. destruct (decide (n = ty)) as [->|Hne].
      * rewrite list_lookup_total_insert_eq by (rewrite IHl; exact Hty).
        destruct (decide (ty < S ty)%nat); [reflexivity | lia].
      * rewrite list_lookup_total_insert_ne by exact Hne.
        rewrite IHs by exact Hty.
        destruct (decide (ty < n)%nat), (decide (ty < S n)%nat); try reflexivity; lia.
Qed.

Lemma per_triangle_copy_area n ga ma :
  TriangleAreaConservationMeshForceCompute.copy_area n ga ma
  = AreaConservationMeshForceCompute.copy_area n ga ma.
Proof. reflexivity. Qed.

Lemma per_triangle_step_area pd o ls tri :
  TriangleAreaConservationMeshForceCompute.global_area
    (TriangleAreaConservationMeshForceCompute.force_step pd o ls tri)
  = add_thirds (getN pd) (idx_a pd tri.1) (idx_b pd tri.1) (idx_c pd tri.1)
      (TriangleAreaConservationMeshForceCompute.tri_area pd tri) tri.2
      (TriangleAreaConservationMeshForceCompute.global_area ls).
Proof.
  unfold TriangleAreaConservationMeshForceCompute.force_step, add_thirds.
  destruct (idx_a pd tri.1 <? getN pd)%nat, (idx_b pd tri.1 <? getN pd)%nat,
    (idx_c pd tri.1 <? getN pd)%nat; reflexivity.
Qed.

Lemma per_triangle_loop_area pd o tris ls :
  TriangleAreaConservationMeshForceCompute.global_area
    (foldl (TriangleAreaConservationMeshForceCompute.force_step pd o) ls tris)
  = foldl (fun g tri =>
             add_thirds (getN pd) (idx_a pd tri.1) (idx_b pd tri.1) (idx_c pd tri.1)
               (TriangleAreaConservationMeshForceCompute.tri_area pd tri) tri.2 g)
          (TriangleAreaConservationMeshForceCompute.global_area ls) tris.
Proof.
  revert ls. induction tris as [|tri tris IH]; intros ls; simpl; [reflexivity|].
  rewrite IH, per_triangle_step_area. reflexivity.
Qed.

Lemma triangle_all_owned : all_owned triangle_pd triangle_md.
Proof.
  intros tri Hin. apply list_elem_of_singleton in Hin. subst tri. cbn. lia.
Qed.

(** On a single rank the per-triangle [computeForces] stores, for every
    type, a third of the area of each triangle of the type for each of
    its owned vertices. *)
Lemma per_triangle_area_thirds
    (pd : ParticleData) (md : MeshDefinition)
    (o : TriangleAreaConservationMeshForceCompute.t) (ty : nat) :
  getDomainDecomposition pd = false ->
  TriangleAreaConservationMeshForceCompute.constructed md o ->
  (ty < getNTypes md)%nat ->
  TriangleAreaConservationMeshForceCompute.getArea
    (TriangleAreaConservationMeshForceCompute.computeForces pd md o) ty
  = type_sum snd (fun tri => INR (owned_count pd tri.1) * (force_area pd tri.1 / 3))
      ty (h_triangles md).
Proof.
  intros Hdd (_ & _ & Hlen) Hty.
  unfold TriangleAreaConservationMeshForceCompute.getArea,
    TriangleAreaConservationMeshForceCompute.computeForces,
    TriangleAreaConservationMeshForceCompute.reduced_area,
    TriangleAreaConservationMeshForceCompute.loop_over.
  cbn [TriangleAreaConservationMeshForceCompute.m_area]. rewrite Hdd.
  rewrite per_triangle_copy_area.
  destruct (copy_area_spec (getNTypes md)
              (TriangleAreaConservationMeshForceCompute.global_area
                 (foldl (TriangleAreaConservationMeshForceCompute.force_step pd o)
                    (TriangleAreaConservationMeshForceCompute.loop_init md o)
                    (h_triangles md)))
              (TriangleAreaConservationMeshForceCompute.m_area o)) as [_ Hcopy].
  rewrite Hcopy by lia. destruct (decide (ty < getNTypes md)%nat); [|lia].
  rewrite per_triangle_loop_area.
  cbn [TriangleAreaConservationMeshForceCompute.loop_init
       TriangleAreaConservationMeshForceCompute.global_area].
  destruct (foldl_accumulate
              (fun g tri =>
                 add_thirds (getN pd) (idx_a pd tri.1) (idx_b pd tri.1)
                   (idx_c pd tri.1)
                   (TriangleAreaConservationMeshForceCompute.tri_area pd tri) tri.2 g)
              snd
              (fun tri => INR (owned_count pd tri.1) * (force_area pd tri.1 / 3))
              (h_triangles md)) with (g := replicate (getNTypes md) 0) (ty := ty)
    as [_ Hsum].
  - intros g tri _. apply length_add_thirds.
  - intros g tri y _ Hy. rewrite add_thirds_lookup by exact Hy.
    destruct (decide (tri.2 = y)); [|reflexivity].
    rewrite <- three_tri_area. unfold owned_count. f_equal. field.
  - rewrite length_replicate. exact Hty.
  - rewrite Hsum, lookup_total_zeros. lra.
Qed.

Lemma per_triangle_area_all_owned
    (pd : ParticleData) (md : MeshDefinition)
    (o : TriangleAreaConservationMeshForceCompute.t) (ty : nat) :
  getDomainDecomposition pd = false ->
  TriangleAreaConservationMeshForceCompute.constructed md o ->
  (ty < getNTypes md)%nat ->
  all_owned pd md ->
  TriangleAreaConservationMeshForceCompute.getArea
    (TriangleAreaConservationMeshForceCompute.computeForces pd md o) ty
  = type_sum snd (fun tri => force_area pd tri.1) ty (h_triangles md).
Proof.
  intros Hdd Hcons Hty Hown.
  rewrite per_triangle_area_thirds by assumption.
  apply type_sum_ext. intros tri Hin _.
  destruct (Hown tri Hin) as (Ha & Hb & Hc).
  unfold owned_count. rewrite all_owned_count by assumption. simpl INR. field.
Qed.

(** C10.  In the per-triangle variant [computeForces] also recomputes the
    per-type aggregate area: on a single rank, [getArea(type)] after the
    call is the sum over the triangles of that type of a third of the
    triangle's area for each of its owned vertices; when every vertex of
    every triangle is owned it is the sum of the areas of the triangles
    of that type. *)
Theorem per_triangle_computeForces_recomputes_area
    (pd : ParticleData) (md : MeshDefinition)
    (o : TriangleAreaConservationMeshForceCompute.t) (ty : nat) :
  getDomainDecomposition pd = false ->
  TriangleAreaConservationMeshForceCompute.constructed md o ->
  (ty < getNTypes md)%nat ->
  let o' := TriangleAreaConservationMeshForceCompute.computeForces pd md o in
  TriangleAreaConservationMeshForceCompute.getArea o' ty
  = sum_R (map (fun tri => INR (owned_count pd tri.1) * (force_area pd tri.1 / 3))
               (filter (fun tri => tri.2 = ty) (h_triangles md)))
  /\ (all_owned pd md ->
      TriangleAreaConservationMeshForceCompute.getArea o' ty
      = sum_R (map (fun tri => force_area pd tri.1)
                   (filter (fun tri => tri.2 = ty) (h_triangles md)))).
Proof.
  intros Hdd Hcons Hty o'. subst o'. split.
  - rewrite per_triangle_area_thirds by assumption. apply type_sum_filter_key.
  - intros Hown. rewrite per_triangle_area_all_owned by assumption.
    apply type_sum_filter_key.
Qed.

Lemma per_triangle_computeForces_recomputes_area_witness :
  let o' := TriangleAreaConservationMeshForceCompute.computeForces triangle_pd
              triangle_md (per_triangle_10_04 3) in
  TriangleAreaConservationMeshForceCompute.getArea o' 0
  = sum_R (map (fun tri => force_area triangle_pd tri.1)
               (filter (fun tri => tri.2 = 0%nat) (h_triangles triangle_md))).
Proof.
  destruct (per_triangle_computeForces_recomputes_area triangle_pd triangle_md
              (per_triangle_10_04 3) 0) as [_ Hall].
  - reflexivity.
  - repeat split.
  - cbn. lia.
  - apply Hall, triangle_all_owned.
Defined.

Lemma triangle_force_area : force_area triangle_pd (make_members 0 1 2) = 1 / 2.
Proof.
  unfold force_area.
  destruct (angle_of_orthonormal (force_dab triangle_pd (make_members 0 1 2))
              (force_dac triangle_pd (make_members 0 1 2)))
    as (-> & -> & ->); [| | | lra]; cbn; lra.
Qed.

(** The scenario of the specification: the right triangle with legs 1,
    [K = 10], [A0 = 0.4].  The per-triangle [computeForces] gives each
    vertex the energy [K / (6 * A0) * (0.5 - 0.4)^2 = 1/24], the three
    energies sum to [K / (2 * A0) * (0.5 - 0.4)^2 = 1/8], and the area of
    the type is recomputed as [1/2]. *)
Lemma per_triangle_scenario :
  let o' := TriangleAreaConservationMeshForceCompute.computeForces triangle_pd
              triangle_md (per_triangle_10_04 3) in
  let F := TriangleAreaConservationMeshForceCompute.m_force o' in
  w4 (F !!! 0%nat) = 1 / 24 /\ w4 (F !!! 1%nat) = 1 / 24 /\ w4 (F !!! 2%nat) = 1 / 24
  /\ total_energy F = 1 / 8
  /\ TriangleAreaConservationMeshForceCompute.getArea o' 0 = 1 / 2.
Proof.
  intros o' F.
  assert (HE : TriangleAreaConservationMeshForceCompute.energy_of triangle_pd
                 (per_triangle_10_04 3) (make_members 0 1 2, 0%nat) = 1 / 24).
  { rewrite per_triangle_energy_of. unfold per_triangle_vertex_energy.
    cbn [fst snd]. rewrite triangle_force_area. cbn. field. }
  assert (HF : F = three_writes 3 0 1 2
                 (TriangleAreaConservationMeshForceCompute.Fab triangle_pd
                    (per_triangle_10_04 3) (make_members 0 1 2, 0%nat))
                 (TriangleAreaConservationMeshForceCompute.Fac triangle_pd
                    (per_triangle_10_04 3) (make_members 0 1 2, 0%nat))
                 (1 / 24) (replicate 3 zero4)).
  { rewrite <- HE. subst F o'.
    unfold TriangleAreaConservationMeshForceCompute.computeForces,
      TriangleAreaConservationMeshForceCompute.loop_over.
    cbn [TriangleAreaConservationMeshForceCompute.m_force h_triangles triangle_md foldl].
    rewrite per_triangle_step_force. reflexivity. }
  destruct (three_writes_on_zero 3 0 1 2
              (TriangleAreaConservationMeshForceCompute.Fab triangle_pd
                 (per_triangle_10_04 3) (make_members 0 1 2, 0%nat))
              (TriangleAreaConservationMeshForceCompute.Fac triangle_pd
                 (per_triangle_10_04 3) (make_members 0 1 2, 0%nat))
              (1 / 24) (replicate 3 zero4))
    as (_ & _ & _ & Ha & Hb & Hc); try lia; try reflexivity.
  rewrite HF. repeat split; try assumption.
  - rewrite three_writes_total_energy by (simpl; lia). cbn. lra.
  - subst o'. rewrite per_triangle_area_all_owned;
      [| reflexivity | repeat split | cbn; lia | exact triangle_all_owned].
    unfold type_sum. cbn [h_triangles triangle_md map sum_R foldr fst snd].
    rewrite triangle_force_area.
    destruct (decide (0%nat = 0%nat)); [lra | congruence].
Qed.

Lemma pos_diff_opp pd i j : pos_diff pd i j = -v pos_diff pd j i.
Proof. unfold pos_diff, vneg. cbn. f_equal; lra. Qed.

Lemma angle_of_opp (dab dac : Scalar3) :
  rab (angle_of (-v dab) (-v dac)) = rab (angle_of dab dac)
  /\ rac (angle_of (-v dab) (-v dac)) = rac (angle_of dab dac)
  /\ c_baac (angle_of (-v dab) (-v dac)) = c_baac (angle_of dab dac)
  /\ s_baac (angle_of (-v dab) (-v dac)) = s_baac (angle_of dab dac).
Proof.
  unfold angle_of. cbn [rab rac c_baac s_baac vneg vdiv x3 y3 z3].
  replace (- x3 dab * - x3 dab + - y3 dab * - y3 dab + - z3 dab * - z3 dab)
    with (x3 dab * x3 dab + y3 dab * y3 dab + z3 dab * z3 dab) by ring.
  replace (- x3 dac * - x3 dac + - y3 dac * - y3 dac + - z3 dac * - z3 dac)
    with (x3 dac * x3 dac + y3 dac * y3 dac + z3 dac * z3 dac) by ring.
  set (r1 := sqrt (x3 dab * x3 dab + y3 dab * y3 dab + z3 dab * z3 dab)).
  set (r2 := sqrt (x3 dac * x3 dac + y3 dac * y3 dac + z3 dac * z3 dac)).
  replace (- x3 dab / r1 * (- x3 dac / r2) + - y3 dab / r1 * (- y3 dac / r2)
           + - z3 dab / r1 * (- z3 dac / r2))
    with (x3 dab / r1 * (x3 dac / r2) + y3 dab / r1 * (y3 dac / r2)
          + z3 dab / r1 * (z3 dac / r2)) by (unfold Rdiv; ring).
  repeat split; reflexivity.
Qed.

(** With a periodic wrap that commutes with negation, the force loops see
    the area that the area loop computes. *)
Lemma force_area_is_area_tri (pd : ParticleData) (t : members_t) :
  (forall d, minImage pd (-v d) = -v minImage pd d) ->
  force_area pd t = AreaConservationMeshForceCompute.area_tri pd t.
Proof.
  intros Hodd. unfold force_area, AreaConservationMeshForceCompute.area_tri,
    force_dab, force_dac, area_dab, area_dac. cbv zeta.
  rewrite (pos_diff_opp pd (idx_a pd t) (idx_b pd t)),
    (pos_diff_opp pd (idx_a pd t) (idx_c pd t)), !Hodd.
  destruct (angle_of_opp (minImage pd (pos_diff pd (idx_b pd t) (idx_a pd t)))
              (minImage pd (pos_diff pd (idx_c pd t) (idx_a pd t))))
    as (-> & -> & _ & ->).
  reflexivity.
Qed.

(** ** The area aggregation of a domain-decomposed run *)

Lemma area_step_decomposed pd ignore_type g tri :
  getDomainDecomposition pd = true ->
  AreaConservationMeshForceCompute.area_step pd ignore_type g tri
  = add_thirds (getN pd) (idx_a pd tri.1) (idx_b pd tri.1) (idx_c pd tri.1)
      (AreaConservationMeshForceCompute.area_tri pd tri.1 / 3)
      (AreaConservationMeshForceCompute.triangle_type ignore_type tri) g.
Proof.
  intros Hdd. unfold AreaConservationMeshForceCompute.area_step, add_thirds.
  rewrite Hdd. reflexivity.
Qed.

Lemma local_area_decomposed pd md ignore_type ty :
  getDomainDecomposition pd = true ->
  (ty < getNTypes md)%nat ->
  AreaConservationMeshForceCompute.local_area pd md ignore_type !!! ty
  = type_sum (AreaConservationMeshForceCompute.triangle_type ignore_type)
      (fun tri => INR (owned_count pd tri.1)
                  * (AreaConservationMeshForceCompute.area_tri pd tri.1 / 3))
      ty (h_triangles md).
Proof.
  intros Hdd Hty. unfold AreaConservationMeshForceCompute.local_area.
  destruct (foldl_accumulate (AreaConservationMeshForceCompute.area_step pd ignore_type)
              (AreaConservationMeshForceCompute.triangle_type ignore_type)
              (fun tri => INR (owned_count pd tri.1)
                          * (AreaConservationMeshForceCompute.area_tri pd tri.1 / 3))
              (h_triangles md)) with (g := replicate (getNTypes md) 0) (ty := ty)
    as [_ Hsum].
  - intros g tri _. rewrite area_step_decomposed by exact Hdd. apply length_add_thirds.
  - intros g tri y _ Hy. rewrite area_step_decomposed by exact Hdd.
    rewrite add_thirds_lookup by exact Hy. reflexivity.
  - rewrite length_replicate. exact Hty.
  - rewrite Hsum, lookup_total_zeros. lra.
Qed.

Lemma local_area_single_rank pd md ignore_type ty :
  getDomainDecomposition pd = false ->
  (ty < getNTypes md)%nat ->
  AreaConservationMeshForceCompute.local_area pd md ignore_type !!! ty
  = type_sum (AreaConservationMeshForceCompute.triangle_type ignore_type)
      (fun tri => AreaConservationMeshForceCompute.area_tri pd tri.1)
      ty (h_triangles md).
Proof.
  intros Hdd Hty. unfold AreaConservationMeshForceCompute.local_area.
  destruct (foldl_accumulate (AreaConservationMeshForceCompute.area_step pd ignore_type)
              (AreaConservationMeshForceCompute.triangle_type ignore_type)
              (fun tri => AreaConservationMeshForceCompute.area_tri pd tri.1)
              (h_triangles md)) with (g := replicate (getNTypes md) 0) (ty := ty)
    as [_ Hsum].
  - intros g tri _. unfold AreaConservationMeshForceCompute.area_step.
    rewrite Hdd. apply length_alter.
  - intros g tri y _ Hy. unfold AreaConservationMeshForceCompute.area_step.
    rewrite Hdd. apply alter_add_lookup, Hy.
  - rewrite length_replicate. exact Hty.
  - rewrite Hsum, lookup_total_zeros. lra.
Qed.

Lemma length_local_area pd md ignore_type :
  length (AreaConservationMeshForceCompute.local_area pd md ignore_type)
  = getNTypes md.
Proof.
  unfold AreaConservationMeshForceCompute.local_area.
  generalize (h_triangles md). intros tris.
  assert (H : forall g, length (foldl (AreaConservationMeshForceCompute.area_step pd
                                         ignore_type) g tris) = length g).
  { induction tris as [|tri tris IH]; intros g; simpl; [reflexivity|].
    rewrite IH. unfold AreaConservationMeshForceCompute.area_step.
    destruct (getDomainDecomposition pd), (idx_a pd tri.1 <? getN pd)%nat,
      (idx_b pd tri.1 <? getN pd)%nat, (idx_c pd tri.1 <? getN pd)%nat;
      rewrite ?length_alter; reflexivity. }
  rewrite H. apply length_replicate.
Qed.

Lemma sum_R_type_sum {A : Type} key (F : A -> members_t * nat -> R) ty tris
    (ranks : list A) :
  sum_R (map (fun r => type_sum key (F r) ty tris) ranks)
  = type_sum key (fun tri => sum_R (map (fun r => F r tri) ranks)) ty tris.
Proof.
  unfold type_sum. induction tris as [|tri tris IH]; simpl.
  - induction ranks as [|r ranks IHr]; simpl; [reflexivity | rewrite IHr; lra].
  - rewrite <- IH. clear IH.
    induction ranks as [|r ranks IHr]; simpl.
    + destruct (decide (key tri = ty)); lra.
    + rewrite IHr. destruct (decide (key tri = ty)); lra.
Qed.

Lemma sum_R_scale {A : Type} (c : A -> R) (d : R) (ranks : list A) :
  sum_R (map (fun r => c r * d) ranks) = sum_R (map c ranks) * d.
Proof. induction ranks as [|r ranks IH]; simpl; [lra | rewrite IH; lra]. Qed.

Lemma sum_R_plus {A : Type} (f h : A -> R) (l : list A) :
  sum_R (map (fun r => f r + h r) l) = sum_R (map f l) + sum_R (map h l).
Proof. induction l as [|r l IH]; simpl; [lra | rewrite IH; lra]. Qed.

Lemma sum_R_ext {A : Type} (f h : A -> R) (l : list A) :
  (forall r, r ∈ l -> f r = h r) -> sum_R (map f l) = sum_R (map h l).
Proof.
  induction l as [|r l IH]; intros Hext; simpl; [reflexivity|].
  rewrite IH by (intros r' Hin; apply Hext, list_elem_of_further, Hin).
  rewrite (Hext r) by apply list_elem_of_here. reflexivity.
Qed.

Lemma sum_R_owners (ranks : list (ParticleData * MeshDefinition)) (tag : nat) :
  sum_R (map (fun r => INR (if owns_tag r.1 tag then 1 else 0)) ranks)
  = INR (length (owners ranks tag)).
Proof.
  unfold owners. induction ranks as [|r ranks IH]; [reflexivity|].
  rewrite filter_cons. cbn [map sum_R foldr]. fold (sum_R) in *.
  change (foldr Rplus 0 (map (fun r => INR (if owns_tag r.1 tag then 1 else 0)) ranks))
    with (sum_R (map (fun r => INR (if owns_tag r.1 tag then 1 else 0)) ranks)).
  rewrite IH. destruct (decide (owns_tag r.1 tag = true)) as [Ho|Ho].
  - rewrite Ho. cbn [length]. rewrite !S_INR. simpl INR. lra.
  - destruct (owns_tag r.1 tag); [congruence|]. simpl INR. lra.
Qed.

Lemma owned_count_tags pd t :
  INR (owned_count pd t)
  = INR (if owns_tag pd (tag0 t) then 1 else 0)
    + INR (if owns_tag pd (tag1 t) then 1 else 0)
    + INR (if owns_tag pd (tag2 t) then 1 else 0).
Proof. unfold owned_count. rewrite !plus_INR. reflexivity. Qed.

Lemma sum_R_owned_count (ranks : list (ParticleData * MeshDefinition))
    (mesh : list (members_t * nat)) (tri : members_t * nat) :
  vertex_partition mesh ranks -> tri ∈ mesh ->
  sum_R (map (fun r => INR (owned_count r.1 tri.1)) ranks) = 3.
Proof.
  intros Hpart Hin. destruct (Hpart tri Hin) as (H0 & H1 & H2).
  rewrite (sum_R_ext _ (fun r => INR (if owns_tag r.1 (tag0 tri.1) then 1 else 0)
                                 + INR (if owns_tag r.1 (tag1 tri.1) then 1 else 0)
                                 + INR (if owns_tag r.1 (tag2 tri.1) then 1 else 0)))
    by (intros r _; apply owned_count_tags).
  rewrite (sum_R_plus (fun r => INR (if owns_tag r.1 (tag0 tri.1) then 1 else 0)
                                + INR (if owns_tag r.1 (tag1 tri.1) then 1 else 0))).
  rewrite sum_R_plus, !sum_R_owners, H0, H1, H2. simpl INR. lra.
Qed.

Lemma owned_count_zero pd t :
  owns_vertex_of pd t = false -> owned_count pd t = 0%nat.
Proof.
  unfold owns_vertex_of, owned_count, owns_tag, idx_a, idx_b, idx_c.
  destruct (h_rtag pd !!! tag0 t <? getN pd)%nat,
    (h_rtag pd !!! tag1 t <? getN pd)%nat, (h_rtag pd !!! tag2 t <? getN pd)%nat;
    simpl; intros H; congruence.
Qed.

(** The areas that a rank contributes are those of the mesh of the
    single-rank run, weighted by the number of vertices that it owns. *)
Lemma rank_contribution pd0 md0 r ignore_type ty :
  rank_view pd0 md0 r ->
  (ty < getNTypes md0)%nat ->
  AreaConservationMeshForceCompute.local_area r.1 r.2 ignore_type !!! ty
  = type_sum (AreaConservationMeshForceCompute.triangle_type ignore_type)
      (fun tri => INR (owned_count r.1 tri.1)
                  * (AreaConservationMeshForceCompute.area_tri pd0 tri.1 / 3))
      ty (h_triangles md0).
Proof.
  intros (Hdd & Hn & (keep & Htris & Hkeep) & Harea) Hty.
  rewrite local_area_decomposed by (exact Hdd || rewrite Hn; exact Hty).
  rewrite Htris, type_sum_filter. apply type_sum_ext. intros tri Hin _.
  destruct (owns_vertex_of r.1 tri.1) eqn:Hown.
  - rewrite Hkeep, Harea by assumption. reflexivity.
  - rewrite owned_count_zero by exact Hown. simpl INR.
    destruct (keep tri); lra.
Qed.

Lemma map_seq_lookup_total (f : nat -> R) (n i : nat) :
  (i < n)%nat -> map f (seq 0 n) !!! i = f i.
Proof.
  intros Hi. apply list_lookup_total_correct.
  change (map f (seq 0 n)) with (f <$> seq 0 n).
  rewrite list_lookup_fmap, lookup_seq_lt by exact Hi. reflexivity.
Qed.

Lemma world_area_lookup n ignore_type ranks ty :
  (ty < n)%nat ->
  world_area n ignore_type ranks !!! ty
  = sum_R (map (fun r => AreaConservationMeshForceCompute.local_area r.1 r.2
                           ignore_type !!! ty) ranks).
Proof.
  intros Hty. unfold world_area, allreduce_sum.
  rewrite map_seq_lookup_total by exact Hty. rewrite map_map. reflexivity.
Qed.

Lemma length_world_area n ignore_type ranks :
  length (world_area n ignore_type ranks) = n.
Proof. unfold world_area, allreduce_sum. rewrite length_map, length_seq. reflexivity. Qed.

Lemma list_eq_lookup_total (l k : list R) (n : nat) :
  length l = n -> length k = n ->
  (forall i, (i < n)%nat -> l !!! i = k !!! i) -> l = k.
Proof.
  intros Hl Hk Heq. apply (list_eq_same_length l k n); [exact Hk | exact Hl |].
  intros i u w Hi Hu Hw.
  rewrite <- (list_lookup_total_correct l i u Hu), <- (list_lookup_total_correct k i w Hw).
  apply Heq, Hi.
Qed.

(** C4.  The aggregate area does not depend on the partition.  Let the
    ranks of a domain-decomposed run each hold the triangles of a mesh of
    which they own a vertex (and possibly more), with the areas that the
    single-rank run computes for them, and let every vertex of the mesh
    have exactly one owner.  Then the thirds of the triangle areas that
    the ranks accumulate for their owned vertices, summed over the ranks
    type by type, are the per-type areas of the single-rank run, which
    adds every triangle area once; and on a rank whose reduction returns
    these sums [precomputeParameter] stores the areas that it stores in
    the single-rank run. *)
Theorem area_aggregation_partition_invariant
    (pd0 : ParticleData) (md0 : MeshDefinition)
    (ranks : list (ParticleData * MeshDefinition)) (ignore_type : bool) :
  getDomainDecomposition pd0 = false ->
  (forall r, r ∈ ranks -> rank_view pd0 md0 r) ->
  vertex_partition (h_triangles md0) ranks ->
  world_area (getNTypes md0) ignore_type ranks
  = AreaConservationMeshForceCompute.local_area pd0 md0 ignore_type
  /\ forall r (o : AreaConservationMeshForceCompute.t),
       r ∈ ranks ->
       AreaConservationMeshForceCompute.m_ignore_type o = ignore_type ->
       MPI_Allreduce_SUM r.1
         (AreaConservationMeshForceCompute.local_area r.1 r.2 ignore_type)
       = world_area (getNTypes md0) ignore_type ranks ->
       AreaConservationMeshForceCompute.m_area
         (AreaConservationMeshForceCompute.precomputeParameter r.1 r.2 o)
       = AreaConservationMeshForceCompute.m_area
           (AreaConservationMeshForceCompute.precomputeParameter pd0 md0 o).
Proof.
  intros Hdd0 Hviews Hpart.
  assert (Hworld : world_area (getNTypes md0) ignore_type ranks
                   = AreaConservationMeshForceCompute.local_area pd0 md0 ignore_type).
  { apply (list_eq_lookup_total _ _ (getNTypes md0)).
    - apply length_world_area.
    - apply length_local_area.
    - intros ty Hty. rewrite world_area_lookup by exact Hty.
      rewrite (sum_R_ext _
                 (fun r => type_sum
                             (AreaConservationMeshForceCompute.triangle_type ignore_type)
                             (fun tri => INR (owned_count r.1 tri.1)
                                * (AreaConservationMeshForceCompute.area_tri pd0 tri.1 / 3))
                             ty (h_triangles md0)))
        by (intros r Hr; apply rank_contribution; auto).
      rewrite (sum_R_type_sum
                 (AreaConservationMeshForceCompute.triangle_type ignore_type)
                 (fun r tri => INR (owned_count r.1 tri.1)
                               * (AreaConservationMeshForceCompute.area_tri pd0 tri.1 / 3))).
      rewrite local_area_single_rank by assumption.
      apply type_sum_ext. intros tri Hin _.
      rewrite sum_R_scale, (sum_R_owned_count ranks (h_triangles md0)) by assumption.
      field. }
  split; [exact Hworld|].
  intros r o Hr Hig Hcomm.
  destruct (Hviews r Hr) as (Hdd & Hn & _).
  unfold AreaConservationMeshForceCompute.precomputeParameter,
    AreaConservationMeshForceCompute.reduced_area.
  cbn [AreaConservationMeshForceCompute.set_area AreaConservationMeshForceCompute.m_area].
  rewrite Hig, Hdd, Hdd0, Hn, Hcomm, Hworld. reflexivity.
Qed.

Lemma two_ranks_views :
  forall r, r ∈ two_ranks -> rank_view triangle_pd triangle_md r.
Proof.
  intros r Hr. unfold two_ranks in Hr.
  apply elem_of_cons in Hr as [-> | Hr]; [|apply list_elem_of_singleton in Hr; subst r].
  all: split; [reflexivity|]; split; [reflexivity|]; split.
  all: try (exists (fun _ => true); split; [reflexivity | reflexivity]).
  all: intros tri Hin _; apply list_elem_of_singleton in Hin; subst tri; reflexivity.
Qed.

Lemma two_ranks_partition : vertex_partition (h_triangles triangle_md) two_ranks.
Proof.
  intros tri Hin. apply list_elem_of_singleton in Hin. subst tri.
  repeat split; reflexivity.
Qed.

Lemma area_aggregation_partition_invariant_witness :
  world_area (getNTypes triangle_md) false two_ranks
  = AreaConservationMeshForceCompute.local_area triangle_pd triangle_md false
  /\ AreaConservationMeshForceCompute.m_area
       (AreaConservationMeshForceCompute.precomputeParameter rank_A triangle_md
          (whole_10_half 3))
     = AreaConservationMeshForceCompute.m_area
         (AreaConservationMeshForceCompute.precomputeParameter triangle_pd triangle_md
            (whole_10_half 3)).
Proof.
  destruct (area_aggregation_partition_invariant triangle_pd triangle_md two_ranks false)
    as [Hworld Hrank].
  - reflexivity.
  - exact two_ranks_views.
  - exact two_ranks_partition.
  - split; [exact Hworld|].
    apply (Hrank (rank_A, triangle_md) (whole_10_half 3)).
    + apply list_elem_of_here.
    + reflexivity.
    + reflexivity.
Defined.

(** ** Setting the parameters *)

(** C9.  In the whole-mesh variant with single-type collapse,
    [setParams(type, K, A0)] for a type other than 0 returns the object
    as it is: no parameter is stored and no warning is sent, whatever [K]
    and [A0] are. *)
Theorem setParams_collapsed_other_type_is_noop
    (o : AreaConservationMeshForceCompute.t) (type : nat) (K A0 : Scalar) :
  AreaConservationMeshForceCompute.m_ignore_type o = true ->
  type <> 0%nat ->
  AreaConservationMeshForceCompute.setParams o type K A0 = Ok o.
Proof.
  intros Hig Hty. unfold AreaConservationMeshForceCompute.setParams.
  rewrite Hig. destruct (Nat.eqb_spec type 0); [contradiction|]. reflexivity.
Qed.

Lemma setParams_collapsed_other_type_is_noop_witness :
  AreaConservationMeshForceCompute.setParams (collapsed_12_2 4) 1 (-1) 0
  = Ok (collapsed_12_2 4).
Proof.
  apply setParams_collapsed_other_type_is_noop; [reflexivity | lia].
Defined.

Lemma new_warnings_cons (about_K about_A0 : string) (K A0 : Scalar) (l : list string) :
  (if Rle_dec A0 0 then about_A0 :: (if Rle_dec K 0 then about_K :: l else l)
   else (if Rle_dec K 0 then about_K :: l else l))
  = new_warnings about_K about_A0 K A0 ++ l.
Proof. unfold new_warnings. destruct (Rle_dec A0 0), (Rle_dec K 0); reflexivity. Qed.

(** C7, amended.  For a type of the mesh and all [K] and [A0],
    [setParams] returns normally in both variants.  In the per-triangle
    variant, and in the whole-mesh variant when the types are
    distinguished or the type is 0, it stores the given values
    ([getParams] returns them), it sends one warning for [K <= 0] and one
    for [A0 <= 0] and nothing else, and a following [computeForces] runs
    with these values.  In the whole-mesh variant under single-type
    collapse and for a type other than 0 it returns the object as it is:
    nothing is stored and no warning is sent. *)
Theorem setParams_returns_normally (md : MeshDefinition) (type : nat) (K A0 : Scalar) :
  (type < getNTypes md)%nat ->
  (forall o : TriangleAreaConservationMeshForceCompute.t,
      TriangleAreaConservationMeshForceCompute.constructed md o ->
      exists o',
        TriangleAreaConservationMeshForceCompute.setParams o type K A0 = Ok o'
        /\ TriangleAreaConservationMeshForceCompute.getParams md o' type = Ok (K, A0)
        /\ TriangleAreaConservationMeshForceCompute.warnings o'
           = new_warnings "TriangleAreaConservation: specified K <= 0"
                          "TriangleAreaConservation: specified A0 <= 0" K A0
             ++ TriangleAreaConservationMeshForceCompute.warnings o
        /\ forall pd,
           let o'' := TriangleAreaConservationMeshForceCompute.computeForces pd md o' in
           TriangleAreaConservationMeshForceCompute.m_K o'' !!! type = K
           /\ TriangleAreaConservationMeshForceCompute.m_A0 o'' !!! type = A0)
  /\ (forall o : AreaConservationMeshForceCompute.t,
      AreaConservationMeshForceCompute.constructed md o ->
      returns_normally (AreaConservationMeshForceCompute.setParams o type K A0)
      /\ (AreaConservationMeshForceCompute.m_ignore_type o = false \/ type = 0%nat ->
          exists o',
            AreaConservationMeshForceCompute.setParams o type K A0 = Ok o'
            /\ AreaConservationMeshForceCompute.getParams md o' type = Ok (K, A0)
            /\ AreaConservationMeshForceCompute.warnings o'
               = new_warnings "area: specified K <= 0" "area: specified A0 <= 0" K A0
                 ++ AreaConservationMeshForceCompute.warnings o
            /\ forall pd,
               let o'' := AreaConservationMeshForceCompute.computeForces pd md o' in
               AreaConservationMeshForceCompute.m_K o'' !!! type = K
               /\ AreaConservationMeshForceCompute.m_A0 o'' !!! type = A0)
      /\ (AreaConservationMeshForceCompute.m_ignore_type o = true ->
          type <> 0%nat ->
          AreaConservationMeshForceCompute.setParams o type K A0 = Ok o)).
Proof.
  intros Hty. split.
  - intros o (HK & HA & _).
    exists (if Rle_dec A0 0
            then TriangleAreaConservationMeshForceCompute.warning
                   (if Rle_dec K 0
                    then TriangleAreaConservationMeshForceCompute.warning
                           (TriangleAreaConservationMeshForceCompute.set_K_A0 o type K A0)
                           "TriangleAreaConservation: specified K <= 0"
                    else TriangleAreaConservationMeshForceCompute.set_K_A0 o type K A0)
                   "TriangleAreaConservation: specified A0 <= 0"
            else (if Rle_dec K 0
                  then TriangleAreaConservationMeshForceCompute.warning
                         (TriangleAreaConservationMeshForceCompute.set_K_A0 o type K A0)
                         "TriangleAreaConservation: specified K <= 0"
                  else TriangleAreaConservationMeshForceCompute.set_K_A0 o type K A0)).
    split; [reflexivity|].
    assert (HKl : <[type:=K]> (TriangleAreaConservationMeshForceCompute.m_K o) !!! type = K)
      by (apply list_lookup_total_insert_eq; lia).
    assert (HAl : <[type:=A0]> (TriangleAreaConservationMeshForceCompute.m_A0 o) !!! type = A0)
      by (apply list_lookup_total_insert_eq; lia).
    unfold TriangleAreaConservationMeshForceCompute.getParams.
    destruct (Nat.leb_spec (getNTypes md) type); [lia|].
    rewrite <- new_warnings_cons.
    destruct (Rle_dec A0 0), (Rle_dec K 0); cbn; rewrite HKl, HAl; auto.
  - intros o (HK & HA & _). split; [|split].
    + unfold AreaConservationMeshForceCompute.setParams.
      destruct (_ || _); exact I.
    + intros Hmode.
      assert (Hn : (type < AreaConservationMeshForceCompute.n_alloc md
                             (AreaConservationMeshForceCompute.m_ignore_type o))%nat).
      { unfold AreaConservationMeshForceCompute.n_alloc.
        destruct Hmode as [-> | ->]; [lia|].
        destruct (AreaConservationMeshForceCompute.m_ignore_type o); lia. }
      assert (Hcond : negb (AreaConservationMeshForceCompute.m_ignore_type o)
                      || (type =? 0)%nat = true).
      { destruct Hmode as [-> | ->]; [reflexivity|]. apply orb_true_r. }
      assert (Hidx : (if AreaConservationMeshForceCompute.m_ignore_type o
                      then 0%nat else type) = type).
      { destruct Hmode as [-> | ->]; [reflexivity|].
        destruct (AreaConservationMeshForceCompute.m_ignore_type o); reflexivity. }
      unfold AreaConservationMeshForceCompute.setParams. rewrite Hcond.
      eexists. split; [reflexivity|].
      assert (HKl : <[type:=K]> (AreaConservationMeshForceCompute.m_K o) !!! type = K)
        by (apply list_lookup_total_insert_eq; lia).
      assert (HAl : <[type:=A0]> (AreaConservationMeshForceCompute.m_A0 o) !!! type = A0)
        by (apply list_lookup_total_insert_eq; lia).
      unfold AreaConservationMeshForceCompute.getParams.
      destruct (Nat.leb_spec (getNTypes md) type); [lia|].
      rewrite <- new_warnings_cons.
      destruct (Rle_dec A0 0), (Rle_dec K 0); cbn; rewrite Hidx, HKl, HAl; auto.
    + intros Hig Hne. unfold AreaConservationMeshForceCompute.setParams.
      rewrite Hig. destruct (Nat.eqb_spec type 0); [contradiction|]. reflexivity.
Qed.

Lemma setParams_returns_normally_witness :
  (exists o',
      TriangleAreaConservationMeshForceCompute.setParams per_triangle_two_types 1 5 (-3)
      = Ok o'
      /\ TriangleAreaConservationMeshForceCompute.getParams two_type_md o' 1
         = Ok (5, -3))
  /\ returns_normally
       (AreaConservationMeshForceCompute.setParams whole_two_types 1 5 (-3))
  /\ (exists o',
         AreaConservationMeshForceCompute.setParams whole_two_types 1 5 (-3) = Ok o'
         /\ AreaConservationMeshForceCompute.getParams two_type_md o' 1 = Ok (5, -3))
  /\ AreaConservationMeshForceCompute.setParams (collapsed_12_2 4) 1 5 (-3)
     = Ok (collapsed_12_2 4).
Proof.
  destruct (setParams_returns_normally two_type_md 1 5 (-3)) as [Ht Hw];
    [cbn; lia|].
  split; [|split; [|split]].
  - destruct (Ht per_triangle_two_types) as (o' & Hset & Hget & _);
      [repeat split|].
    exists o'. split; assumption.
  - destruct (Hw whole_two_types) as (Hret & _); [repeat split|]. exact Hret.
  - destruct (Hw whole_two_types) as (_ & Hstore & _); [repeat split|].
    destruct Hstore as (o' & Hset & Hget & _); [left; reflexivity|].
    exists o'. split; assumption.
  - destruct (Hw (collapsed_12_2 4)) as (_ & _ & Hnoop); [repeat split|].
    apply Hnoop; [reflexivity | lia].
Defined.

(** C7 as stated fails.  A whole-mesh object with single-type collapse on
    a mesh with two types: type 1 is a type of the mesh, but
    [setParams(1, 5, 3)] stores nothing, and [getParams(1)] still returns
    the [K = 12] and [A0 = 2] of type 0. *)
Lemma setParams_counterexample :
  AreaConservationMeshForceCompute.constructed two_type_md (collapsed_12_2 4)
  /\ (1 < getNTypes two_type_md)%nat
  /\ ~ whole_stores_given_values two_type_md (collapsed_12_2 4) 1 5 3.
Proof.
  split; [repeat split|]. split; [simpl; lia|].
  intros (o' & Hset & Hget).
  change (Ok (collapsed_12_2 4) = Ok o') in Hset.
  injection Hset as <-. cbv in Hget. injection Hget as H12 H2. lra.
Qed.

(** ** The error flag of the accelerator path *)

Section Accelerator.
Import AreaConservationMeshForceComputeGPU.

Lemma land_1_testbit (w : Z) : negb (Z.land w 1 =? 0)%Z = Z.testbit w 0.
Proof.
  change 1%Z with (Z.ones 1). rewrite Z.land_ones by lia.
  rewrite Z.bit0_odd, Zmod_odd. change (2 ^ 1)%Z with 2%Z.
  destruct (Z.odd w); reflexivity.
Qed.

Ltac events_step :=
  cbn [trace log launch fst snd m_prof m_flags base m_params tuner_param].

Lemma reads_flags_back_intro (o o' : t) (evs : list event) (word : Z) :
  trace o' = evs ++ trace o -> flags_read_back word ∈ evs -> reads_flags_back o o'.
Proof. intros H1 H2. exists evs, word. split; assumption. Qed.

Lemma reads_flags_back_elim (o o' : t) (evs : list event) :
  trace o' = evs ++ trace o -> reads_flags_back o o' ->
  exists word, flags_read_back word ∈ evs.
Proof.
  intros H1 (evs' & word & H2 & H3). exists word.
  rewrite H1 in H2. apply app_inv_tail in H2. subst evs'. exact H3.
Qed.

Lemma cons_app_eq {A : Type} (e : A) (l evs tl : list A) :
  l = evs ++ tl -> e :: l = (e :: evs) ++ tl.
Proof. intros ->. reflexivity. Qed.

Ltac split_events :=
  events_step; repeat eapply cons_app_eq; exact (eq_refl : _ = [] ++ _).

(** C6, amended.  In [computeForces] of the accelerator path the flags
    word is read back on the host only when error checking is enabled.
    With checking enabled the call first checks the device error state,
    [CHECK_CUDA_ERROR()].  When that check passes, the word is read back
    and the call throws if and only if bit 0 of the word is set, and then
    it throws the runtime error of the triangle check.  When that check
    fails, its error is the outcome of the call and the word is not read
    back.  With checking disabled the call returns normally whatever the
    word is. *)
Theorem gpu_error_flag_check (ec : ExecutionConfiguration) (pd : ParticleData)
    (md : MeshDefinition) (o : t) :
  let after := (computeForces ec pd md o).1 in
  let outcome := (computeForces ec pd md o).2 in
  (reads_flags_back o after -> isCUDAErrorCheckingEnabled ec = true)
  /\ (isCUDAErrorCheckingEnabled ec = false -> outcome = Ok tt)
  /\ (isCUDAErrorCheckingEnabled ec = true -> CHECK_CUDA_ERROR ec = Ok tt ->
      reads_flags_back o after
      /\ (raises outcome <-> Z.testbit (m_flags after !!! 0%nat) 0 = true)
      /\ (outcome = Raise "Error in meshtriangle calculation"
          \/ outcome = Ok tt))
  /\ (isCUDAErrorCheckingEnabled ec = true ->
      forall what, CHECK_CUDA_ERROR ec = Raise what ->
      outcome = Raise what /\ ~ reads_flags_back o after).
Proof.
  destruct o as [b params flags prof tp tr].
  unfold computeForces.
  destruct (isCUDAErrorCheckingEnabled ec) eqn:Hcheck.
  - split; [reflexivity|]. split; [discriminate|]. split.
    + intros _ Hcuda. rewrite Hcuda, land_1_testbit.
      destruct prof; events_step.
      all: destruct (Z.testbit _ 0) eqn:Hbit; events_step; rewrite ?Hbit.
      all: split; [|split; [simpl; intuition congruence| auto]].
      all: eapply reads_flags_back_intro;
        [ split_events
        | repeat first [ apply list_elem_of_here | apply list_elem_of_further ] ].
    + intros _ what Hcuda. rewrite Hcuda.
      destruct prof; events_step; (split; [reflexivity|]); intros Hread.
      * apply (reads_flags_back_elim _ _
                 [check_cuda_error; kernel_launch tp; tuner_begin; prof_push])
          in Hread; [|reflexivity].
        destruct Hread as [w Hw].
        repeat (apply elem_of_cons in Hw as [Hw|Hw]; [discriminate|]).
        apply elem_of_nil in Hw. exact Hw.
      * apply (reads_flags_back_elim _ _
                 [check_cuda_error; kernel_launch tp; tuner_begin])
          in Hread; [|reflexivity].
        destruct Hread as [w Hw].
        repeat (apply elem_of_cons in Hw as [Hw|Hw]; [discriminate|]).
        apply elem_of_nil in Hw. exact Hw.
  - split; [|split; [|split; discriminate]].
    + intros Hread. exfalso. destruct prof; revert Hread; events_step; intros Hread.
      * apply (reads_flags_back_elim _ _
                 [prof_pop; tuner_end; kernel_launch tp; tuner_begin; prof_push])
          in Hread; [|reflexivity].
        destruct Hread as [w Hw].
        repeat (apply elem_of_cons in Hw as [Hw|Hw]; [discriminate|]).
        apply elem_of_nil in Hw. exact Hw.
      * apply (reads_flags_back_elim _ _ [tuner_end; kernel_launch tp; tuner_begin])
          in Hread; [|reflexivity].
        destruct Hread as [w Hw].
        repeat (apply elem_of_cons in Hw as [Hw|Hw]; [discriminate|]).
        apply elem_of_nil in Hw. exact Hw.
    + intros _. destruct prof; reflexivity.
Qed.

Lemma gpu_error_flag_check_witness :
  let after := (computeForces checking_ec triangle_pd triangle_md gpu_object).1 in
  let outcome := (computeForces checking_ec triangle_pd triangle_md gpu_object).2 in
  reads_flags_back gpu_object after
  /\ (raises outcome <-> Z.testbit (m_flags after !!! 0%nat) 0 = true)
  /\ (outcome = Raise "Error in meshtriangle calculation" \/ outcome = Ok tt).
Proof.
  apply (proj1 (proj2 (proj2 (gpu_error_flag_check checking_ec triangle_pd
                                triangle_md gpu_object)))); reflexivity.
Defined.

(** C6 as stated fails.  Error checking is enabled, the kernel leaves the
    flags word 0, and the check of the device error state fails: the call
    throws, though no flags word is read back and bit 0 of the flags
    word is clear. *)
Lemma gpu_error_flag_check_counterexample :
  let after := (computeForces device_fault_ec triangle_pd triangle_md gpu_object).1 in
  let outcome := (computeForces device_fault_ec triangle_pd triangle_md gpu_object).2 in
  isCUDAErrorCheckingEnabled device_fault_ec = true
  /\ raises outcome
  /\ ~ reads_flags_back gpu_object after
  /\ Z.testbit (m_flags after !!! 0%nat) 0 = false.
Proof.
  cbv zeta. split; [reflexivity|]. split; [exact I|]. split; [|reflexivity].
  intros Hread.
  apply (reads_flags_back_elim _ _
           [check_cuda_error; kernel_launch 32; tuner_begin]) in Hread;
    [|reflexivity].
  destruct Hread as [w Hw].
  repeat (apply elem_of_cons in Hw as [Hw|Hw]; [discriminate|]).
  apply elem_of_nil in Hw. exact Hw.
Qed.

End Accelerator.

(** ** The clamp of the cosine *)

Lemma clamp_cos_range (c : R) : -1 <= clamp_cos c <= 1.
Proof.
  unfold clamp_cos. destruct (Rgt_dec c 1); destruct (Rlt_dec _ (-1)); lra.
Qed.

Lemma angle_terms_bounds (dab dac : Scalar3) :
  let g := angle_of dab dac in
  0 <= rab g /\ 0 <= rac g /\ -1 <= c_baac g <= 1 /\ 0 <= s_baac g <= 1
  /\ s_baac g * s_baac g + c_baac g * c_baac g = 1.
Proof.
  unfold angle_of. cbn [rab rac c_baac s_baac].
  set (c := clamp_cos _).
  assert (Hc : -1 <= c <= 1) by apply clamp_cos_range.
  assert (Hq : 0 <= 1 - c * c) by nra.
  repeat split; try apply sqrt_pos; try lra.
  - rewrite <- sqrt_1 at 2. apply sqrt_le_1_alt. nra.
  - rewrite sqrt_sqrt by exact Hq. ring.
Qed.

(** ** The aggregate area of the whole-mesh variant *)

Lemma area_tri_nonneg pd t : 0 <= AreaConservationMeshForceCompute.area_tri pd t.
Proof.
  unfold AreaConservationMeshForceCompute.area_tri. cbv zeta.
  destruct (angle_terms_bounds (area_dab pd t) (area_dac pd t))
    as (Hab & Hac & _ & [Hs _] & _).
  assert (0 <= rab (angle_of (area_dab pd t) (area_dac pd t))
               * rac (angle_of (area_dab pd t) (area_dac pd t))) by nra.
  nra.
Qed.

Lemma force_area_nonneg pd t : 0 <= force_area pd t.
Proof.
  unfold force_area. cbv zeta.
  destruct (angle_terms_bounds (force_dab pd t) (force_dac pd t))
    as (Hab & Hac & _ & [Hs _] & _).
  assert (0 <= rab (angle_of (force_dab pd t) (force_dac pd t))
               * rac (angle_of (force_dab pd t) (force_dac pd t))) by nra.
  nra.
Qed.

Lemma type_sum_nonneg key f ty tris :
  (forall tri, tri ∈ tris -> 0 <= f tri) -> 0 <= type_sum key f ty tris.
Proof.
  unfold type_sum, sum_R. induction tris as [|tri tris IH]; intros Hf; simpl; [lra|].
  assert (0 <= f tri) by apply Hf, list_elem_of_here.
  assert (0 <= foldr Rplus 0
                  (map (fun tri => if decide (key tri = ty) then f tri else 0) tris))
    by (apply IH; intros t Hin; apply Hf, list_elem_of_further, Hin).
  destruct (decide (key tri = ty)); lra.
Qed.

(** The area that [precomputeParameter] stores on a single rank. *)
Lemma whole_area_single_rank pd md o ty :
  getDomainDecomposition pd = false ->
  (ty < getNTypes md)%nat ->
  (ty < length (AreaConservationMeshForceCompute.m_area o))%nat ->
  AreaConservationMeshForceCompute.m_area
    (AreaConservationMeshForceCompute.precomputeParameter pd md o) !!! ty
  = type_sum (AreaConservationMeshForceCompute.triangle_type
                (AreaConservationMeshForceCompute.m_ignore_type o))
      (fun tri => AreaConservationMeshForceCompute.area_tri pd tri.1)
      ty (h_triangles md).
Proof.
  intros Hdd Hty Hlen.
  unfold AreaConservationMeshForceCompute.precomputeParameter,
    AreaConservationMeshForceCompute.reduced_area.
  cbn [AreaConservationMeshForceCompute.set_area AreaConservationMeshForceCompute.m_area].
  rewrite Hdd.
  destruct (copy_area_spec (getNTypes md)
              (AreaConservationMeshForceCompute.local_area pd md
                 (AreaConservationMeshForceCompute.m_ignore_type o))
              (AreaConservationMeshForceCompute.m_area o)) as [_ Hcopy].
  rewrite Hcopy by exact Hlen. destruct (decide (ty < getNTypes md)%nat); [|lia].
  apply local_area_single_rank; assumption.
Qed.

(** X1.  After the whole-mesh [computeForces] on a single rank, the area
    that [getArea] reports for a type of the mesh, an index of the area
    array, is the sum of the areas of the triangles of that type; under
    single-type collapse, index 0 holds the sum over all the triangles.
    The reported area is never negative. *)
Theorem whole_mesh_area_is_sum_of_triangle_areas
    (pd : ParticleData) (md : MeshDefinition)
    (o : AreaConservationMeshForceCompute.t) (ty : nat) :
  getDomainDecomposition pd = false ->
  (ty < getNTypes md)%nat ->
  (ty < length (AreaConservationMeshForceCompute.m_area o))%nat ->
  let o' := AreaConservationMeshForceCompute.computeForces pd md o in
  (AreaConservationMeshForceCompute.m_ignore_type o = false ->
   AreaConservationMeshForceCompute.getArea o' ty
   = sum_R (map (fun tri => AreaConservationMeshForceCompute.area_tri pd tri.1)
                (filter (fun tri => tri.2 = ty) (h_triangles md))))
  /\ (AreaConservationMeshForceCompute.m_ignore_type o = true -> ty = 0%nat ->
      AreaConservationMeshForceCompute.getArea o' ty
      = sum_R (map (fun tri => AreaConservationMeshForceCompute.area_tri pd tri.1)
                   (h_triangles md)))
  /\ 0 <= AreaConservationMeshForceCompute.getArea o' ty.
Proof.
  intros Hdd Hty Hlen o'.
  assert (Harea : AreaConservationMeshForceCompute.getArea o' ty
                  = type_sum (AreaConservationMeshForceCompute.triangle_type
                                (AreaConservationMeshForceCompute.m_ignore_type o))
                      (fun tri => AreaConservationMeshForceCompute.area_tri pd tri.1)
                      ty (h_triangles md))
    by (apply whole_area_single_rank; assumption).
  split; [|split].
  - intros Hig. rewrite Harea, Hig. apply type_sum_filter_key.
  - intros Hig ->. rewrite Harea, Hig. unfold type_sum.
    reflexivity.
  - rewrite Harea. apply type_sum_nonneg. intros tri _. apply area_tri_nonneg.
Qed.

Lemma whole_mesh_area_is_sum_of_triangle_areas_witness :
  let o' := AreaConservationMeshForceCompute.computeForces square_pd square_md
              (collapsed_12_2 4) in
  AreaConservationMeshForceCompute.getArea o' 0
  = sum_R (map (fun tri => AreaConservationMeshForceCompute.area_tri square_pd tri.1)
               (h_triangles square_md))
  /\ 0 <= AreaConservationMeshForceCompute.getArea o' 0.
Proof.
  destruct (whole_mesh_area_is_sum_of_triangle_areas square_pd square_md
              (collapsed_12_2 4) 0) as (_ & Hall & Hpos);
    [reflexivity | cbn; lia | cbn; lia |].
  split; [apply Hall; reflexivity | exact Hpos].
Defined.

(** ** Calling [computeForces] again *)

Lemma copy_area_again (n : nat) (ga ma : list R) :
  AreaConservationMeshForceCompute.copy_area n ga
    (AreaConservationMeshForceCompute.copy_area n ga ma)
  = AreaConservationMeshForceCompute.copy_area n ga ma.
Proof.
  destruct (copy_area_spec n ga ma) as [Hl Hs].
  destruct (copy_area_spec n ga (AreaConservationMeshForceCompute.copy_area n ga ma))
    as [Hl2 Hs2].
  apply (list_eq_lookup_total _ _ (length ma)); [lia | lia |].
  intros i Hi. rewrite Hs2 by lia. destruct (decide (i < n)%nat) as [Hn|Hn].
  - rewrite Hs by lia. destruct (decide (i < n)%nat); [reflexivity | lia].
  - reflexivity.
Qed.

(** An iteration reads of the object the parameters, the areas, the
    collapse flag and the pitch only. *)
Lemma whole_force_step_fields pd md o o2 ls tri :
  AreaConservationMeshForceCompute.m_K o2 = AreaConservationMeshForceCompute.m_K o ->
  AreaConservationMeshForceCompute.m_A0 o2 = AreaConservationMeshForceCompute.m_A0 o ->
  AreaConservationMeshForceCompute.m_area o2 = AreaConservationMeshForceCompute.m_area o ->
  AreaConservationMeshForceCompute.m_ignore_type o2
  = AreaConservationMeshForceCompute.m_ignore_type o ->
  AreaConservationMeshForceCompute.virial_pitch o2
  = AreaConservationMeshForceCompute.virial_pitch o ->
  AreaConservationMeshForceCompute.force_step pd md o2 ls tri
  = AreaConservationMeshForceCompute.force_step pd md o ls tri.
Proof.
  destruct o, o2. cbn. intros -> -> -> -> ->. reflexivity.
Qed.

Lemma per_triangle_force_step_fields pd o o2 ls tri :
  TriangleAreaConservationMeshForceCompute.m_K o2
  = TriangleAreaConservationMeshForceCompute.m_K o ->
  TriangleAreaConservationMeshForceCompute.m_A0 o2
  = TriangleAreaConservationMeshForceCompute.m_A0 o ->
  TriangleAreaConservationMeshForceCompute.virial_pitch o2
  = TriangleAreaConservationMeshForceCompute.virial_pitch o ->
  TriangleAreaConservationMeshForceCompute.force_step pd o2 ls tri
  = TriangleAreaConservationMeshForceCompute.force_step pd o ls tri.
Proof.
  destruct o, o2. cbn. intros -> -> ->. reflexivity.
Qed.

Lemma foldl_ext_in {A B : Type} (f g : A -> B -> A) (l : list B) (a : A) :
  (forall a b, b ∈ l -> f a b = g a b) -> foldl f a l = foldl g a l.
Proof.
  revert a. induction l as [|b l IH]; intros a Hfg; simpl; [reflexivity|].
  rewrite Hfg by apply list_elem_of_here.
  apply IH. intros a' b' Hin. apply Hfg, list_elem_of_further, Hin.
Qed.

Lemma memset0_same_length {A : Type} (zero : A) (b1 b2 : list A) :
  length b1 = length b2 -> memset0 zero b1 = memset0 zero b2.
Proof. unfold memset0. intros ->. reflexivity. Qed.

Lemma whole_loop_over_virial_length pd md o tris :
  length (AreaConservationMeshForceCompute.h_virial
            (AreaConservationMeshForceCompute.loop_over pd md o tris))
  = length (AreaConservationMeshForceCompute.m_virial o).
Proof.
  unfold AreaConservationMeshForceCompute.loop_over.
  rewrite whole_loop_virial_length. apply length_memset0.
Qed.

Lemma per_triangle_loop_over_virial_length pd md o tris :
  length (TriangleAreaConservationMeshForceCompute.h_virial
            (TriangleAreaConservationMeshForceCompute.loop_over pd md o tris))
  = length (TriangleAreaConservationMeshForceCompute.m_virial o).
Proof.
  unfold TriangleAreaConservationMeshForceCompute.loop_over.
  rewrite per_triangle_loop_virial_length. apply length_memset0.
Qed.

(** X2.  In both host variants a second call of [computeForces] on the
    same particle and mesh data leaves the object as the first call left
    it: the buffers and the areas are rebuilt from the positions and the
    parameters, and depend on nothing that the call before has written. *)
Theorem computeForces_twice_is_once (pd : ParticleData) (md : MeshDefinition) :
  (forall o : AreaConservationMeshForceCompute.t,
      AreaConservationMeshForceCompute.computeForces pd md
        (AreaConservationMeshForceCompute.computeForces pd md o)
      = AreaConservationMeshForceCompute.computeForces pd md o)
  /\ (forall o : TriangleAreaConservationMeshForceCompute.t,
      TriangleAreaConservationMeshForceCompute.computeForces pd md
        (TriangleAreaConservationMeshForceCompute.computeForces pd md o)
      = TriangleAreaConservationMeshForceCompute.computeForces pd md o).
Proof.
  split; intros o.
  - set (o1 := AreaConservationMeshForceCompute.precomputeParameter pd md o).
    set (o' := AreaConservationMeshForceCompute.computeForces pd md o).
    assert (Ho1 : AreaConservationMeshForceCompute.m_area
                    (AreaConservationMeshForceCompute.precomputeParameter pd md o')
                  = AreaConservationMeshForceCompute.m_area o1).
    { subst o' o1. unfold AreaConservationMeshForceCompute.computeForces,
        AreaConservationMeshForceCompute.precomputeParameter.
      cbn [AreaConservationMeshForceCompute.set_area
           AreaConservationMeshForceCompute.set_buffers
           AreaConservationMeshForceCompute.m_area
           AreaConservationMeshForceCompute.m_ignore_type].
      apply copy_area_again. }
    assert (Hloop : AreaConservationMeshForceCompute.loop_over pd md
                      (AreaConservationMeshForceCompute.precomputeParameter pd md o')
                      (h_triangles md)
                    = AreaConservationMeshForceCompute.loop_over pd md o1 (h_triangles md)).
    { unfold AreaConservationMeshForceCompute.loop_over.
      replace (AreaConservationMeshForceCompute.loop_init md
                 (AreaConservationMeshForceCompute.precomputeParameter pd md o'))
        with (AreaConservationMeshForceCompute.loop_init md o1).
      - apply foldl_ext_in. intros ls tri _.
        apply whole_force_step_fields; try reflexivity. exact Ho1.
      - unfold AreaConservationMeshForceCompute.loop_init. f_equal.
        + apply memset0_same_length. subst o'.
          unfold AreaConservationMeshForceCompute.computeForces.
          cbn [AreaConservationMeshForceCompute.precomputeParameter
               AreaConservationMeshForceCompute.set_area
               AreaConservationMeshForceCompute.set_buffers
               AreaConservationMeshForceCompute.m_force].
          rewrite whole_loop_over_length. reflexivity.
        + apply memset0_same_length. subst o'.
          unfold AreaConservationMeshForceCompute.computeForces.
          cbn [AreaConservationMeshForceCompute.precomputeParameter
               AreaConservationMeshForceCompute.set_area
               AreaConservationMeshForceCompute.set_buffers
               AreaConservationMeshForceCompute.m_virial].
          rewrite whole_loop_over_virial_length. reflexivity. }
    unfold AreaConservationMeshForceCompute.computeForces at 1.
    cbv zeta. rewrite Hloop.
    unfold AreaConservationMeshForceCompute.set_buffers. rewrite Ho1.
    subst o'. reflexivity.
  - set (o' := TriangleAreaConservationMeshForceCompute.computeForces pd md o).
    assert (Hloop : TriangleAreaConservationMeshForceCompute.loop_over pd md o'
                      (h_triangles md)
                    = TriangleAreaConservationMeshForceCompute.loop_over pd md o
                        (h_triangles md)).
    { unfold TriangleAreaConservationMeshForceCompute.loop_over.
      replace (TriangleAreaConservationMeshForceCompute.loop_init md o')
        with (TriangleAreaConservationMeshForceCompute.loop_init md o).
      - apply foldl_ext_in. intros ls tri _.
        apply per_triangle_force_step_fields; reflexivity.
      - unfold TriangleAreaConservationMeshForceCompute.loop_init. f_equal.
        + apply memset0_same_length. subst o'.
          unfold TriangleAreaConservationMeshForceCompute.computeForces.
          cbn [TriangleAreaConservationMeshForceCompute.m_force].
          rewrite per_triangle_loop_over_length. reflexivity.
        + apply memset0_same_length. subst o'.
          unfold TriangleAreaConservationMeshForceCompute.computeForces.
          cbn [TriangleAreaConservationMeshForceCompute.m_virial].
          rewrite per_triangle_loop_over_virial_length. reflexivity. }
    unfold TriangleAreaConservationMeshForceCompute.computeForces at 1.
    cbv zeta. rewrite Hloop.
    subst o'. unfold TriangleAreaConservationMeshForceCompute.computeForces.
    cbn [TriangleAreaConservationMeshForceCompute.m_K
         TriangleAreaConservationMeshForceCompute.m_A0
         TriangleAreaConservationMeshForceCompute.m_area
         TriangleAreaConservationMeshForceCompute.virial_pitch
         TriangleAreaConservationMeshForceCompute.warnings].
    rewrite per_triangle_copy_area, copy_area_again. reflexivity.
Qed.

(** ** The virial buffer without the pressure-tensor flag *)

Lemma virial_zero_memset buf : virial_zero (memset0 0 buf).
Proof. intros k v H. exact (memset0_lookup _ _ _ _ H). Qed.

Lemma virial_add_zero pitch idx hv :
  virial_zero hv -> virial_zero (virial_add pitch idx (replicate 6 0) hv).
Proof.
  unfold virial_add. generalize (seq 0 6). intros js. revert hv.
  induction js as [|j js IH]; intros hv Hz; simpl; [exact Hz|].
  apply IH. intros k v Hk. rewrite list_lookup_alter in Hk.
  destruct (decide ((j * pitch + idx)%nat = k)) as [E|_]; [subst k|eauto].
  destruct (hv !! (j * pitch + idx)%nat) as [u|] eqn:Hu; [|discriminate].
  change (Some (u + replicate 6 0 !!! j) = Some v) in Hk. injection Hk as <-. rewrite (Hz _ _ Hu).
  pose proof (lookup_total_zeros 6 j) as H0. cbn [replicate] in H0. rewrite H0. lra.
Qed.

Lemma whole_loop_virial_off pd md o tris ls :
  compute_virial pd = false ->
  AreaConservationMeshForceCompute.area_virial ls = replicate 6 0 ->
  virial_zero (AreaConservationMeshForceCompute.h_virial ls) ->
  virial_zero (AreaConservationMeshForceCompute.h_virial
                 (foldl (AreaConservationMeshForceCompute.force_step pd md o) ls tris)).
Proof.
  intros Hcv. revert ls. induction tris as [|tri tris IH]; intros ls Hav Hz; simpl;
    [exact Hz|].
  apply IH; unfold AreaConservationMeshForceCompute.force_step; rewrite Hcv, Hav;
    destruct (idx_a pd tri.1 <? getN pd)%nat, (idx_b pd tri.1 <? getN pd)%nat,
      (idx_c pd tri.1 <? getN pd)%nat;
    cbn [AreaConservationMeshForceCompute.area_virial
         AreaConservationMeshForceCompute.h_virial];
    try reflexivity; repeat apply virial_add_zero; exact Hz.
Qed.

Lemma per_triangle_loop_virial_off pd o tris ls :
  compute_virial pd = false ->
  TriangleAreaConservationMeshForceCompute.triangle_area_conservation_virial ls
  = replicate 6 0 ->
  virial_zero (TriangleAreaConservationMeshForceCompute.h_virial ls) ->
  virial_zero (TriangleAreaConservationMeshForceCompute.h_virial
                 (foldl (TriangleAreaConservationMeshForceCompute.force_step pd o) ls tris)).
Proof.
  intros Hcv. revert ls. induction tris as [|tri tris IH]; intros ls Hav Hz; simpl;
    [exact Hz|].
  apply IH; unfold TriangleAreaConservationMeshForceCompute.force_step; rewrite Hcv, Hav;
    destruct (idx_a pd tri.1 <? getN pd)%nat, (idx_b pd tri.1 <? getN pd)%nat,
      (idx_c pd tri.1 <? getN pd)%nat;
    cbn [TriangleAreaConservationMeshForceCompute.triangle_area_conservation_virial
         TriangleAreaConservationMeshForceCompute.h_virial];
    try reflexivity; repeat apply virial_add_zero; exact Hz.
Qed.

(** X3.  Without the pressure-tensor flag, every slot of the virial buffer
    is zero after [computeForces], in both host variants. *)
Theorem virial_stays_zero_without_flag (pd : ParticleData) (md : MeshDefinition) :
  compute_virial pd = false ->
  (forall o : AreaConservationMeshForceCompute.t,
      virial_zero (AreaConservationMeshForceCompute.m_virial
                     (AreaConservationMeshForceCompute.computeForces pd md o)))
  /\ (forall o : TriangleAreaConservationMeshForceCompute.t,
      virial_zero (TriangleAreaConservationMeshForceCompute.m_virial
                     (TriangleAreaConservationMeshForceCompute.computeForces pd md o))).
Proof.
  intros Hcv. split; intros o.
  - apply whole_loop_virial_off; [exact Hcv | reflexivity | apply virial_zero_memset].
  - apply per_triangle_loop_virial_off;
      [exact Hcv | reflexivity | apply virial_zero_memset].
Qed.

Lemma virial_stays_zero_without_flag_witness :
  virial_zero (AreaConservationMeshForceCompute.m_virial
                 (AreaConservationMeshForceCompute.computeForces triangle_pd_no_virial
                    triangle_md (whole_10_half 3)))
  /\ virial_zero (TriangleAreaConservationMeshForceCompute.m_virial
                    (TriangleAreaConservationMeshForceCompute.computeForces
                       triangle_pd_no_virial triangle_md (per_triangle_10_04 3))).
Proof.
  destruct (virial_stays_zero_without_flag triangle_pd_no_virial triangle_md)
    as [Hw Ht]; [reflexivity|].
  split; [apply Hw | apply Ht].
Defined.

(** ** The sum of the forces *)

Lemma sum_R_alter {A : Type} `{Inhabited A} (g : A -> R) (f : A -> A) (d : R)
    (l : list A) (i : nat) :
  (i < length l)%nat -> (forall a, g (f a) = g a + d) ->
  sum_R (map g (alter f i l)) = sum_R (map g l) + d.
Proof.
  unfold sum_R. intros Hi Hf. revert i Hi.
  induction l as [|a l IH]; intros i Hi; simpl in Hi; [lia|].
  destruct i as [|i]; simpl.
  - rewrite Hf. lra.
  - change (list_alter f i l) with (alter f i l). rewrite IH by lia. lra.
Qed.

Lemma three_writes_total_force N ia ib ic Fab Fac e hf :
  (ia < N)%nat -> (ib < N)%nat -> (ic < N)%nat -> (N <= length hf)%nat ->
  total_force (three_writes N ia ib ic Fab Fac e hf) = total_force hf.
Proof.
  intros Ha Hb Hc HN. unfold three_writes, force_add, force_sub, total_force.
  destruct (Nat.ltb_spec ia N); [|lia]. destruct (Nat.ltb_spec ib N); [|lia].
  destruct (Nat.ltb_spec ic N); [|lia].
  rewrite (sum_R_alter x4 _ (- x3 Fac)), (sum_R_alter x4 _ (- x3 Fab)),
    (sum_R_alter x4 _ (x3 (Fab +v Fac)));
    try (rewrite ?length_alter; lia); try (intros F; cbn; lra).
  rewrite (sum_R_alter y4 _ (- y3 Fac)), (sum_R_alter y4 _ (- y3 Fab)),
    (sum_R_alter y4 _ (y3 (Fab +v Fac)));
    try (rewrite ?length_alter; lia); try (intros F; cbn; lra).
  rewrite (sum_R_alter z4 _ (- z3 Fac)), (sum_R_alter z4 _ (- z3 Fab)),
    (sum_R_alter z4 _ (z3 (Fab +v Fac)));
    try (rewrite ?length_alter; lia); try (intros F; cbn; lra).
  cbn. f_equal; lra.
Qed.

Lemma total_force_memset0 (buf : list Scalar4) : total_force (memset0 zero4 buf) = zero3.
Proof.
  unfold total_force, memset0, sum_R, zero3.
  induction (length buf) as [|n IH]; simpl; [reflexivity|].
  injection IH as Hx Hy Hz. rewrite Hx, Hy, Hz. f_equal; lra.
Qed.

Lemma whole_loop_total_force pd md o tris :
  (getN pd <= length (AreaConservationMeshForceCompute.m_force o))%nat ->
  (forall tri, tri ∈ tris ->
     (idx_a pd tri.1 < getN pd)%nat /\ (idx_b pd tri.1 < getN pd)%nat
     /\ (idx_c pd tri.1 < getN pd)%nat) ->
  total_force (AreaConservationMeshForceCompute.h_force
                 (AreaConservationMeshForceCompute.loop_over pd md o tris)) = zero3.
Proof.
  intros HN. induction tris as [|tri tris IH] using rev_ind; intros Hown.
  - apply total_force_memset0.
  - unfold AreaConservationMeshForceCompute.loop_over. rewrite foldl_snoc.
    fold (AreaConservationMeshForceCompute.loop_over pd md o tris).
    destruct (Hown tri) as (Ha & Hb & Hc);
      [apply elem_of_app; right; apply list_elem_of_here|].
    rewrite whole_step_force, three_writes_total_force
      by (assumption || rewrite whole_loop_over_length; exact HN).
    apply IH. intros t Hin. apply Hown, elem_of_app. left. exact Hin.
Qed.

Lemma per_triangle_loop_total_force pd md o tris :
  (getN pd <= length (TriangleAreaConservationMeshForceCompute.m_force o))%nat ->
  (forall tri, tri ∈ tris ->
     (idx_a pd tri.1 < getN pd)%nat /\ (idx_b pd tri.1 < getN pd)%nat
     /\ (idx_c pd tri.1 < getN pd)%nat) ->
  total_force (TriangleAreaConservationMeshForceCompute.h_force
                 (TriangleAreaConservationMeshForceCompute.loop_over pd md o tris))
  = zero3.
Proof.
  intros HN. induction tris as [|tri tris IH] using rev_ind; intros Hown.
  - apply total_force_memset0.
  - unfold TriangleAreaConservationMeshForceCompute.loop_over. rewrite foldl_snoc.
    fold (TriangleAreaConservationMeshForceCompute.loop_over pd md o tris).
    destruct (Hown tri) as (Ha & Hb & Hc);
      [apply elem_of_app; right; apply list_elem_of_here|].
    rewrite per_triangle_step_force, three_writes_total_force
      by (assumption || rewrite per_triangle_loop_over_length; exact HN).
    apply IH. intros t Hin. apply Hown, elem_of_app. left. exact Hin.
Qed.

(** X4.  When every vertex of every triangle of the mesh is an owned
    particle and the force buffer holds the owned particles, the forces
    that [computeForces] writes sum to the zero vector, in both host
    variants and for every mesh, whether its triangles share vertices or
    not. *)
Theorem total_force_of_owned_mesh_is_zero (pd : ParticleData) (md : MeshDefinition) :
  all_owned pd md ->
  (forall o : AreaConservationMeshForceCompute.t,
      (getN pd <= length (AreaConservationMeshForceCompute.m_force o))%nat ->
      total_force (AreaConservationMeshForceCompute.m_force
                     (AreaConservationMeshForceCompute.computeForces pd md o)) = zero3)
  /\ (forall o : TriangleAreaConservationMeshForceCompute.t,
      (getN pd <= length (TriangleAreaConservationMeshForceCompute.m_force o))%nat ->
      total_force (TriangleAreaConservationMeshForceCompute.m_force
                     (TriangleAreaConservationMeshForceCompute.computeForces pd md o))
      = zero3).
Proof.
  intros Hown. split; intros o HN.
  - apply (whole_loop_total_force pd md
             (AreaConservationMeshForceCompute.precomputeParameter pd md o));
      assumption.
  - apply per_triangle_loop_total_force; assumption.
Qed.

Lemma square_all_owned : all_owned square_pd square_md.
Proof.
  intros tri Hin. unfold square_md in Hin. cbn [h_triangles] in Hin.
  apply elem_of_cons in Hin as [-> | Hin];
    [|apply list_elem_of_singleton in Hin; subst tri]; cbn; lia.
Qed.

Lemma total_force_of_owned_mesh_is_zero_witness :
  total_force (AreaConservationMeshForceCompute.m_force
                 (AreaConservationMeshForceCompute.computeForces square_pd square_md
                    (collapsed_12_2 4))) = zero3
  /\ total_force (TriangleAreaConservationMeshForceCompute.m_force
                    (TriangleAreaConservationMeshForceCompute.computeForces square_pd
                       square_md (per_triangle_10_04 4))) = zero3.
Proof.
  destruct (total_force_of_owned_mesh_is_zero square_pd square_md square_all_owned)
    as [Hw Ht].
  split; [apply Hw | apply Ht]; cbn; lia.
Defined.

(** ** Particles outside the mesh *)

(** X5.  A particle that is a vertex of no triangle of the mesh has the
    zero force and the zero energy after [computeForces], in both host
    variants. *)
Theorem particle_outside_mesh_gets_zero (pd : ParticleData) (md : MeshDefinition)
    (v : nat) :
  outside_mesh pd md v ->
  (forall o : AreaConservationMeshForceCompute.t,
      AreaConservationMeshForceCompute.m_force
        (AreaConservationMeshForceCompute.computeForces pd md o) !!! v = zero4)
  /\ (forall o : TriangleAreaConservationMeshForceCompute.t,
      TriangleAreaConservationMeshForceCompute.m_force
        (TriangleAreaConservationMeshForceCompute.computeForces pd md o) !!! v = zero4).
Proof.
  intros Hout. split; intros o.
  - unfold AreaConservationMeshForceCompute.computeForces,
      AreaConservationMeshForceCompute.loop_over.
    cbn [AreaConservationMeshForceCompute.set_buffers
         AreaConservationMeshForceCompute.m_force].
    rewrite whole_loop_frame by exact Hout. apply memset0_lookup_total.
  - unfold TriangleAreaConservationMeshForceCompute.computeForces,
      TriangleAreaConservationMeshForceCompute.loop_over.
    cbn [TriangleAreaConservationMeshForceCompute.m_force].
    rewrite per_triangle_loop_frame by exact Hout. apply memset0_lookup_total.
Qed.

Lemma fifth_particle_outside : outside_mesh square_and_one_pd square_md 4.
Proof.
  intros tri Hin. unfold square_md in Hin. cbn [h_triangles] in Hin.
  apply elem_of_cons in Hin as [-> | Hin];
    [|apply list_elem_of_singleton in Hin; subst tri];
    unfold touches; cbn; lia.
Qed.

Lemma particle_outside_mesh_gets_zero_witness :
  AreaConservationMeshForceCompute.m_force
    (AreaConservationMeshForceCompute.computeForces square_and_one_pd square_md
       (collapsed_12_2 5)) !!! 4%nat = zero4
  /\ TriangleAreaConservationMeshForceCompute.m_force
       (TriangleAreaConservationMeshForceCompute.computeForces square_and_one_pd
          square_md (per_triangle_10_04 5)) !!! 4%nat = zero4.
Proof.
  destruct (particle_outside_mesh_gets_zero square_and_one_pd square_md 4
              fifth_particle_outside) as [Hw Ht].
  split; [apply Hw | apply Ht].
Defined.

(** ** The sign of the energies *)

Lemma energies_nonneg_memset buf : energies_nonneg (memset0 zero4 buf).
Proof. intros i F H. rewrite (memset0_lookup _ _ _ _ H). cbn. lra. Qed.

Lemma energies_nonneg_alter (f : Scalar4 -> Scalar4) (e : R) (i : nat) hf :
  0 <= e -> (forall F, w4 (f F) = w4 F + e) ->
  energies_nonneg hf -> energies_nonneg (alter f i hf).
Proof.
  intros He Hf Hz j F Hj. rewrite list_lookup_alter in Hj.
  destruct (decide (i = j)) as [->|_]; [|eauto].
  destruct (hf !! j) as [G|] eqn:HG; [|discriminate].
  change (Some (f G) = Some F) in Hj. injection Hj as <-.
  rewrite Hf. pose proof (Hz j G HG). lra.
Qed.

Lemma three_writes_energies_nonneg N ia ib ic Fab Fac e hf :
  0 <= e -> energies_nonneg hf ->
  energies_nonneg (three_writes N ia ib ic Fab Fac e hf).
Proof.
  intros He Hz. unfold three_writes, force_add, force_sub.
  destruct (ia <? N)%nat, (ib <? N)%nat, (ic <? N)%nat;
    repeat (apply (energies_nonneg_alter _ e); [exact He | intros F; reflexivity |]);
    exact Hz.
Qed.

Lemma Rdiv_nonneg (a b : R) : 0 <= a -> 0 <= b -> 0 <= a / b.
Proof.
  intros Ha Hb. destruct (Req_dec b 0) as [->|Hne].
  - unfold Rdiv. rewrite Rinv_0. lra.
  - apply Rmult_le_pos; [exact Ha|]. left. apply Rinv_0_lt_compat. lra.
Qed.

Lemma whole_energy_nonneg md o ls tri :
  let ty := AreaConservationMeshForceCompute.triangle_type
              (AreaConservationMeshForceCompute.m_ignore_type o) tri in
  0 <= AreaConservationMeshForceCompute.m_K o !!! ty ->
  0 < AreaConservationMeshForceCompute.m_A0 o !!! ty ->
  0 <= AreaConservationMeshForceCompute.energy_of md o ls tri.
Proof.
  intros ty HK HA. unfold AreaConservationMeshForceCompute.energy_of. cbv zeta.
  fold ty. set (d := _ - _).
  apply Rdiv_nonneg.
  - assert (0 <= d * d) by nra.
    rewrite Rmult_assoc. apply Rmult_le_pos; assumption.
  - apply Rmult_le_pos; [lra | apply pos_INR].
Qed.

Lemma per_triangle_energy_nonneg pd o tri :
  0 <= TriangleAreaConservationMeshForceCompute.m_K o !!! tri.2 ->
  0 < TriangleAreaConservationMeshForceCompute.m_A0 o !!! tri.2 ->
  0 <= TriangleAreaConservationMeshForceCompute.energy_of pd o tri.
Proof.
  intros HK HA. unfold TriangleAreaConservationMeshForceCompute.energy_of.
  set (u := TriangleAreaConservationMeshForceCompute.Ut pd o tri).
  assert (0 <= u * u) by nra.
  assert (0 <= TriangleAreaConservationMeshForceCompute.m_K o !!! tri.2
               / (6 * TriangleAreaConservationMeshForceCompute.m_A0 o !!! tri.2))
    by (apply Rdiv_nonneg; lra).
  rewrite Rmult_assoc. apply Rmult_le_pos; assumption.
Qed.

Lemma whole_loop_energies_nonneg pd md o tris ls :
  (forall tri, tri ∈ tris ->
     let ty := AreaConservationMeshForceCompute.triangle_type
                 (AreaConservationMeshForceCompute.m_ignore_type o) tri in
     0 <= AreaConservationMeshForceCompute.m_K o !!! ty
     /\ 0 < AreaConservationMeshForceCompute.m_A0 o !!! ty) ->
  energies_nonneg (AreaConservationMeshForceCompute.h_force ls) ->
  energies_nonneg (AreaConservationMeshForceCompute.h_force
                     (foldl (AreaConservationMeshForceCompute.force_step pd md o) ls tris)).
Proof.
  revert ls. induction tris as [|tri tris IH]; intros ls Hp Hz; simpl; [exact Hz|].
  apply IH; [intros t Hin; apply Hp, list_elem_of_further, Hin|].
  rewrite whole_step_force. destruct (Hp tri) as [HK HA]; [apply list_elem_of_here|].
  apply three_writes_energies_nonneg; [apply whole_energy_nonneg; assumption | exact Hz].
Qed.

Lemma per_triangle_loop_energies_nonneg pd o tris ls :
  (forall tri, tri ∈ tris ->
     0 <= TriangleAreaConservationMeshForceCompute.m_K o !!! tri.2
     /\ 0 < TriangleAreaConservationMeshForceCompute.m_A0 o !!! tri.2) ->
  energies_nonneg (TriangleAreaConservationMeshForceCompute.h_force ls) ->
  energies_nonneg (TriangleAreaConservationMeshForceCompute.h_force
                     (foldl (TriangleAreaConservationMeshForceCompute.force_step pd o)
                        ls tris)).
Proof.
  revert ls. induction tris as [|tri tris IH]; intros ls Hp Hz; simpl; [exact Hz|].
  apply IH; [intros t Hin; apply Hp, list_elem_of_further, Hin|].
  rewrite per_triangle_step_force.
  destruct (Hp tri) as [HK HA]; [apply list_elem_of_here|].
  apply three_writes_energies_nonneg;
    [apply per_triangle_energy_nonneg; assumption | exact Hz].
Qed.

(** X6.  When, for the type of every triangle of the mesh, [K] is not
    negative and [A0] is positive, every energy that [computeForces]
    writes to the force buffer is non-negative, in both host variants. *)
Theorem energies_are_nonnegative (pd : ParticleData) (md : MeshDefinition) :
  (forall o : AreaConservationMeshForceCompute.t,
      (forall tri, tri ∈ h_triangles md ->
         let ty := AreaConservationMeshForceCompute.triangle_type
                     (AreaConservationMeshForceCompute.m_ignore_type o) tri in
         0 <= AreaConservationMeshForceCompute.m_K o !!! ty
         /\ 0 < AreaConservationMeshForceCompute.m_A0 o !!! ty) ->
      energies_nonneg (AreaConservationMeshForceCompute.m_force
                         (AreaConservationMeshForceCompute.computeForces pd md o)))
  /\ (forall o : TriangleAreaConservationMeshForceCompute.t,
      (forall tri, tri ∈ h_triangles md ->
         0 <= TriangleAreaConservationMeshForceCompute.m_K o !!! tri.2
         /\ 0 < TriangleAreaConservationMeshForceCompute.m_A0 o !!! tri.2) ->
      energies_nonneg (TriangleAreaConservationMeshForceCompute.m_force
                         (TriangleAreaConservationMeshForceCompute.computeForces pd md o))).
Proof.
  split; intros o Hp.
  - apply (whole_loop_energies_nonneg pd md
             (AreaConservationMeshForceCompute.precomputeParameter pd md o));
      [exact Hp | apply energies_nonneg_memset].
  - apply per_triangle_loop_energies_nonneg; [exact Hp | apply energies_nonneg_memset].
Qed.

Lemma energies_are_nonnegative_witness :
  energies_nonneg (AreaConservationMeshForceCompute.m_force
                     (AreaConservationMeshForceCompute.computeForces square_pd square_md
                        (collapsed_12_2 4)))
  /\ energies_nonneg (TriangleAreaConservationMeshForceCompute.m_force
                        (TriangleAreaConservationMeshForceCompute.computeForces square_pd
                           square_md (per_triangle_10_04 4))).
Proof.
  destruct (energies_are_nonnegative square_pd square_md) as [Hw Ht].
  split; [apply Hw | apply Ht]; intros tri Hin; unfold square_md in Hin;
    cbn [h_triangles] in Hin;
    (apply elem_of_cons in Hin as [-> | Hin];
     [|apply list_elem_of_singleton in Hin; subst tri]); cbn; lra.
Defined.

(** ** The energy of the whole mesh *)

(** X7.  When every vertex of every triangle is an owned particle and the
    force buffer holds the owned particles, the energies of the force
    buffer after [computeForces] sum to the sum, over the triangles of the
    mesh, of the energy of the triangle: in the whole-mesh variant [K
    (area - A0)^2 / (2 A0 N_active)] for the type of the triangle, in the
    per-triangle variant [K / (2 A0) (A_tri - A0)^2]. *)
Theorem total_energy_is_sum_over_triangles (pd : ParticleData) (md : MeshDefinition) :
  all_owned pd md ->
  (forall o : AreaConservationMeshForceCompute.t,
      (getN pd <= length (AreaConservationMeshForceCompute.m_force o))%nat ->
      let o' := AreaConservationMeshForceCompute.computeForces pd md o in
      total_energy (AreaConservationMeshForceCompute.m_force o')
      = sum_R (map (whole_mesh_triangle_energy md o') (h_triangles md)))
  /\ (forall o : TriangleAreaConservationMeshForceCompute.t,
      (getN pd <= length (TriangleAreaConservationMeshForceCompute.m_force o))%nat ->
      let o' := TriangleAreaConservationMeshForceCompute.computeForces pd md o in
      total_energy (TriangleAreaConservationMeshForceCompute.m_force o')
      = sum_R (map (per_triangle_energy pd o') (h_triangles md))).
Proof.
  intros Hown. split; intros o HN o'.
  - apply (whole_loop_total_energy pd md
             (AreaConservationMeshForceCompute.precomputeParameter pd md o));
      assumption.
  - apply (per_triangle_loop_total_energy pd md o); assumption.
Qed.

Lemma total_energy_is_sum_over_triangles_witness :
  (let o' := AreaConservationMeshForceCompute.computeForces square_pd square_md
               (collapsed_12_2 4) in
   total_energy (AreaConservationMeshForceCompute.m_force o')
   = sum_R (map (whole_mesh_triangle_energy square_md o') (h_triangles square_md)))
  /\ (let o' := TriangleAreaConservationMeshForceCompute.computeForces square_pd
                  square_md (per_triangle_10_04 4) in
      total_energy (TriangleAreaConservationMeshForceCompute.m_force o')
      = sum_R (map (per_triangle_energy square_pd o') (h_triangles square_md))).
Proof.
  destruct (total_energy_is_sum_over_triangles square_pd square_md square_all_owned)
    as [Hw Ht].
  split; [apply Hw | apply Ht]; cbn; lia.
Defined.

Lemma sum_R_constant {A : Type} (f : A -> R) (c : R) (l : list A) :
  (forall a, a ∈ l -> f a = c) -> sum_R (map f l) = INR (length l) * c.
Proof.
  unfold sum_R. induction l as [|a l IH]; intros Hc; [simpl; lra|].
  cbn [map foldr length]. rewrite S_INR.
  rewrite IH by (intros a' Hin; apply Hc, list_elem_of_further, Hin).
  rewrite (Hc a) by apply list_elem_of_here. lra.
Qed.

(** X8.  In the whole-mesh variant under single-type collapse, when every
    vertex is an owned particle, the force buffer holds the owned
    particles and the size of the mesh is the number of its triangles, not
    zero, the energies after [computeForces] sum to [K[0] (area[0] -
    A0[0])^2 / (2 A0[0])]. *)
Theorem collapsed_mesh_total_energy (pd : ParticleData) (md : MeshDefinition)
    (o : AreaConservationMeshForceCompute.t) :
  AreaConservationMeshForceCompute.m_ignore_type o = true ->
  all_owned pd md ->
  (getN pd <= length (AreaConservationMeshForceCompute.m_force o))%nat ->
  getSize md = length (h_triangles md) ->
  (0 < getSize md)%nat ->
  let o' := AreaConservationMeshForceCompute.computeForces pd md o in
  total_energy (AreaConservationMeshForceCompute.m_force o')
  = AreaConservationMeshForceCompute.m_K o' !!! 0%nat
    * (AreaConservationMeshForceCompute.getArea o' 0
       - AreaConservationMeshForceCompute.m_A0 o' !!! 0%nat) ^ 2
    / (2 * AreaConservationMeshForceCompute.m_A0 o' !!! 0%nat).
Proof.
  intros Hig Hown HN Hsize Hpos o'.
  subst o'. unfold AreaConservationMeshForceCompute.computeForces.
  cbn [AreaConservationMeshForceCompute.set_buffers
       AreaConservationMeshForceCompute.m_force
       AreaConservationMeshForceCompute.m_K AreaConservationMeshForceCompute.m_A0
       AreaConservationMeshForceCompute.getArea
       AreaConservationMeshForceCompute.m_area].
  set (o1 := AreaConservationMeshForceCompute.precomputeParameter pd md o).
  rewrite whole_loop_total_energy by assumption.
  rewrite (sum_R_constant _
             (AreaConservationMeshForceCompute.m_K o1 !!! 0%nat
              * (AreaConservationMeshForceCompute.m_area o1 !!! 0%nat
                 - AreaConservationMeshForceCompute.m_A0 o1 !!! 0%nat) ^ 2
              / (2 * AreaConservationMeshForceCompute.m_A0 o1 !!! 0%nat
                 * INR (getSize md)))).
  - rewrite <- Hsize.
    assert (Hn : INR (getSize md) <> 0) by (apply not_0_INR; lia).
    unfold AreaConservationMeshForceCompute.getArea.
    cbn [AreaConservationMeshForceCompute.set_buffers
         AreaConservationMeshForceCompute.m_area].
    unfold Rdiv. rewrite !Rinv_mult.
    generalize (/ AreaConservationMeshForceCompute.m_A0 o1 !!! 0%nat). intros iA.
    field. exact Hn.
  - intros tri _. unfold whole_mesh_triangle_energy, N_active,
      AreaConservationMeshForceCompute.triangle_type.
    cbn [AreaConservationMeshForceCompute.precomputeParameter
         AreaConservationMeshForceCompute.set_area
         AreaConservationMeshForceCompute.m_ignore_type o1].
    subst o1.
    cbn [AreaConservationMeshForceCompute.precomputeParameter
         AreaConservationMeshForceCompute.set_area
         AreaConservationMeshForceCompute.m_ignore_type].
    rewrite Hig. reflexivity.
Qed.

Lemma collapsed_mesh_total_energy_witness :
  let o' := AreaConservationMeshForceCompute.computeForces square_pd square_md
              (collapsed_12_2 4) in
  total_energy (AreaConservationMeshForceCompute.m_force o')
  = AreaConservationMeshForceCompute.m_K o' !!! 0%nat
    * (AreaConservationMeshForceCompute.getArea o' 0
       - AreaConservationMeshForceCompute.m_A0 o' !!! 0%nat) ^ 2
    / (2 * AreaConservationMeshForceCompute.m_A0 o' !!! 0%nat).
Proof.
  apply (collapsed_mesh_total_energy square_pd square_md (collapsed_12_2 4));
    [reflexivity | exact square_all_owned | cbn; lia | reflexivity | cbn; lia].
Defined.

(** ** Moving every particle by the same vector *)

Lemma translate_lookup d pd i :
  (i < length (h_pos pd))%nat ->
  h_pos (translate d pd) !!! i
  = make_scalar4 (x4 (h_pos pd !!! i) + x3 d) (y4 (h_pos pd !!! i) + y3 d)
                 (z4 (h_pos pd !!! i) + z3 d) (w4 (h_pos pd !!! i)).
Proof.
  intros Hi. unfold translate. cbn [h_pos].
  destruct (lookup_lt_is_Some_2 (h_pos pd) i Hi) as [p Hp].
  rewrite (list_lookup_total_correct _ _ _ Hp).
  apply list_lookup_total_correct.
  change (map ?f ?l) with (f <$> l). rewrite list_lookup_fmap, Hp. reflexivity.
Qed.

Lemma translate_pos_diff d pd i j :
  (i < length (h_pos pd))%nat -> (j < length (h_pos pd))%nat ->
  pos_diff (translate d pd) i j = pos_diff pd i j.
Proof.
  intros Hi Hj. unfold pos_diff. rewrite !translate_lookup by assumption.
  cbn. f_equal; lra.
Qed.

Lemma translate_edges d pd t :
  (idx_a pd t < length (h_pos pd))%nat -> (idx_b pd t < length (h_pos pd))%nat ->
  (idx_c pd t < length (h_pos pd))%nat ->
  force_dab (translate d pd) t = force_dab pd t
  /\ force_dac (translate d pd) t = force_dac pd t
  /\ area_dab (translate d pd) t = area_dab pd t
  /\ area_dac (translate d pd) t = area_dac pd t.
Proof.
  intros Ha Hb Hc. unfold force_dab, force_dac, area_dab, area_dac.
  change (idx_a (translate d pd) t) with (idx_a pd t).
  change (idx_b (translate d pd) t) with (idx_b pd t).
  change (idx_c (translate d pd) t) with (idx_c pd t).
  change (minImage (translate d pd)) with (minImage pd).
  rewrite !translate_pos_diff by assumption. auto.
Qed.

Lemma translate_whole_step d pd md o ls tri :
  (idx_a pd tri.1 < length (h_pos pd))%nat ->
  (idx_b pd tri.1 < length (h_pos pd))%nat ->
  (idx_c pd tri.1 < length (h_pos pd))%nat ->
  AreaConservationMeshForceCompute.force_step (translate d pd) md o ls tri
  = AreaConservationMeshForceCompute.force_step pd md o ls tri.
Proof.
  intros Ha Hb Hc.
  destruct (translate_edges d pd tri.1 Ha Hb Hc) as (Eab & Eac & _ & _).
  unfold AreaConservationMeshForceCompute.force_step,
    AreaConservationMeshForceCompute.Fab, AreaConservationMeshForceCompute.Fac.
  rewrite Eab, Eac. reflexivity.
Qed.

Lemma translate_per_triangle_step d pd o ls tri :
  (idx_a pd tri.1 < length (h_pos pd))%nat ->
  (idx_b pd tri.1 < length (h_pos pd))%nat ->
  (idx_c pd tri.1 < length (h_pos pd))%nat ->
  TriangleAreaConservationMeshForceCompute.force_step (translate d pd) o ls tri
  = TriangleAreaConservationMeshForceCompute.force_step pd o ls tri.
Proof.
  intros Ha Hb Hc.
  destruct (translate_edges d pd tri.1 Ha Hb Hc) as (Eab & Eac & _ & _).
  unfold TriangleAreaConservationMeshForceCompute.force_step,
    TriangleAreaConservationMeshForceCompute.Fab,
    TriangleAreaConservationMeshForceCompute.Fac,
    TriangleAreaConservationMeshForceCompute.energy_of,
    TriangleAreaConservationMeshForceCompute.prefactor_of,
    TriangleAreaConservationMeshForceCompute.Ut,
    TriangleAreaConservationMeshForceCompute.tri_area.
  rewrite Eab, Eac. reflexivity.
Qed.

Lemma translate_area_step d pd ignore_type g tri :
  (idx_a pd tri.1 < length (h_pos pd))%nat ->
  (idx_b pd tri.1 < length (h_pos pd))%nat ->
  (idx_c pd tri.1 < length (h_pos pd))%nat ->
  AreaConservationMeshForceCompute.area_step (translate d pd) ignore_type g tri
  = AreaConservationMeshForceCompute.area_step pd ignore_type g tri.
Proof.
  intros Ha Hb Hc.
  destruct (translate_edges d pd tri.1 Ha Hb Hc) as (_ & _ & Eab & Eac).
  unfold AreaConservationMeshForceCompute.area_step,
    AreaConservationMeshForceCompute.area_tri.
  rewrite Eab, Eac. reflexivity.
Qed.

(** X9.  When the local indices of the vertices of the triangles are
    indices of the position array, moving every particle by the same
    vector changes nothing of what [computeForces] writes, in both host
    variants: positions enter only through their differences. *)
Theorem computeForces_translation_invariant
    (d : Scalar3) (pd : ParticleData) (md : MeshDefinition) :
  vertices_in_range pd md ->
  (forall o : AreaConservationMeshForceCompute.t,
      AreaConservationMeshForceCompute.computeForces (translate d pd) md o
      = AreaConservationMeshForceCompute.computeForces pd md o)
  /\ (forall o : TriangleAreaConservationMeshForceCompute.t,
      TriangleAreaConservationMeshForceCompute.computeForces (translate d pd) md o
      = TriangleAreaConservationMeshForceCompute.computeForces pd md o).
Proof.
  intros Hin. split; intros o.
  - assert (Hpre : AreaConservationMeshForceCompute.precomputeParameter
                     (translate d pd) md o
                   = AreaConservationMeshForceCompute.precomputeParameter pd md o).
    { unfold AreaConservationMeshForceCompute.precomputeParameter,
        AreaConservationMeshForceCompute.reduced_area,
        AreaConservationMeshForceCompute.local_area.
      change (getDomainDecomposition (translate d pd))
        with (getDomainDecomposition pd).
      change (MPI_Allreduce_SUM (translate d pd)) with (MPI_Allreduce_SUM pd).
      rewrite (foldl_ext_in
                 (AreaConservationMeshForceCompute.area_step (translate d pd)
                    (AreaConservationMeshForceCompute.m_ignore_type o))
                 (AreaConservationMeshForceCompute.area_step pd
                    (AreaConservationMeshForceCompute.m_ignore_type o)));
        [reflexivity|].
      intros g tri Htri. destruct (Hin tri Htri) as (Ha & Hb & Hc).
      apply translate_area_step; assumption. }
    unfold AreaConservationMeshForceCompute.computeForces,
      AreaConservationMeshForceCompute.loop_over.
    cbv zeta. rewrite Hpre. f_equal. apply foldl_ext_in.
    intros ls tri Htri. destruct (Hin tri Htri) as (Ha & Hb & Hc).
    apply translate_whole_step; assumption.
  - unfold TriangleAreaConservationMeshForceCompute.computeForces,
      TriangleAreaConservationMeshForceCompute.loop_over,
      TriangleAreaConservationMeshForceCompute.reduced_area.
    change (getDomainDecomposition (translate d pd)) with (getDomainDecomposition pd).
    change (MPI_Allreduce_SUM (translate d pd)) with (MPI_Allreduce_SUM pd).
    cbv zeta.
    rewrite (foldl_ext_in
               (TriangleAreaConservationMeshForceCompute.force_step (translate d pd) o)
               (TriangleAreaConservationMeshForceCompute.force_step pd o));
      [reflexivity|].
    intros ls tri Htri. destruct (Hin tri Htri) as (Ha & Hb & Hc).
    apply translate_per_triangle_step; assumption.
Qed.

Lemma square_vertices_in_range : vertices_in_range square_pd square_md.
Proof.
  intros tri Hin. unfold square_md in Hin. cbn [h_triangles] in Hin.
  apply elem_of_cons in Hin as [-> | Hin];
    [|apply list_elem_of_singleton in Hin; subst tri]; cbn; lia.
Qed.

Lemma computeForces_translation_invariant_witness :
  AreaConservationMeshForceCompute.computeForces
    (translate (make_scalar3 3 (-2) 7) square_pd) square_md (collapsed_12_2 4)
  = AreaConservationMeshForceCompute.computeForces square_pd square_md
      (collapsed_12_2 4)
  /\ TriangleAreaConservationMeshForceCompute.computeForces
       (translate (make_scalar3 3 (-2) 7) square_pd) square_md (per_triangle_10_04 4)
     = TriangleAreaConservationMeshForceCompute.computeForces square_pd square_md
         (per_triangle_10_04 4).
Proof.
  destruct (computeForces_translation_invariant (make_scalar3 3 (-2) 7) square_pd
              square_md square_vertices_in_range) as [Hw Ht].
  split; [apply Hw | apply Ht].
Defined.

(** ** The two variants compute the same aggregate area *)

(** X10.  On a single rank, with a minimum image map that commutes with
    negation, every vertex owned, the types distinguished and both objects
    constructed for the mesh, the area that [getArea] reports for a type
    after [computeForces] is the same in the whole-mesh and in the
    per-triangle variant, though the first sums the areas in
    [precomputeParameter] and the second sums thirds in the force loop
    from other edges of the triangle. *)
Theorem variants_agree_on_area (pd : ParticleData) (md : MeshDefinition)
    (ow : AreaConservationMeshForceCompute.t)
    (ot : TriangleAreaConservationMeshForceCompute.t) (ty : nat) :
  getDomainDecomposition pd = false ->
  (forall d, minImage pd (-v d) = -v minImage pd d) ->
  all_owned pd md ->
  AreaConservationMeshForceCompute.m_ignore_type ow = false ->
  AreaConservationMeshForceCompute.constructed md ow ->
  TriangleAreaConservationMeshForceCompute.constructed md ot ->
  (ty < getNTypes md)%nat ->
  AreaConservationMeshForceCompute.getArea
    (AreaConservationMeshForceCompute.computeForces pd md ow) ty
  = TriangleAreaConservationMeshForceCompute.getArea
      (TriangleAreaConservationMeshForceCompute.computeForces pd md ot) ty.
Proof.
  intros Hdd Hodd Hown Hig (_ & _ & Hlw) Hct Hty.
  rewrite per_triangle_area_all_owned by assumption.
  unfold AreaConservationMeshForceCompute.getArea,
    AreaConservationMeshForceCompute.computeForces.
  cbn [AreaConservationMeshForceCompute.set_buffers
       AreaConservationMeshForceCompute.m_area].
  rewrite whole_area_single_rank;
    [| exact Hdd | exact Hty
     | rewrite Hlw, Hig; unfold AreaConservationMeshForceCompute.n_alloc; exact Hty].
  rewrite Hig. apply type_sum_ext. intros tri _ _.
  symmetry. apply force_area_is_area_tri, Hodd.
Qed.

Lemma no_wrap_odd (d : Scalar3) : no_wrap (-v d) = -v no_wrap d.
Proof. reflexivity. Qed.

Lemma variants_agree_on_area_witness :
  AreaConservationMeshForceCompute.getArea
    (AreaConservationMeshForceCompute.computeForces triangle_pd triangle_md
       (whole_10_half 3)) 0
  = TriangleAreaConservationMeshForceCompute.getArea
      (TriangleAreaConservationMeshForceCompute.computeForces triangle_pd triangle_md
         (per_triangle_10_04 3)) 0.
Proof.
  apply variants_agree_on_area;
    [reflexivity | exact no_wrap_odd | exact triangle_all_owned | reflexivity
     | repeat split | repeat split | cbn; lia].
Defined.

(** ** Parameters of other types *)

(** X11.  [setParams] for a type leaves what [getParams] returns for every
    other type, in the per-triangle variant and, with the types
    distinguished, in the whole-mesh variant. *)
Theorem setParams_leaves_other_types (md : MeshDefinition) (type type' : nat)
    (K A0 : Scalar) :
  type <> type' ->
  (forall o o' : TriangleAreaConservationMeshForceCompute.t,
      TriangleAreaConservationMeshForceCompute.setParams o type K A0 = Ok o' ->
      TriangleAreaConservationMeshForceCompute.getParams md o' type'
      = TriangleAreaConservationMeshForceCompute.getParams md o type')
  /\ (forall o o' : AreaConservationMeshForceCompute.t,
      AreaConservationMeshForceCompute.m_ignore_type o = false ->
      AreaConservationMeshForceCompute.setParams o type K A0 = Ok o' ->
      AreaConservationMeshForceCompute.getParams md o' type'
      = AreaConservationMeshForceCompute.getParams md o type').
Proof.
  intros Hne. split.
  - intros o o' Hset.
    unfold TriangleAreaConservationMeshForceCompute.setParams in Hset.
    injection Hset as <-.
    unfold TriangleAreaConservationMeshForceCompute.getParams.
    destruct (getNTypes md <=? type')%nat; [reflexivity|].
    destruct (Rle_dec A0 0), (Rle_dec K 0); cbn;
      rewrite !list_lookup_total_insert_ne by exact Hne; reflexivity.
  - intros o o' Hig Hset.
    unfold AreaConservationMeshForceCompute.setParams in Hset.
    rewrite Hig in Hset. cbn [negb orb] in Hset. injection Hset as <-.
    unfold AreaConservationMeshForceCompute.getParams.
    destruct (getNTypes md <=? type')%nat; [reflexivity|].
    destruct (Rle_dec A0 0), (Rle_dec K 0); cbn; rewrite Hig;
      rewrite !list_lookup_total_insert_ne by exact Hne; reflexivity.
Qed.

Lemma setParams_leaves_other_types_witness :
  (forall o',
      TriangleAreaConservationMeshForceCompute.setParams per_triangle_two_types 1 5 3
      = Ok o' ->
      TriangleAreaConservationMeshForceCompute.getParams two_type_md o' 0
      = TriangleAreaConservationMeshForceCompute.getParams two_type_md
          per_triangle_two_types 0)
  /\ (forall o',
         AreaConservationMeshForceCompute.setParams whole_two_types 1 5 3 = Ok o' ->
         AreaConservationMeshForceCompute.getParams two_type_md o' 0
         = AreaConservationMeshForceCompute.getParams two_type_md whole_two_types 0).
Proof.
  destruct (setParams_leaves_other_types two_type_md 1 0 5 3) as [Ht Hw]; [lia|].
  split.
  - intros o'. apply Ht.
  - intros o'. apply Hw. reflexivity.
Defined.

(** X12.  In the whole-mesh variant under single-type collapse, for an
    object constructed for the mesh, after [setParams] for type 0 the
    method [getParams] returns the given [K] and [A0] for every type of
    the mesh. *)
Theorem collapsed_types_share_parameters (md : MeshDefinition)
    (o : AreaConservationMeshForceCompute.t) (K A0 : Scalar) (typ : nat) :
  AreaConservationMeshForceCompute.m_ignore_type o = true ->
  AreaConservationMeshForceCompute.constructed md o ->
  (typ < getNTypes md)%nat ->
  exists o',
    AreaConservationMeshForceCompute.setParams o 0 K A0 = Ok o'
    /\ AreaConservationMeshForceCompute.getParams md o' typ = Ok (K, A0).
Proof.
  intros Hig (HK & HA & _) Htyp.
  rewrite Hig in HK, HA. cbn in HK, HA.
  unfold AreaConservationMeshForceCompute.setParams. rewrite Hig.
  cbn [negb orb Nat.eqb]. eexists. split; [reflexivity|].
  unfold AreaConservationMeshForceCompute.getParams.
  destruct (Nat.leb_spec (getNTypes md) typ); [lia|].
  destruct (Rle_dec A0 0), (Rle_dec K 0); cbn; rewrite Hig;
    rewrite !list_lookup_total_insert_eq by lia; reflexivity.
Qed.

Lemma collapsed_types_share_parameters_witness :
  exists o',
    AreaConservationMeshForceCompute.setParams (collapsed_12_2 4) 0 5 3 = Ok o'
    /\ AreaConservationMeshForceCompute.getParams two_type_md o' 1 = Ok (5, 3).
Proof.
  apply collapsed_types_share_parameters; [reflexivity | repeat split | cbn; lia].
Defined.

Section Accelerator_more.
Import AreaConservationMeshForceComputeGPU.

(** X13.  With the types distinguished and the type within the arrays,
    [setParams] of the accelerator class returns normally and keeps the
    device copy of the parameters equal to the host arrays for every type,
    and both hold the given values at the given type. *)
Theorem gpu_setParams_keeps_device_copy_in_sync (o : t) (type : nat)
    (K A0 : Scalar) :
  AreaConservationMeshForceCompute.m_ignore_type (base o) = false ->
  (type < length (m_params o))%nat ->
  (type < length (AreaConservationMeshForceCompute.m_K (base o)))%nat ->
  (type < length (AreaConservationMeshForceCompute.m_A0 (base o)))%nat ->
  params_in_sync o ->
  exists o',
    setParams o type K A0 = Ok o'
    /\ params_in_sync o'
    /\ m_params o' !! type = Some (make_scalar2 K A0)
    /\ AreaConservationMeshForceCompute.m_K (base o') !!! type = K
    /\ AreaConservationMeshForceCompute.m_A0 (base o') !!! type = A0.
Proof.
  intros Hig Hp HK HA Hsync. unfold setParams.
  unfold AreaConservationMeshForceCompute.setParams.
  rewrite Hig. cbn [negb orb]. eexists. split; [reflexivity|].
  cbn [m_params base].
  assert (HKA : forall b : AreaConservationMeshForceCompute.t,
            AreaConservationMeshForceCompute.m_K
              (if Rle_dec A0 0
               then AreaConservationMeshForceCompute.warning
                      (if Rle_dec K 0
                       then AreaConservationMeshForceCompute.warning b
                              "area: specified K <= 0"
                       else b) "area: specified A0 <= 0"
               else if Rle_dec K 0
                    then AreaConservationMeshForceCompute.warning b
                           "area: specified K <= 0"
                    else b) = AreaConservationMeshForceCompute.m_K b
            /\ AreaConservationMeshForceCompute.m_A0
                 (if Rle_dec A0 0
                  then AreaConservationMeshForceCompute.warning
                         (if Rle_dec K 0
                          then AreaConservationMeshForceCompute.warning b
                                 "area: specified K <= 0"
                          else b) "area: specified A0 <= 0"
                  else if Rle_dec K 0
                       then AreaConservationMeshForceCompute.warning b
                              "area: specified K <= 0"
                       else b) = AreaConservationMeshForceCompute.m_A0 b).
  { intros b. destruct (Rle_dec A0 0), (Rle_dec K 0); split; reflexivity. }
  destruct (HKA (AreaConservationMeshForceCompute.set_K_A0 (base o) type K A0))
    as [EK EA].
  rewrite EK, EA. cbn [AreaConservationMeshForceCompute.set_K_A0
                       AreaConservationMeshForceCompute.m_K
                       AreaConservationMeshForceCompute.m_A0].
  repeat split.
  - intros ty Hty. cbn [m_params base] in Hty |- *.
    rewrite EK, EA. cbn [AreaConservationMeshForceCompute.set_K_A0
                         AreaConservationMeshForceCompute.m_K
                         AreaConservationMeshForceCompute.m_A0].
    rewrite length_insert in Hty.
    destruct (decide (type = ty)) as [->|Hne].
    + rewrite list_lookup_insert_eq by exact Hty.
      rewrite !list_lookup_total_insert_eq by assumption. reflexivity.
    + rewrite list_lookup_insert_ne by exact Hne.
      rewrite !list_lookup_total_insert_ne by exact Hne. apply Hsync, Hty.
  - apply list_lookup_insert_eq, Hp.
  - apply list_lookup_total_insert_eq, HK.
  - apply list_lookup_total_insert_eq, HA.
Qed.

Lemma gpu_two_types_in_sync : params_in_sync gpu_two_types.
Proof.
  intros ty Hty. cbn in Hty.
  destruct ty as [|[|ty]]; [reflexivity | reflexivity | lia].
Qed.

Lemma gpu_setParams_keeps_device_copy_in_sync_witness :
  exists o',
    setParams gpu_two_types 1 5 3 = Ok o'
    /\ params_in_sync o' /\ m_params o' !! 1%nat = Some (make_scalar2 5 3)
    /\ AreaConservationMeshForceCompute.m_K (base o') !!! 1%nat = 5
    /\ AreaConservationMeshForceCompute.m_A0 (base o') !!! 1%nat = 3.
Proof.
  apply (gpu_setParams_keeps_device_copy_in_sync gpu_two_types 1 5 3);
    [reflexivity | cbn; lia | cbn; lia | cbn; lia | exact gpu_two_types_in_sync].
Defined.

(** X14.  Under single-type collapse, [setParams] of the accelerator class
    for a type other than 0 within the device array returns normally,
    leaves the host object as it is and writes the given pair to the
    device copy at that type only: the host guard does not cover the
    device write. *)
Theorem gpu_setParams_collapsed_writes_device_only (o : t) (type : nat)
    (K A0 : Scalar) :
  AreaConservationMeshForceCompute.m_ignore_type (base o) = true ->
  type <> 0%nat ->
  (type < length (m_params o))%nat ->
  exists o',
    setParams o type K A0 = Ok o'
    /\ base o' = base o
    /\ m_params o' !! type = Some (make_scalar2 K A0)
    /\ forall ty, ty <> type -> m_params o' !! ty = m_params o !! ty.
Proof.
  intros Hig Hty Hlen. unfold setParams.
  unfold AreaConservationMeshForceCompute.setParams. rewrite Hig.
  destruct (Nat.eqb_spec type 0); [contradiction|]. cbn [negb orb].
  eexists. split; [reflexivity|]. cbn [base m_params]. repeat split.
  - apply list_lookup_insert_eq, Hlen.
  - intros ty Hne. apply list_lookup_insert_ne. auto.
Qed.

Lemma gpu_setParams_collapsed_writes_device_only_witness :
  exists o',
    setParams (make (collapsed_12_2 4) [make_scalar2 12 2; make_scalar2 0 0]
                    [0%Z] false 32 []) 1 5 3 = Ok o'
    /\ base o' = collapsed_12_2 4
    /\ m_params o' !! 1%nat = Some (make_scalar2 5 3)
    /\ forall ty, ty <> 1%nat ->
         m_params o' !! ty = [make_scalar2 12 2; make_scalar2 0 0] !! ty.
Proof.
  apply (gpu_setParams_collapsed_writes_device_only
           (make (collapsed_12_2 4) [make_scalar2 12 2; make_scalar2 0 0]
                 [0%Z] false 32 []) 1 5 3);
    [reflexivity | lia | cbn; lia].
Defined.

Lemma events_of_call_app (o o' : t) (evs : list event) :
  trace o' = evs ++ trace o -> events_of_call o o' = evs.
Proof.
  intros H. unfold events_of_call. rewrite H, length_app.
  replace (length evs + length (trace o) - length (trace o))%nat with (length evs) by lia.
  apply take_app_length.
Qed.

Ltac call_trace :=
  cbn [trace log launch fst snd m_prof m_flags base m_params tuner_param];
  repeat eapply cons_app_eq; exact (eq_refl : _ = [] ++ _).

Ltac call_events :=
  cbn [fst snd];
  match goal with
  | |- context [events_of_call ?a ?b] =>
      let H := fresh "Htrace" in
      eassert (H : trace b = _ ++ trace a) by call_trace;
      rewrite (events_of_call_app a b _ H);
      cbn [trace log launch fst snd m_prof m_flags base m_params tuner_param]
  end.

Ltac not_in_events H :=
  repeat (apply elem_of_cons in H as [H|H]; [discriminate|]);
  apply elem_of_nil in H; exact H.

Ltac in_events :=
  split;
  [ first [ solve [intros _; first [ reflexivity | split; reflexivity ]]
          | let H := fresh in intros H; exfalso; not_in_events H ]
  | first [ solve [intros [? ?]; discriminate]
          | solve [intros ?; discriminate]
          | solve [intros _;
                   repeat first [ apply list_elem_of_here
                                | apply list_elem_of_further ]] ] ].

(** X15.  Every call of [computeForces] of the accelerator class only adds
    events, among them exactly one kernel launch, with the block size of
    the tuner; the end of the tuner is reached exactly when the call
    returns normally, and the pop of the profiler exactly when moreover a
    profiler is attached; when the check of the device error state fails,
    its error is the outcome and the flags are not read back; and the call
    leaves the areas and the parameters, on the host and on the device, as
    they are. *)
Theorem gpu_computeForces_events (ec : ExecutionConfiguration) (pd : ParticleData)
    (md : MeshDefinition) (o : t) :
  let after := (computeForces ec pd md o).1 in
  let outcome := (computeForces ec pd md o).2 in
  let evs := events_of_call o after in
  trace after = evs ++ trace o
  /\ filter (fun e => is_kernel_launch e = true) evs = [kernel_launch (tuner_param o)]
  /\ (tuner_end ∈ evs <-> outcome = Ok tt)
  /\ (prof_pop ∈ evs <-> m_prof o = true /\ outcome = Ok tt)
  /\ (forall what, isCUDAErrorCheckingEnabled ec = true ->
        CHECK_CUDA_ERROR ec = Raise what ->
        outcome = Raise what /\ ~ reads_flags_back o after)
  /\ AreaConservationMeshForceCompute.m_area (base after)
     = AreaConservationMeshForceCompute.m_area (base o)
  /\ AreaConservationMeshForceCompute.m_K (base after)
     = AreaConservationMeshForceCompute.m_K (base o)
  /\ AreaConservationMeshForceCompute.m_A0 (base after)
     = AreaConservationMeshForceCompute.m_A0 (base o)
  /\ m_params after = m_params o.
Proof.
  destruct o as [b params flags prof tp tr].
  cbv zeta. unfold computeForces.
  destruct prof;
    cbn [trace log launch fst snd m_prof m_flags base m_params tuner_param];
    (destruct (isCUDAErrorCheckingEnabled ec) eqn:Hcheck;
     [destruct (CHECK_CUDA_ERROR ec) as [[]|what'] eqn:Hcuda;
      [destruct (negb (Z.land _ 1 =? 0)%Z) eqn:Hbit|]|]);
    call_events;
    (split; [reflexivity|]); (split; [reflexivity|]);
    (split; [in_events|]); (split; [in_events|]);
    (split; [|repeat split]).
  all: intros what Hc Hw; try discriminate.
  all: injection Hw as <-; split; [reflexivity|].
  all: intros Hread;
    eapply reads_flags_back_elim in Hread; [|call_trace];
    destruct Hread as [w Hw]; not_in_events Hw.
Qed.

Lemma gpu_computeForces_events_witness :
  let after := (computeForces device_error_ec triangle_pd triangle_md gpu_object).1 in
  let outcome := (computeForces device_error_ec triangle_pd triangle_md gpu_object).2 in
  outcome = Raise "CUDA error" /\ ~ reads_flags_back gpu_object after.
Proof.
  apply (proj1 (proj2 (proj2 (proj2 (proj2
           (gpu_computeForces_events device_error_ec triangle_pd triangle_md
              gpu_object)))))); reflexivity.
Defined.

End Accelerator_more.

(** ** The area of one triangle *)

Lemma lagrange_identity (a b : Scalar3) :
  dot (cross a b) (cross a b) = dot a a * dot b b - dot a b * dot a b.
Proof. destruct a, b. unfold dot, cross. cbn. ring. Qed.

Lemma dot_self_nonneg (a : Scalar3) : 0 <= dot a a.
Proof. destruct a. unfold dot. cbn. nra. Qed.

Lemma angle_of_area (a b : Scalar3) :
  0 < dot a a -> 0 < dot b b ->
  let g := angle_of a b in
  rab g * rac g * s_baac g = sqrt (dot (cross a b) (cross a b)).
Proof.
  intros Ha Hb. unfold angle_of. cbv zeta. cbn [rab rac s_baac].
  fold (dot a a). fold (dot b b).
  set (ra := sqrt (dot a a)). set (rb := sqrt (dot b b)).
  assert (Hra : 0 < ra) by (apply sqrt_lt_R0; exact Ha).
  assert (Hrb : 0 < rb) by (apply sqrt_lt_R0; exact Hb).
  assert (Era : ra * ra = dot a a) by (apply sqrt_sqrt; lra).
  assert (Erb : rb * rb = dot b b) by (apply sqrt_sqrt; lra).
  assert (Ec : x3 (a /v ra) * x3 (b /v rb) + y3 (a /v ra) * y3 (b /v rb)
               + z3 (a /v ra) * z3 (b /v rb) = dot a b / (ra * rb)).
  { unfold vdiv, dot. cbn. field. lra. }
  rewrite Ec.
  pose proof (lagrange_identity a b) as HL.
  pose proof (dot_self_nonneg (cross a b)) as Hx.
  set (c := dot a b / (ra * rb)).
  assert (Hcc : c * c * (dot a a * dot b b) = dot a b * dot a b).
  { unfold c. rewrite <- Era, <- Erb. field. lra. }
  assert (Hpos : 0 < dot a a * dot b b) by nra.
  assert (Hc1 : c * c <= 1) by nra.
  assert (Hc : -1 <= c <= 1) by nra.
  rewrite clamp_cos_id by exact Hc.
  assert (Hq : 0 <= 1 - c * c) by lra.
  rewrite <- (sqrt_square (ra * rb)) by nra.
  rewrite <- sqrt_mult by nra.
  f_equal. rewrite HL. nra.
Qed.

(** X16.  For a triangle whose two wrapped edges are not zero, the area
    that the loops compute from the edge lengths and the clamped cosine is
    half the norm of the cross product of the two edges: in
    [precomputeParameter] of the whole-mesh variant, and as three times
    the third that the per-triangle variant adds per vertex. *)
Theorem triangle_area_is_half_cross_product (pd : ParticleData)
    (tri : members_t * nat) :
  (0 < dot (area_dab pd tri.1) (area_dab pd tri.1) ->
   0 < dot (area_dac pd tri.1) (area_dac pd tri.1) ->
   AreaConservationMeshForceCompute.area_tri pd tri.1
   = sqrt (dot (cross (area_dab pd tri.1) (area_dac pd tri.1))
               (cross (area_dab pd tri.1) (area_dac pd tri.1))) / 2)
  /\ (0 < dot (force_dab pd tri.1) (force_dab pd tri.1) ->
      0 < dot (force_dac pd tri.1) (force_dac pd tri.1) ->
      3 * TriangleAreaConservationMeshForceCompute.tri_area pd tri
      = sqrt (dot (cross (force_dab pd tri.1) (force_dac pd tri.1))
                  (cross (force_dab pd tri.1) (force_dac pd tri.1))) / 2).
Proof.
  unfold AreaConservationMeshForceCompute.area_tri,
    TriangleAreaConservationMeshForceCompute.tri_area. cbv zeta.
  split; intros Ha Hb; rewrite (angle_of_area _ _ Ha Hb); lra.
Qed.

Lemma triangle_area_is_half_cross_product_witness :
  AreaConservationMeshForceCompute.area_tri triangle_pd (make_members 0 1 2)
  = sqrt (dot (cross (area_dab triangle_pd (make_members 0 1 2))
                     (area_dac triangle_pd (make_members 0 1 2)))
              (cross (area_dab triangle_pd (make_members 0 1 2))
                     (area_dac triangle_pd (make_members 0 1 2)))) / 2.
Proof.
  apply (proj1 (triangle_area_is_half_cross_product triangle_pd
                  (make_members 0 1 2, 0%nat)));
    unfold dot; cbn; lra.
Defined.

(** ** The patch envelope *)

Lemma half_decimal : 0.5 = 1 / 2.
Proof. lra. Qed.

Lemma neg_half_decimal : -0.5 = - (1 / 2).
Proof. lra. Qed.

Lemma logistic_bounds (x : R) : 0 < x -> 0 < 1 / (1 + x) < 1.
Proof.
  intros Hx. assert (H : 0 < / (1 + x)) by (apply Rinv_0_lt_compat; lra).
  unfold Rdiv. rewrite Rmult_1_l. split; [exact H|].
  rewrite <- Rinv_1. apply Rinv_lt_contravar; lra.
Qed.

Lemma logistic_identity (w x : R) :
  0 < x ->
  w * x * (1 / (1 + x)) * (1 / (1 + x))
  = w * (1 / (1 + x)) * (1 - 1 / (1 + x)).
Proof. intros Hx. field. lra. Qed.

Lemma derivable_pt_lim_value (f : R -> R) (x l l' : R) :
  l = l' -> derivable_pt_lim f x l -> derivable_pt_lim f x l'.
Proof. intros ->. auto. Qed.

Lemma logistic_derivative (w ca u : R) :
  derivable_pt_lim (fun u => 1 / (1 + exp (- w * (u - ca)))) u
    (w * exp (- w * (u - ca)) * (1 / (1 + exp (- w * (u - ca))))
     * (1 / (1 + exp (- w * (u - ca))))).
Proof.
  set (g := fun u : R => - w * (u - ca)).
  assert (Hg : derivable_pt_lim g u (- w * (1 - 0))).
  { apply derivable_pt_lim_ext with (f := (mult_real_fct (- w) (id - fct_cte ca))%F).
    - intros z. reflexivity.
    - apply derivable_pt_lim_scal, derivable_pt_lim_minus;
        [apply derivable_pt_lim_id | apply derivable_pt_lim_const]. }
  assert (He : derivable_pt_lim (comp exp g) u (exp (g u) * (- w * (1 - 0))))
    by (apply derivable_pt_lim_comp; [exact Hg | apply derivable_pt_lim_exp]).
  assert (Hd : derivable_pt_lim (fct_cte 1 + comp exp g)%F u
                 (0 + exp (g u) * (- w * (1 - 0))))
    by (apply derivable_pt_lim_plus; [apply derivable_pt_lim_const | exact He]).
  pose proof (exp_pos (g u)) as HE.
  assert (Hne : (fct_cte 1 + comp exp g)%F u <> 0)
    by (unfold plus_fct, fct_cte, comp; lra).
  pose proof (derivable_pt_lim_div (fct_cte 1) (fct_cte 1 + comp exp g)%F u 0 _
                (derivable_pt_lim_const 1 u) Hd Hne) as Hq.
  apply derivable_pt_lim_ext with (g := fun u => 1 / (1 + exp (g u))) in Hq;
    [|intros z; reflexivity].
  revert Hq. apply derivable_pt_lim_value.
  unfold plus_fct, fct_cte, comp, Rsqr. fold (g u). field. lra.
Qed.

Lemma logistic_half (x : R) :
  (1 / 2 < 1 / (1 + exp (- x)) <-> 0 < x)
  /\ (1 / (1 + exp (- x)) = 1 / 2 <-> x = 0).
Proof.
  pose proof (exp_pos (- x)) as HE.
  assert (Hlt : exp (- x) < 1 <-> 0 < x).
  { rewrite <- exp_0. split; intros H.
    - apply exp_lt_inv in H. lra.
    - apply exp_increasing. lra. }
  assert (Heq : exp (- x) = 1 <-> x = 0).
  { split; intros H.
    - rewrite <- exp_0 in H. apply exp_inv in H. lra.
    - subst x. rewrite Ropp_0. apply exp_0. }
  assert (Hinv : 1 / (1 + exp (- x)) * (1 + exp (- x)) = 1) by (field; lra).
  destruct (logistic_bounds _ HE) as [Hf0 Hf1].
  split; split; intros H.
  - apply Hlt. nra.
  - apply Hlt in H. nra.
  - apply Heq. nra.
  - apply Heq in H. rewrite H. lra.
Qed.

(** The algebra of [evaluate], for any length [m] of the separation and
    any values [ci], [cj] of the two slopes. *)
Lemma cross_of_rotated (A : rotmat3) (n v : Scalar3) :
  x3 n *s cross (rotate A (make_scalar3 1 0 0)) v
  +v y3 n *s cross (rotate A (make_scalar3 0 1 0)) v
  +v z3 n *s cross (rotate A (make_scalar3 0 0 1)) v
  = cross (rotate A n) v.
Proof.
  destruct A as [[a b c] [d f g] [h k l]], n as [nx ny nz], v as [vx vy vz].
  unfold rotate, cross, dot, smul, vadd. cbn. f_equal; ring.
Qed.

Lemma cross_scaled (a b : Scalar3) (c s : R) :
  cross a (c *s b) *v s = (c * s) *s cross a b.
Proof.
  destruct a as [ax ay az], b as [bx b_y bz].
  unfold cross, smul, vmul. cbn. f_equal; ring.
Qed.

Lemma envelope_force_perpendicular (d ni nj : Scalar3) (m ci cj : R) :
  m <> 0 -> m * m = dot d d -> dot (envelope_force d ni nj m ci cj) d = 0.
Proof.
  intros Hm Hmm.
  transitivity (- (1 / 2) * (cj * dot d nj - ci * dot d ni)
                * (m * m - dot d d) / (m * m * m)).
  - unfold envelope_force. rewrite neg_half_decimal.
    destruct d as [dx dy dz], ni as [ix iy iz], nj as [jx jy jz].
    unfold dot, smul, vadd, vsub, vdiv, vneg. cbn. field. exact Hm.
  - rewrite Hmm. unfold Rdiv. ring.
Qed.

Lemma envelope_torque_balance (d ni nj : Scalar3) (m du cj : R) :
  m <> 0 ->
  cross ni (du *s (d /v m)) *v -0.5
  +v cross nj (cj *s (d /v m)) *v -0.5
  +v cross d (envelope_force d ni nj m (- du) cj) = zero3.
Proof.
  intros Hm. unfold envelope_force. rewrite neg_half_decimal.
  destruct d as [dx dy dz], ni as [ix iy iz], nj as [jx jy jz].
  unfold zero3, cross, dot, smul, vmul, vadd, vsub, vdiv, vneg. cbn.
  f_equal; field; exact Hm.
Qed.

Section Envelope.
Import SingleEnvelope.
Variable to_rotmat3 : Scalar4 -> rotmat3.
Variables (_dr : Scalar3) (_quat_i _quat_j : Scalar4) (_rcutsq : Scalar).
Variables (_params : param_type) (shape_i shape_j : shape_type).

Let e : t :=
  construct to_rotmat3 _dr _quat_i _quat_j _rcutsq _params shape_i shape_j.

Lemma exp_i_constructed :
  exp_negOmega_times_CosThetaI_minus_CosAlpha e
  = exp (- (omega _params * (costhetai e - cosalpha _params))).
Proof.
  unfold e, construct, costhetai.
  cbn [exp_negOmega_times_CosThetaI_minus_CosAlpha rhat ni_world].
  f_equal. ring.
Qed.

Lemma exp_j_constructed :
  exp_negOmega_times_CosThetaJ_minus_CosAlpha e
  = exp (- (omega _params * (costhetaj e - cosalpha _params))).
Proof.
  unfold e, construct, costhetaj.
  cbn [exp_negOmega_times_CosThetaJ_minus_CosAlpha rhat nj_world].
  f_equal. ring.
Qed.

Lemma params_constructed : params e = _params.
Proof. reflexivity. Qed.

Lemma fi_fj_bounds : 0 < fi e < 1 /\ 0 < fj e < 1.
Proof.
  split.
  - unfold fi. rewrite exp_i_constructed. apply logistic_bounds, exp_pos.
  - unfold fj. rewrite exp_j_constructed. apply logistic_bounds, exp_pos.
Qed.

(** X17.  For an object built by the constructor from any arguments,
    [fi()] and [fj()] lie strictly between 0 and 1, and so does the
    envelope that [evaluate] writes; [evaluate] returns [true]. *)
Theorem envelope_is_strictly_between_0_and_1 :
  0 < fi e < 1 /\ 0 < fj e < 1
  /\ 0 < envelope (evaluate e).2 < 1
  /\ (evaluate e).1 = true.
Proof.
  destruct fi_fj_bounds as [Hi Hj].
  split; [exact Hi|]. split; [exact Hj|]. split; [|reflexivity].
  unfold evaluate. cbn [snd envelope]. rewrite half_decimal. lra.
Qed.

(** X18.  For an object built by the constructor, [ModulatorPrimei()] is
    [omega fi (1 - fi)] and [ModulatorPrimej()] is [omega fj (1 - fj)],
    each at most [|omega| / 4] in absolute value; [dfi_du(fi())] is the
    negative of [ModulatorPrimei()], and [dfj_du(fj())] is
    [ModulatorPrimej()]. *)
Theorem ModulatorPrime_is_logistic_slope :
  ModulatorPrimei e = omega _params * fi e * (1 - fi e)
  /\ ModulatorPrimej e = omega _params * fj e * (1 - fj e)
  /\ dfi_du e (fi e) = - ModulatorPrimei e
  /\ dfj_du e (fj e) = ModulatorPrimej e
  /\ Rabs (ModulatorPrimei e) <= Rabs (omega _params) / 4
  /\ Rabs (ModulatorPrimej e) <= Rabs (omega _params) / 4.
Proof.
  assert (Hi : ModulatorPrimei e = omega _params * fi e * (1 - fi e)).
  { unfold ModulatorPrimei, fi. cbv zeta. rewrite params_constructed.
    apply logistic_identity. rewrite exp_i_constructed. apply exp_pos. }
  assert (Hj : ModulatorPrimej e = omega _params * fj e * (1 - fj e)).
  { unfold ModulatorPrimej, fj. cbv zeta. rewrite params_constructed.
    apply logistic_identity. rewrite exp_j_constructed. apply exp_pos. }
  assert (Hb : forall w f, 0 < f < 1 -> Rabs (w * f * (1 - f)) <= Rabs w / 4).
  { intros w f Hf. rewrite Rmult_assoc, Rabs_mult.
    rewrite (Rabs_pos_eq (f * (1 - f))) by (apply Rmult_le_pos; lra).
    assert (Hq : f * (1 - f) <= 1 / 4).
    { pose proof (Rle_0_sqr (f - 1 / 2)) as Hs. unfold Rsqr in Hs. lra. }
    pose proof (Rmult_le_compat_l _ _ _ (Rabs_pos w) Hq). lra. }
  destruct fi_fj_bounds as [Hfi Hfj].
  split; [exact Hi|]. split; [exact Hj|].
  split; [unfold dfi_du, ModulatorPrimei; cbv zeta; ring|].
  split; [reflexivity|].
  rewrite Hi, Hj. split; apply Hb; assumption.
Qed.

(** X19.  For an object built by the constructor, replacing the
    exponential of particle [i] by the one that the constructor computes
    from the object's own cosine [-dot(rhat, ni_world)] gives the object
    back, and [ModulatorPrimei()] is the derivative of [fi()] with respect
    to that cosine, at that cosine; the same holds for [j] with the cosine
    [dot(rhat, nj_world)]. *)
Theorem ModulatorPrime_is_derivative :
  at_costhetai e (costhetai e) = e
  /\ derivable_pt_lim (fun u => fi (at_costhetai e u)) (costhetai e)
       (ModulatorPrimei e)
  /\ at_costhetaj e (costhetaj e) = e
  /\ derivable_pt_lim (fun u => fj (at_costhetaj e u)) (costhetaj e)
       (ModulatorPrimej e).
Proof.
  split; [reflexivity|]. split.
  { exact (logistic_derivative (omega _params) (cosalpha _params) (costhetai e)). }
  split; [reflexivity|].
  exact (logistic_derivative (omega _params) (cosalpha _params) (costhetaj e)).
Qed.

(** X20.  For an object built by the constructor, [fi()] is above one half
    exactly when [omega (cos theta_i - cosalpha)] is positive, and is one
    half exactly when it is zero; the same holds for [fj()] and [cos
    theta_j]. *)
Theorem envelope_half_at_patch_edge :
  (1 / 2 < fi e <-> 0 < omega _params * (costhetai e - cosalpha _params))
  /\ (fi e = 1 / 2 <-> omega _params * (costhetai e - cosalpha _params) = 0)
  /\ (1 / 2 < fj e <-> 0 < omega _params * (costhetaj e - cosalpha _params))
  /\ (fj e = 1 / 2 <-> omega _params * (costhetaj e - cosalpha _params) = 0).
Proof.
  unfold fi, fj. rewrite exp_i_constructed, exp_j_constructed.
  destruct (logistic_half (omega _params * (costhetai e - cosalpha _params)))
    as [Hi1 Hi2].
  destruct (logistic_half (omega _params * (costhetaj e - cosalpha _params)))
    as [Hj1 Hj2].
  auto.
Qed.

Lemma evaluate_force :
  force (evaluate e).2
  = envelope_force _dr (ni_world e) (nj_world e) (magdr e)
      (- dfi_du e (fi e)) (dfj_du e (fj e)).
Proof. reflexivity. Qed.

Lemma evaluate_torque_i :
  torque_div_energy_i (evaluate e).2
  = cross (ni_world e) (dfi_du e (fi e) *s rhat e) *v -0.5.
Proof.
  exact (f_equal (fun v => v *v -0.5)
           (cross_of_rotated (R_i e) (n_i e) (dfi_du e (fi e) *s rhat e))).
Qed.

Lemma evaluate_torque_j :
  torque_div_energy_j (evaluate e).2
  = cross (nj_world e) (dfj_du e (fj e) *s rhat e) *v -0.5.
Proof.
  exact (f_equal (fun v => v *v -0.5)
           (cross_of_rotated (R_j e) (n_j e) (dfj_du e (fj e) *s rhat e))).
Qed.

Lemma magdr_constructed :
  0 < dot _dr _dr -> magdr e <> 0 /\ magdr e * magdr e = dot _dr _dr.
Proof.
  intros Hd. change (magdr e) with (sqrt (dot _dr _dr)). split.
  - pose proof (sqrt_lt_R0 _ Hd). lra.
  - apply sqrt_sqrt. lra.
Qed.

(** X21.  When the separation [dr] is not zero, the force that [evaluate]
    writes is perpendicular to [dr]. *)
Theorem force_is_perpendicular_to_separation :
  0 < dot _dr _dr -> dot (force (evaluate e).2) _dr = 0.
Proof.
  intros Hd. destruct (magdr_constructed Hd) as [Hm Hmm].
  rewrite evaluate_force. apply envelope_force_perpendicular; assumption.
Qed.

(** X22.  The torques that [evaluate] sums over the three rotated basis
    vectors are cross products of the patch direction in the world frame
    and the unit separation: [ModulatorPrimei() / 2] times
    [cross(ni_world, rhat)] for [i], and [- ModulatorPrimej() / 2] times
    [cross(nj_world, rhat)] for [j]. *)
Theorem torques_are_cross_products :
  ni_world e = rotate (to_rotmat3 _quat_i) (m_n shape_i)
  /\ nj_world e = rotate (to_rotmat3 _quat_j) (m_n shape_j)
  /\ torque_div_energy_i (evaluate e).2
     = (ModulatorPrimei e / 2) *s cross (ni_world e) (rhat e)
  /\ torque_div_energy_j (evaluate e).2
     = (- ModulatorPrimej e / 2) *s cross (nj_world e) (rhat e).
Proof.
  split; [reflexivity|]. split; [reflexivity|].
  rewrite evaluate_torque_i, evaluate_torque_j, !cross_scaled.
  rewrite neg_half_decimal.
  split; f_equal; unfold dfi_du, dfj_du, ModulatorPrimei, ModulatorPrimej;
    cbv zeta; field.
Qed.

(** X23.  When the separation [dr] is not zero, the two torques that
    [evaluate] writes and the moment [cross(dr, force)] of the force sum
    to the zero vector. *)
Theorem torques_balance_force :
  0 < dot _dr _dr ->
  torque_div_energy_i (evaluate e).2 +v torque_div_energy_j (evaluate e).2
  +v cross _dr (force (evaluate e).2) = zero3.
Proof.
  intros Hd. destruct (magdr_constructed Hd) as [Hm _].
  rewrite evaluate_torque_i, evaluate_torque_j, evaluate_force.
  exact (envelope_torque_balance _dr (ni_world e) (nj_world e) (magdr e)
           (dfi_du e (fi e)) (dfj_du e (fj e)) Hm).
Qed.

End Envelope.

Lemma force_is_perpendicular_to_separation_witness :
  dot (SingleEnvelope.force (SingleEnvelope.evaluate janus_pair).2)
      (make_scalar3 2 0 0) = 0.
Proof.
  apply (force_is_perpendicular_to_separation identity_rotmat3
           (make_scalar3 2 0 0) (make_scalar4 1 0 0 0) (make_scalar4 1 0 0 0) 9
           (SingleEnvelope.make_param_type 0 1)
           (SingleEnvelope.make_shape_type (make_scalar3 1 0 0))
           (SingleEnvelope.make_shape_type (make_scalar3 0 1 0))).
  unfold dot; cbn; lra.
Defined.

Lemma torques_balance_force_witness :
  SingleEnvelope.torque_div_energy_i (SingleEnvelope.evaluate janus_pair).2
  +v SingleEnvelope.torque_div_energy_j (SingleEnvelope.evaluate janus_pair).2
  +v cross (make_scalar3 2 0 0)
           (SingleEnvelope.force (SingleEnvelope.evaluate janus_pair).2)
  = zero3.
Proof.
  apply (torques_balance_force identity_rotmat3
           (make_scalar3 2 0 0) (make_scalar4 1 0 0 0) (make_scalar4 1 0 0 0) 9
           (SingleEnvelope.make_param_type 0 1)
           (SingleEnvelope.make_shape_type (make_scalar3 1 0 0))
           (SingleEnvelope.make_shape_type (make_scalar3 0 1 0))).
  unfold dot; cbn; lra.
Defined.

(** ** Parameters and shapes of the envelope *)

(** X24.  [toPython()] of the [param_type] built from [alpha] and [omega]
    returns [alpha] and [omega] again if and only if [alpha] is between 0
    and [PI]. *)
Theorem param_type_round_trip (alpha omega : Scalar) :
  SingleEnvelope.param_toPython (SingleEnvelope.param_type_of_dict alpha omega)
  = (alpha, omega)
  <-> 0 <= alpha <= PI.
Proof.
  unfold SingleEnvelope.param_toPython, SingleEnvelope.param_type_of_dict.
  cbn [SingleEnvelope.cosalpha SingleEnvelope.omega]. split.
  - intros H. injection H as H. rewrite <- H. apply acos_bound.
  - intros H. rewrite acos_cos by exact H. reflexivity.
Qed.

Lemma normalised_dot (n : Scalar3) :
  0 < dot n n -> dot (n *v rsqrt (dot n n)) (n *v rsqrt (dot n n)) = 1.
Proof.
  intros Hn. unfold rsqrt.
  assert (Hs : 0 < sqrt (dot n n)) by (apply sqrt_lt_R0; exact Hn).
  assert (Hq : sqrt (dot n n) * sqrt (dot n n) = dot n n)
    by (apply sqrt_sqrt; lra).
  set (m := sqrt (dot n n)) in *.
  transitivity (dot n n / (m * m)).
  - unfold dot at 1, vmul. cbn. unfold dot. field. lra.
  - rewrite Hq. field. lra.
Qed.

(** X25.  The constructor of [shape_type] raises exactly when the tuple
    has not three elements. From a tuple [(x, y, z)] that is not zero it
    stores the vector divided by its norm, a unit vector, and the shape
    built from the tuple that [toPython()] returns is the same shape. *)
Theorem shape_type_normalises (patch_location : list Scalar) :
  (raises (SingleEnvelope.shape_type_of_tuple patch_location)
   <-> length patch_location <> 3%nat)
  /\ (forall x y z : Scalar,
        patch_location = [x; y; z] -> 0 < x * x + y * y + z * z ->
        exists s,
          SingleEnvelope.shape_type_of_tuple patch_location = Ok s
          /\ SingleEnvelope.m_n s
             = make_scalar3 x y z /v sqrt (x * x + y * y + z * z)
          /\ dot (SingleEnvelope.m_n s) (SingleEnvelope.m_n s) = 1
          /\ SingleEnvelope.shape_type_of_tuple (SingleEnvelope.shape_toPython s)
             = Ok s).
Proof.
  split.
  - unfold SingleEnvelope.shape_type_of_tuple.
    destruct (Nat.eqb_spec (length patch_location) 3) as [E|E]; cbn [negb raises];
      tauto.
  - intros x y z -> Hn.
    unfold SingleEnvelope.shape_type_of_tuple. cbn [length Nat.eqb negb].
    change ([x; y; z] !!! 0%nat) with x. change ([x; y; z] !!! 1%nat) with y.
    change ([x; y; z] !!! 2%nat) with z.
    set (n := make_scalar3 x y z).
    assert (Hd : dot n n = x * x + y * y + z * z) by reflexivity.
    assert (Hn' : 0 < dot n n) by (rewrite Hd; exact Hn).
    pose proof (normalised_dot n Hn') as Hu.
    eexists. split; [reflexivity|]. cbn [SingleEnvelope.m_n].
    split; [|split; [exact Hu|]].
    + rewrite <- Hd. unfold vmul, vdiv, rsqrt, Rdiv. reflexivity.
    + unfold SingleEnvelope.shape_toPython. cbn [SingleEnvelope.m_n].
      set (u := n *v rsqrt (dot n n)) in *.
      change ([x3 u; y3 u; z3 u] !!! 0%nat) with (x3 u).
      change ([x3 u; y3 u; z3 u] !!! 1%nat) with (y3 u).
      change ([x3 u; y3 u; z3 u] !!! 2%nat) with (z3 u).
      replace (make_scalar3 (x3 u) (y3 u) (z3 u)) with u by (destruct u; reflexivity).
      rewrite Hu. unfold rsqrt. rewrite sqrt_1, Rinv_1.
      do 2 f_equal. destruct u as [ux uy uz]. unfold vmul. cbn. f_equal; ring.
Qed.

Lemma shape_type_normalises_witness :
  exists s,
    SingleEnvelope.shape_type_of_tuple [3; 0; 4] = Ok s
    /\ SingleEnvelope.m_n s = make_scalar3 3 0 4 /v sqrt (3 * 3 + 0 * 0 + 4 * 4)
    /\ dot (SingleEnvelope.m_n s) (SingleEnvelope.m_n s) = 1
    /\ SingleEnvelope.shape_type_of_tuple (SingleEnvelope.shape_toPython s) = Ok s.
Proof.
  apply (proj2 (shape_type_normalises [3; 0; 4]) 3 0 4); [reflexivity | lra].
Defined.

(** ** The flags of the Python tuner *)

Section Tuner.
Import PythonTuner.
Variable N : Z.
Hypothesis N_is_size_t : (N <= 2 ^ 64)%Z.

Lemma set_flag_in_range (bits flag : Z) :
  flag_in_range N flag -> set_flag N (Ok bits) flag = Ok (Z.setbit bits flag).
Proof.
  intros [H0 H1]. unfold set_flag, cast_size_t, bitset_set.
  assert (H2 : (flag <? 2 ^ 64)%Z = true) by (apply Z.ltb_lt; lia).
  assert (H3 : (0 <=? flag)%Z = true) by (apply Z.leb_le; lia).
  assert (H4 : (flag <? N)%Z = true) by (apply Z.ltb_lt; lia).
  rewrite H2, H3. cbn [andb]. rewrite H4. reflexivity.
Qed.

Lemma set_flag_out_of_range (bits flag : Z) :
  ~ flag_in_range N flag -> raises (set_flag N (Ok bits) flag).
Proof.
  intros Hout. unfold set_flag, cast_size_t, bitset_set.
  destruct ((0 <=? flag)%Z) eqn:H0; cbn [andb]; [|exact I].
  destruct ((flag <? 2 ^ 64)%Z) eqn:H1; [|exact I].
  destruct ((flag <? N)%Z) eqn:H2; [|exact I].
  exfalso. apply Hout. apply Z.leb_le in H0. apply Z.ltb_lt in H2.
  split; assumption.
Qed.

Lemma set_flag_raised (what : string) (fs : list Z) :
  foldl (set_flag N) (Raise what) fs = Raise what.
Proof. induction fs as [|f fs IH]; [reflexivity|exact IH]. Qed.

Lemma set_flags_in_range (fs : list Z) (bits : Z) :
  Forall (flag_in_range N) fs ->
  exists bits',
    foldl (set_flag N) (Ok bits) fs = Ok bits'
    /\ forall i, (0 <= i)%Z ->
         (Z.testbit bits' i = true <-> i ∈ fs \/ Z.testbit bits i = true).
Proof.
  intros Hall. revert bits.
  induction Hall as [|f fs Hf Hall IH]; intros bits.
  - exists bits. split; [reflexivity|]. intros i Hi. split; [auto|].
    intros [H|H]; [|exact H]. apply elem_of_nil in H. contradiction.
  - cbn [foldl]. rewrite set_flag_in_range by exact Hf.
    destruct (IH (Z.setbit bits f)) as (bits' & Hfold & Hbits).
    exists bits'. split; [exact Hfold|]. intros i Hi.
    rewrite Hbits by exact Hi. rewrite Z.setbit_iff by (destruct Hf; lia).
    rewrite elem_of_cons. split.
    + intros [H|[H|H]]; auto.
    + intros [[H|H]|H]; auto.
Qed.

Lemma set_flags_out_of_range (fs : list Z) (bits : Z) :
  Exists (fun f => ~ flag_in_range N f) fs ->
  raises (foldl (set_flag N) (Ok bits) fs).
Proof.
  intros Hex. revert bits.
  induction fs as [|f fs IH]; intros bits; [inversion Hex|].
  cbn [foldl].
  destruct (set_flag N (Ok bits) f) as [bits'|what] eqn:Hset.
  - inversion Hex as [? ? Hout|? ? Hrest]; subst.
    + apply (set_flag_out_of_range bits) in Hout. rewrite Hset in Hout.
      contradiction.
    + apply IH. exact Hrest.
  - rewrite set_flag_raised. exact I.
Qed.

(** X26.  When every flag of the Python object is a position of the bit
    set, whose size is at most [2^64], [setTuner] returns normally and
    stores the object, and the bit [i] of [getRequestedPDataFlags()] is
    then set exactly when [i] is among the flags of the object, whatever
    the flags were before. *)
Theorem setTuner_requests_exactly_the_flags_of_the_tuner
    (o : t) (tuner : py_object) :
  Forall (flag_in_range N) (flags tuner) ->
  let o' := (setTuner N o tuner).1 in
  (setTuner N o tuner).2 = Ok tt
  /\ m_tuner o' = tuner
  /\ forall i, (0 <= i)%Z ->
       (Z.testbit (getRequestedPDataFlags o') i = true <-> i ∈ flags tuner).
Proof.
  intros Hall. cbv zeta. unfold setTuner.
  destruct (set_flags_in_range (flags tuner) 0 Hall) as (bits & Hfold & Hbits).
  rewrite Hfold. cbn [fst snd m_tuner m_flags getRequestedPDataFlags].
  split; [reflexivity|]. split; [reflexivity|]. intros i Hi.
  rewrite Hbits by exact Hi. rewrite Z.bits_0. split; [|auto].
  intros [H|H]; [exact H|discriminate].
Qed.

(** X27.  When some flag of the Python object is no position of the bit
    set, [setTuner] raises; the object then holds the new Python object
    and the flags that it had before the call. *)
Theorem setTuner_with_a_flag_out_of_range (o : t) (tuner : py_object) :
  Exists (fun f => ~ flag_in_range N f) (flags tuner) ->
  let o' := (setTuner N o tuner).1 in
  raises (setTuner N o tuner).2
  /\ m_tuner o' = tuner
  /\ getRequestedPDataFlags o' = getRequestedPDataFlags o.
Proof.
  intros Hex. cbv zeta. unfold setTuner.
  pose proof (set_flags_out_of_range (flags tuner) 0 Hex) as Hr.
  destruct (foldl (set_flag N) (Ok 0%Z) (flags tuner)) as [bits|what];
    [contradiction|].
  cbn [fst snd m_tuner m_flags getRequestedPDataFlags raises]. auto.
Qed.

End Tuner.

Lemma setTuner_requests_exactly_the_flags_of_the_tuner_witness :
  let o' := (PythonTuner.setTuner 32 (PythonTuner.make tuner_40 5) tuner_1_3).1 in
  (PythonTuner.setTuner 32 (PythonTuner.make tuner_40 5) tuner_1_3).2 = Ok tt
  /\ PythonTuner.m_tuner o' = tuner_1_3
  /\ forall i, (0 <= i)%Z ->
       (Z.testbit (PythonTuner.getRequestedPDataFlags o') i = true
        <-> i ∈ PythonTuner.flags tuner_1_3).
Proof.
  apply (setTuner_requests_exactly_the_flags_of_the_tuner 32);
    [lia | repeat constructor; unfold flag_in_range; lia].
Defined.

Lemma setTuner_with_a_flag_out_of_range_witness :
  let o' := (PythonTuner.setTuner 32 (PythonTuner.make tuner_1_3 10) tuner_40).1 in
  raises (PythonTuner.setTuner 32 (PythonTuner.make tuner_1_3 10) tuner_40).2
  /\ PythonTuner.m_tuner o' = tuner_40
  /\ PythonTuner.getRequestedPDataFlags o' = 10%Z.
Proof.
  apply (setTuner_with_a_flag_out_of_range 32).
  apply Exists_cons_tl, Exists_cons_hd. unfold flag_in_range. lia.
Defined.

(** ** The virtual particles of the cosine channel *)

Lemma inserts_length {A : Type} (idx : nat -> nat) (f : nat -> A) (ks : list nat)
    (l : list A) :
  length (foldl (fun l i => <[idx i := f i]> l) l ks) = length l.
Proof.
  revert l. induction ks as [|i ks IH]; intros l; [reflexivity|].
  cbn [foldl]. rewrite IH. apply length_insert.
Qed.

Lemma inserts_frame {A : Type} (idx : nat -> nat) (f : nat -> A) (ks : list nat)
    (l : list A) (j : nat) :
  (forall i, i ∈ ks -> idx i <> j) ->
  foldl (fun l i => <[idx i := f i]> l) l ks !! j = l !! j.
Proof.
  revert l. induction ks as [|i ks IH]; intros l Hne; [reflexivity|].
  cbn [foldl]. rewrite IH by (intros i' Hin; apply Hne, list_elem_of_further, Hin).
  apply list_lookup_insert_ne, Hne, list_elem_of_here.
Qed.

Lemma inserts_lookup {A : Type} (idx : nat -> nat) (f : nat -> A) (n : nat)
    (l : list A) (i : nat) :
  (forall a b, (a < n)%nat -> (b < n)%nat -> idx a = idx b -> a = b) ->
  (i < n)%nat -> (idx i < length l)%nat ->
  foldl (fun l i => <[idx i := f i]> l) l (seq 0 n) !! idx i = Some (f i).
Proof.
  intros Hinj. revert i. induction n as [|n IH]; intros i Hi Hlen; [lia|].
  rewrite seq_S, foldl_app. cbn [foldl Nat.add].
  destruct (decide (i = n)) as [->|Hne].
  - apply list_lookup_insert_eq. rewrite inserts_length. exact Hlen.
  - rewrite list_lookup_insert_ne.
    + apply IH; [|lia|exact Hlen]. intros a b Ha Hb. apply Hinj; lia.
    + intros E. apply Hne. symmetry. apply Hinj; [lia|lia|exact E].
Qed.

Section Filler.
Import CosineChannelFiller.
Variable env : FillerEnvironment.
Variable o : t.
Variable pd : ParticleData.
Variable timestep : nat.

Lemma draw_loop_fields (ks : list nat) (pd1 : ParticleData) :
  foldl (draw_step env o pd timestep) pd1 ks
  = make_pdata
      (foldl (fun l i => <[u32 (Z.of_nat (first_idx o pd) + Z.of_nat i)
                           := (draw env o pd timestep i).1.2]> l)
             (getPositions pd1) ks)
      (foldl (fun l i => <[u32 (Z.of_nat (first_idx o pd) + Z.of_nat i)
                           := (draw env o pd timestep i).2]> l)
             (getVelocities pd1) ks)
      (foldl (fun l i => <[u32 (Z.of_nat (first_idx o pd) + Z.of_nat i)
                           := (draw env o pd timestep i).1.1]> l)
             (getTags pd1) ks)
      (getN pd1) (getNVirtual pd1) (getMass pd1).
Proof.
  revert pd1. induction ks as [|i ks IH]; intros pd1; [destruct pd1; reflexivity|].
  cbn [foldl]. rewrite IH. unfold draw_step.
  destruct (draw env o pd timestep i) as [[tag pos] vel]. reflexivity.
Qed.

Hypothesis room : room_to_fill o pd.

Lemma first_idx_no_wrap :
  first_idx o pd = (getN pd + getNVirtual pd - m_N_fill o)%nat.
Proof.
  destruct room as (Hfill & _ & _ & _ & Hn & _).
  unfold first_idx, u32. rewrite Z.mod_small by lia. lia.
Qed.

Lemma pidx_no_wrap (i : nat) :
  (i < m_N_fill o)%nat ->
  u32 (Z.of_nat (first_idx o pd) + Z.of_nat i)
  = (getN pd + getNVirtual pd - m_N_fill o + i)%nat.
Proof.
  intros Hi. destruct room as (Hfill & _ & _ & _ & Hn & _).
  rewrite first_idx_no_wrap. unfold u32. rewrite Z.mod_small by lia. lia.
Qed.

Lemma tag_no_wrap (i : nat) :
  (i < m_N_fill o)%nat ->
  (draw env o pd timestep i).1.1 = (m_first_tag o + i)%nat.
Proof.
  intros Hi. destruct room as (_ & _ & _ & _ & _ & Htag).
  unfold draw. cbv zeta.
  destruct (UniformDistribution env _ _ _) as [x g1].
  destruct (UniformDistribution env _ _ _) as [y g2].
  destruct (UniformDistribution env _ _ _) as [z g3].
  destruct (NormalDistribution_two env _ _ _) as [[vx vy] g4].
  destruct (NormalDistribution_one env _ _ _) as [vz g5].
  cbn [fst snd]. unfold u32. rewrite Z.mod_small by lia. lia.
Qed.

Lemma pidx_injective (a b : nat) :
  (a < m_N_fill o)%nat -> (b < m_N_fill o)%nat ->
  u32 (Z.of_nat (first_idx o pd) + Z.of_nat a)
  = u32 (Z.of_nat (first_idx o pd) + Z.of_nat b) -> a = b.
Proof. intros Ha Hb. rewrite !pidx_no_wrap by assumption. lia. Qed.

Lemma drawn_slot (i : nat) :
  (i < m_N_fill o)%nat ->
  let pd' := drawParticles env o pd timestep in
  let k := (getN pd + getNVirtual pd - m_N_fill o + i)%nat in
  getPositions pd' !!! k = (draw env o pd timestep i).1.2
  /\ getVelocities pd' !!! k = (draw env o pd timestep i).2
  /\ getTags pd' !!! k = (m_first_tag o + i)%nat.
Proof.
  intros Hi. cbv zeta. unfold drawParticles. rewrite draw_loop_fields.
  cbn [getPositions getVelocities getTags].
  destruct room as (Hfill & Hp & Hv & Ht & _ & _).
  rewrite <- (pidx_no_wrap i Hi).
  assert (Hk : (u32 (Z.of_nat (first_idx o pd) + Z.of_nat i)
                < getN pd + getNVirtual pd)%nat)
    by (rewrite pidx_no_wrap by exact Hi; lia).
  repeat split; apply list_lookup_total_correct.
  - apply (inserts_lookup (fun i => u32 (Z.of_nat (first_idx o pd) + Z.of_nat i))
             (fun i => (draw env o pd timestep i).1.2));
      [exact pidx_injective | exact Hi | lia].
  - apply (inserts_lookup (fun i => u32 (Z.of_nat (first_idx o pd) + Z.of_nat i))
             (fun i => (draw env o pd timestep i).2));
      [exact pidx_injective | exact Hi | lia].
  - rewrite <- (tag_no_wrap i Hi).
    apply (inserts_lookup (fun i => u32 (Z.of_nat (first_idx o pd) + Z.of_nat i))
             (fun i => (draw env o pd timestep i).1.1));
      [exact pidx_injective | exact Hi | lia].
Qed.

Lemma Rmin_Rmax_neg (th z : R) :
  0 <= th -> Rmin 0 (IZR (-1) * th) <= z <= Rmax 0 (IZR (-1) * th) -> - th <= z <= 0.
Proof.
  intros Hth. unfold Rmin, Rmax.
  destruct (Rle_dec 0 (IZR (-1) * th)); lra.
Qed.

Lemma Rmin_Rmax_pos (th z : R) :
  0 <= th -> Rmin 0 (IZR 1 * th) <= z <= Rmax 0 (IZR 1 * th) -> 0 <= z <= th.
Proof.
  intros Hth. unfold Rmin, Rmax.
  destruct (Rle_dec 0 (IZR 1 * th)); lra.
Qed.

Lemma drawn_position (i : nat) :
  uniform_between_bounds env -> 0 <= m_thickness o ->
  let p := (draw env o pd timestep i).1.2 in
  w4 p = int_as_scalar env (Z.of_nat (m_type o))
  /\ Rmin (x3 (getLo env)) (x3 (getHi env)) <= x4 p
     <= Rmax (x3 (getLo env)) (x3 (getHi env))
  /\ Rmin (y3 (getLo env)) (y3 (getHi env)) <= y4 p
     <= Rmax (y3 (getLo env)) (y3 (getHi env))
  /\ ((i < m_N_fill o / 2)%nat ->
      - m_H_narrow o - m_thickness o <= height_in_channel o p <= - m_H_narrow o)
  /\ ((m_N_fill o / 2 <= i)%nat ->
      m_H_narrow o <= height_in_channel o p <= m_H_narrow o + m_thickness o).
Proof.
  intros Hu Hth. unfold draw. cbv zeta.
  set (g0 := seed_generator env _ _ _).
  pose proof (Hu (x3 (getLo env)) (x3 (getHi env)) g0) as Hx.
  destruct (UniformDistribution env (x3 (getLo env)) _ g0) as [x g1].
  pose proof (Hu (y3 (getLo env)) (y3 (getHi env)) g1) as Hy.
  destruct (UniformDistribution env (y3 (getLo env)) _ g1) as [y g2].
  set (sign := (Z.b2z (m_N_fill o / 2 <=? i)%nat - Z.b2z (i <? m_N_fill o / 2)%nat)%Z).
  pose proof (Hu 0 (IZR sign * m_thickness o) g2) as Hz.
  destruct (UniformDistribution env 0 _ g2) as [z g3].
  destruct (NormalDistribution_two env _ _ _) as [[vx vy] g4].
  destruct (NormalDistribution_one env _ _ _) as [vz g5].
  cbn [fst snd] in *. unfold height_in_channel. cbn [w4 x4 y4 z4].
  split; [reflexivity|]. split; [exact Hx|]. split; [exact Hy|].
  split; intros Hi.
  - assert (Hs : sign = (-1)%Z).
    { unfold sign. destruct (Nat.leb_spec (m_N_fill o / 2) i); [lia|].
      destruct (Nat.ltb_spec i (m_N_fill o / 2)); [reflexivity|lia]. }
    rewrite Hs in Hz |- *. apply (Rmin_Rmax_neg _ _ Hth) in Hz. lra.
  - assert (Hs : sign = 1%Z).
    { unfold sign. destruct (Nat.leb_spec (m_N_fill o / 2) i); [|lia].
      destruct (Nat.ltb_spec i (m_N_fill o / 2)); [lia|reflexivity]. }
    rewrite Hs in Hz |- *. apply (Rmin_Rmax_pos _ _ Hth) in Hz. lra.
Qed.

(** X28.  When the uniform draws lie between their bounds, the thickness
    is not negative, the arrays hold the owned and the virtual particles
    and nothing wraps, [drawParticles] gives slot [N + NVirtual - m_N_fill
    + i], for [i] below [m_N_fill], the tag [m_first_tag + i], the type of
    the filler, [x] and [y] between the bounds of the box, and a height [z
    - A cos(x 2 pi p / L)] between [- H - thickness] and [- H] for [i]
    below [m_N_fill / 2], between [H] and [H + thickness] otherwise. *)
Theorem virtual_particles_are_drawn_outside_the_channel (i : nat) :
  uniform_between_bounds env -> 0 <= m_thickness o -> (i < m_N_fill o)%nat ->
  let pd' := drawParticles env o pd timestep in
  let k := (getN pd + getNVirtual pd - m_N_fill o + i)%nat in
  let p := getPositions pd' !!! k in
  getTags pd' !!! k = (m_first_tag o + i)%nat
  /\ w4 p = int_as_scalar env (Z.of_nat (m_type o))
  /\ Rmin (x3 (getLo env)) (x3 (getHi env)) <= x4 p
     <= Rmax (x3 (getLo env)) (x3 (getHi env))
  /\ Rmin (y3 (getLo env)) (y3 (getHi env)) <= y4 p
     <= Rmax (y3 (getLo env)) (y3 (getHi env))
  /\ ((i < m_N_fill o / 2)%nat ->
      - m_H_narrow o - m_thickness o <= height_in_channel o p <= - m_H_narrow o)
  /\ ((m_N_fill o / 2 <= i)%nat ->
      m_H_narrow o <= height_in_channel o p <= m_H_narrow o + m_thickness o).
Proof.
  intros Hu Hth Hi. cbv zeta.
  destruct (drawn_slot i Hi) as (Hp & _ & Ht). cbv zeta in Hp, Ht.
  rewrite Hp. split; [exact Ht|]. apply drawn_position; assumption.
Qed.

(** X29.  When the arrays hold the owned and the virtual particles and
    nothing wraps, [drawParticles] leaves the position, the velocity and
    the tag of every slot below [N + NVirtual - m_N_fill], the lengths of
    the three arrays and the numbers of owned and virtual particles. *)
Theorem drawParticles_leaves_the_other_particles (j : nat) :
  (j < getN pd + getNVirtual pd - m_N_fill o)%nat ->
  let pd' := drawParticles env o pd timestep in
  getPositions pd' !! j = getPositions pd !! j
  /\ getVelocities pd' !! j = getVelocities pd !! j
  /\ getTags pd' !! j = getTags pd !! j
  /\ length (getPositions pd') = length (getPositions pd)
  /\ length (getVelocities pd') = length (getVelocities pd)
  /\ length (getTags pd') = length (getTags pd)
  /\ getN pd' = getN pd /\ getNVirtual pd' = getNVirtual pd.
Proof.
  intros Hj. cbv zeta. unfold drawParticles. rewrite draw_loop_fields.
  cbn [getPositions getVelocities getTags getN getNVirtual].
  assert (Hne : forall i, i ∈ seq 0 (m_N_fill o) ->
                  u32 (Z.of_nat (first_idx o pd) + Z.of_nat i) <> j).
  { intros i Hin. apply elem_of_seq in Hin.
    rewrite pidx_no_wrap by lia. lia. }
  repeat split; try apply inserts_length; apply inserts_frame; exact Hne.
Qed.

End Filler.

Lemma midpoint_between_bounds : uniform_between_bounds midpoint_environment.
Proof.
  intros a b g. cbn. unfold Rmin, Rmax. destruct (Rle_dec a b); lra.
Qed.

Lemma room_for_three : room_to_fill filler_of_three mpcd_two_and_three.
Proof. unfold room_to_fill. cbn. lia. Qed.

Lemma virtual_particles_are_drawn_outside_the_channel_witness :
  let pd' := CosineChannelFiller.drawParticles midpoint_environment
               filler_of_three mpcd_two_and_three 0 in
  let p := CosineChannelFiller.getPositions pd' !!! 2%nat in
  - 3 - 2 <= height_in_channel filler_of_three p <= - 3.
Proof.
  apply (virtual_particles_are_drawn_outside_the_channel midpoint_environment
           filler_of_three mpcd_two_and_three 0 room_for_three 0
           midpoint_between_bounds);
    cbn; lra || lia.
Defined.

Lemma drawParticles_leaves_the_other_particles_witness :
  CosineChannelFiller.getTags
    (CosineChannelFiller.drawParticles midpoint_environment filler_of_three
       mpcd_two_and_three 0) !! 1%nat = Some 1%nat.
Proof.
  apply (drawParticles_leaves_the_other_particles midpoint_environment
           filler_of_three mpcd_two_and_three 0 room_for_three 1).
  cbn. lia.
Defined.
